(** * CodeFlow-Intelligence: the activity collector and its statistics engine

    A shallow embedding of the classes [DataManager] (event store, statistics
    engine, sync), [ActivityTracker] (the edit buffer of the event
    normalizer) and [ApiClient] (its token and [syncActivityData]) of the
    [devtracker] extension, with the properties that its specification
    states of them and further properties read off the code.

    Conventions.
    - A JavaScript [number] that holds an epoch-millisecond time stamp, a
      counter or a duration is an integer below 2^53, on which the double
      arithmetic of the source is exact: it is modelled as [Z].  Lengths of
      strings and of replaced ranges are modelled as [N].
    - The only fractional computation, the productivity score, goes through
      an explicit rounding operator (see [calculateProductivityScore]).
    - [Array.prototype.sort] is stable; it is modelled by a stable insertion
      sort ([sortBy]), shown below to sort, to permute, to leave a sorted
      array as it is and to commute with [filter].
    - A JavaScript [Map] whose iteration order is observed is an association
      list in insertion order; the maps of the edit buffer, of which only
      lookups, insertions and deletions are observed, are [gmap]s.
    - A method that reads the clock takes the instant [now] as an argument;
      a method that changes its object returns the object after the call.
    - The calendar of the host ([Date.prototype.setDate], which steps local
      days) is a parameter of [getDailyActivityOn] and
      [calculateStreakDataOn]; [getDailyActivity] and [calculateStreakData]
      are their instances for a host at a fixed offset to UTC.
    - Generated identifiers ([Math.random]) and the workspace of the host are
      not modelled: events made by [trackEvent] carry a fixed id and no
      workspace. *)

From Stdlib Require Import ZArith List Lia Lqa Sorting.Sorted QArith Qround.
From stdpp Require Import base tactics option list gmap strings.

Local Open Scope Z_scope.

(** ** Data model ([types.ts]) *)

Inductive ActivityType : Set :=
  | FILE_OPEN | FILE_CLOSE | FILE_SWITCH | FILE_EDIT | FILE_SAVE
  | FILE_CREATE | FILE_DELETE | FILE_RENAME
  | COMMAND_EXECUTE
  | DEBUG_START | DEBUG_STOP | DEBUG_BREAKPOINT
  | TERMINAL_OPEN | TERMINAL_CLOSE
  | EXTENSION_INSTALL | EXTENSION_UNINSTALL
  | WORKSPACE_OPEN | WORKSPACE_CLOSE
  | FOCUS_GAINED | FOCUS_LOST
  | TASK_START | TASK_END
  | GIT_COMMIT | GIT_PUSH | GIT_PULL
  | SEARCH_PERFORMED.

#[global] Instance ActivityType_eq_dec : EqDecision ActivityType.
Proof. solve_decision. Defined.

Inductive EditType : Set := insert_edit | delete_edit | replace_edit.

#[global] Instance EditType_eq_dec : EqDecision EditType.
Proof. solve_decision. Defined.

(** The payload: the union of optional-field shapes of [types.ts], restricted
    to the fields that the modelled functions read or write. *)
Record ActivityData : Set := mkData {
  fileName : option string;
  filePath : option string;
  language : option string;
  commandId : option string;
  charactersAdded : option N;
  charactersDeleted : option N;
  editType : option EditType
}.

Definition emptyData : ActivityData := mkData None None None None None None None.

Record ActivityEvent : Set := mkEvent {
  evId : string;
  timestamp : Z;
  type : ActivityType;
  data : ActivityData;
  sessionId : string;
  workspaceId : option string;
  projectName : option string
}.

Record SessionData : Set := mkSession {
  sessId : string;
  startTime : Z;
  endTime : option Z;
  sessWorkspaceId : option string;
  sessProjectName : option string;
  totalEvents : Z;
  sessActiveTime : Z
}.

(** An event with only a time stamp and a type, for the examples. *)
Definition ev (t : Z) (ty : ActivityType) : ActivityEvent :=
  mkEvent "e" t ty emptyData "s" None None.

(** ** JavaScript primitives *)

(** Truthiness of a number ([0] is falsy; [NaN] is not representable). *)
Definition truthy (n : Z) : bool := negb (n =? 0).

(** [arr.includes(x)] on an array of enum values. *)
Definition includes (arr : list ActivityType) (x : ActivityType) : bool :=
  bool_decide (x ∈ arr).

Section StableSort.
Context {A : Type} (key : A → Z).

(** Insertion in front of the first element whose key is not smaller: an
    element that came earlier in the array stays in front of its equals. *)
Fixpoint insertBy (x : A) (l : list A) : list A :=
  match l with
  | [] => [x]
  | y :: l' => if key x <=? key y then x :: l else y :: insertBy x l'
  end.

(** [arr.sort((a, b) => key(a) - key(b))]. *)
Fixpoint sortBy (l : list A) : list A :=
  match l with
  | [] => []
  | x :: l' => insertBy x (sortBy l')
  end.

Definition keyLe (a b : A) : Prop := key a ≤ key b.
End StableSort.

Definition sortByTimestamp : list ActivityEvent → list ActivityEvent :=
  sortBy timestamp.

(** ** Statistics engine: active, coding and debug time *)

Definition maxIdleTime : Z := 5 * 60 * 1000.

Definition activeEventTypes : list ActivityType :=
  [FILE_EDIT; FILE_SWITCH; COMMAND_EXECUTE; FOCUS_GAINED].

(** Loop state of [calculateActiveTime]: [(activeTime, lastActiveTime)]. *)
Definition activeStep (st : Z * Z) (event : ActivityEvent) : Z * Z :=
  let '(activeTime, lastActiveTime) := st in
  if includes activeEventTypes (type event) then
    ((if truthy lastActiveTime && (timestamp event - lastActiveTime <? maxIdleTime)
      then activeTime + (timestamp event - lastActiveTime)
      else activeTime),
     timestamp event)
  else st.

(** The source sorts its argument in place; the callers modelled here hand it
    an array of their own, so only the returned number is kept. *)
Definition calculateActiveTime (events : list ActivityEvent) : Z :=
  fst (fold_left activeStep (sortByTimestamp events) (0, 0)).

Definition codingEventTypes : list ActivityType := [FILE_EDIT; FILE_SAVE].

Definition calculateCodingTime (events : list ActivityEvent) : Z :=
  let codingEvents := List.filter (λ e, includes codingEventTypes (type e)) events in
  calculateActiveTime codingEvents.

(** Loop state of [calculateDebugTime]: [(debugTime, debugStart)]. *)
Definition debugStep (st : Z * Z) (event : ActivityEvent) : Z * Z :=
  let '(debugTime, debugStart) := st in
  if decide (type event = DEBUG_START) then (debugTime, timestamp event)
  else if bool_decide (type event = DEBUG_STOP) && truthy debugStart
       then (debugTime + (timestamp event - debugStart), 0)
       else st.

Definition calculateDebugTime (events : list ActivityEvent) : Z :=
  fst (fold_left debugStep (sortByTimestamp events) (0, 0)).

(** ** Statistics engine: daily histogram and streak *)

(** A JavaScript [Map] keyed by calendar day, in insertion order. *)
Section JsMap.
Context {V : Type}.

Fixpoint mapGet (m : list (Z * V)) (k : Z) : option V :=
  match m with
  | [] => None
  | (k', v) :: m' => if k' =? k then Some v else mapGet m' k
  end.

Definition mapHas (m : list (Z * V)) (k : Z) : bool :=
  match mapGet m k with Some _ => true | None => false end.

(** [m.set(k, v)]: an existing key keeps its position. *)
Fixpoint mapSet (m : list (Z * V)) (k : Z) (v : V) : list (Z * V) :=
  match m with
  | [] => [(k, v)]
  | (k', v') :: m' => if k' =? k then (k, v) :: m' else (k', v') :: mapSet m' k v
  end.
End JsMap.

Definition msPerDay : Z := 24 * 60 * 60 * 1000.

(** [new Date(t).toISOString().split('T')[0]]: the UTC calendar day of [t],
    represented by its day number.  For the years 0000 to 9999 the order of
    the [YYYY-MM-DD] strings ([localeCompare]) is the order of the numbers. *)
Definition dateKey (t : Z) : Z := t / msPerDay.

(** [const date = new Date(); date.setDate(date.getDate() - i)], for a host
    whose local time keeps a fixed offset to UTC over the window: every step
    is 24 hours.  [getDailyActivityOn] and [calculateStreakDataOn] below take
    the calendar of any host, of which this one is an instance. *)
Definition daysAgo (now : Z) (i : nat) : Z := now - Z.of_nat i * msPerDay.

Record DailyEntry : Set := mkDaily {
  date : Z;
  eventCount : Z;
  activeTime : Z
}.

Definition seedDays (now : Z) (days : Z) : list (Z * (Z * Z)) :=
  fold_left (λ m i, mapSet m (dateKey (daysAgo now i)) (0, 0))
            (seq 0 (Z.to_nat days)) [].

Definition groupByDay (events : list ActivityEvent) : list (Z * list ActivityEvent) :=
  fold_left (λ m event,
               let k := dateKey (timestamp event) in
               let m' := if mapHas m k then m else mapSet m k [] in
               mapSet m' k (default [] (mapGet m' k) ++ [event]))
            events [].

Definition getDailyActivity (now : Z) (events : list ActivityEvent) (days : Z)
  : list DailyEntry :=
  let dailyActivity :=
    fold_left (λ d (g : Z * list ActivityEvent),
                 let '(k, dayEvents) := g in
                 if mapHas d k
                 then mapSet d k (Z.of_nat (length dayEvents), calculateActiveTime dayEvents)
                 else d)
              (groupByDay events) (seedDays now days) in
  sortBy date (map (λ kv : Z * (Z * Z), mkDaily kv.1 kv.2.1 kv.2.2) dailyActivity).

Record StreakData : Set := mkStreak { current : Z; longest : Z }.

(** Loop state of [calculateStreakData]. *)
Record StreakState : Set := mkStreakState {
  currentStreak : Z;
  longestStreak : Z;
  tempStreak : Z
}.

(** The body of [for (let i = dailyActivity.length - 1; i >= 0; i--)]. *)
Definition streakStep (dailyActivity : list DailyEntry) (st : StreakState) (i : nat)
  : StreakState :=
  match dailyActivity !! i with
  | None => st
  | Some day =>
      let isLast := (i =? length dailyActivity - 1)%nat in
      if 0 <? eventCount day then
        let temp := tempStreak st + 1 in
        mkStreakState (if isLast then temp else currentStreak st)
                      (longestStreak st)
                      temp
      else
        mkStreakState (if isLast then 0 else currentStreak st)
                      (if longestStreak st <? tempStreak st
                       then tempStreak st else longestStreak st)
                      0
  end.

(** [for (let i = n - 1; i >= 0; i--)] from the state [st]. *)
Fixpoint streakLoop (dailyActivity : list DailyEntry) (n : nat) (st : StreakState)
  : StreakState :=
  match n with
  | O => st
  | S i => streakLoop dailyActivity i (streakStep dailyActivity st i)
  end.

(** [calculateStreakData] after its call of [getDailyActivity]. *)
Definition streakOfDaily (dailyActivity : list DailyEntry) : StreakData :=
  let st := streakLoop dailyActivity (length dailyActivity) (mkStreakState 0 0 0) in
  mkStreak (currentStreak st) (Z.max (longestStreak st) (tempStreak st)).

(** ** Statistics engine: productivity score *)

Definition weights (t : ActivityType) : Z :=
  match t with
  | FILE_EDIT => 3 | FILE_SAVE => 2 | FILE_CREATE => 4 | DEBUG_START => 2
  | GIT_COMMIT => 5 | COMMAND_EXECUTE => 1 | FILE_OPEN => 1 | FILE_CLOSE => 0
  | FILE_SWITCH => 1 | FILE_DELETE => 1 | FILE_RENAME => 1 | DEBUG_STOP => 0
  | DEBUG_BREAKPOINT => 1 | TERMINAL_OPEN => 1 | TERMINAL_CLOSE => 0
  | EXTENSION_INSTALL => 1 | EXTENSION_UNINSTALL => 0 | WORKSPACE_OPEN => 0
  | WORKSPACE_CLOSE => 0 | FOCUS_GAINED => 0 | FOCUS_LOST => 0
  | TASK_START => 2 | TASK_END => 1 | GIT_PUSH => 3 | GIT_PULL => 2
  | SEARCH_PERFORMED => 1
  end.

(** [Math.round]: to the nearest integer, halves upwards. *)
Definition mathRound (x : Q) : Z := Qfloor (x + (1 # 2))%Q.

(** The weighted sum is an exact integer; the quotient and its product with
    100 are doubles.  [rnd] is the rounding of a real result to a double; the
    properties of it that matter are hypotheses of the theorems.
    ([weights[event.type] || 0] is [weights[event.type]]: the table is total.) *)
Definition calculateProductivityScore (rnd : Q → Q) (events : list ActivityEvent) : Z :=
  if (length events =? 0)%nat then 0
  else
    let score := fold_left (λ s event, s + weights (type event)) events 0 in
    let maxPossibleScore := Z.of_nat (length events) * 5 in
    Z.min 100
      (mathRound (rnd (rnd (inject_Z score / inject_Z maxPossibleScore) * inject_Z 100)%Q)).

(** ** Event store ([DataManager]) *)

(** The fields of [DataManager], with the two values it reads from its
    environment: [lastSyncTime] is the entry of [context.globalState] under
    that key, [enableSync] the configuration option, and [sessionToken] the
    field of its [ApiClient]. *)
Record DataManager : Set := mkManager {
  events : list ActivityEvent;
  sessions : list SessionData;
  currentSession : option SessionData;
  lastSyncTime : option Z;
  enableSync : bool;
  sessionToken : option string
}.

Definition setEvents (l : list ActivityEvent) (dm : DataManager) : DataManager :=
  mkManager l (sessions dm) (currentSession dm) (lastSyncTime dm) (enableSync dm)
            (sessionToken dm).

Definition setCurrentSession (s : option SessionData) (dm : DataManager) : DataManager :=
  mkManager (events dm) (sessions dm) s (lastSyncTime dm) (enableSync dm)
            (sessionToken dm).

Definition setLastSyncTime (t : Z) (dm : DataManager) : DataManager :=
  mkManager (events dm) (sessions dm) (currentSession dm) (Some t) (enableSync dm)
            (sessionToken dm).

Definition maxEvents : Z := 50000.

(** [arr.slice(-n)] for a positive [n]: the last [n] elements, or all of them. *)
Definition sliceLast {A : Type} (n : Z) (arr : list A) : list A :=
  drop (Z.to_nat (Z.max (Z.of_nat (length arr) - n) 0)) arr.

Definition criticalEventTypes : list ActivityType :=
  [WORKSPACE_OPEN; WORKSPACE_CLOSE; DEBUG_START; GIT_COMMIT].

Definition isCriticalEvent (t : ActivityType) : bool := includes criticalEventTypes t.

(** How [addEvent] triggers persistence. *)
Inductive SaveAction : Set := SaveNow | SaveDebounced.

(** [addEvent(event)] at the instant [now]; [Math.floor(maxEvents * 0.8)] is
    [maxEvents * 8 / 10]. *)
Definition addEvent (now : Z) (event : ActivityEvent) (dm : DataManager)
  : DataManager * SaveAction :=
  let pushed := events dm ++ [event] in
  let session :=
    match currentSession dm with
    | Some s => Some (mkSession (sessId s) (startTime s) (Some now)
                                (sessWorkspaceId s) (sessProjectName s)
                                (totalEvents s + 1) (sessActiveTime s))
    | None => None
    end in
  let kept :=
    if maxEvents <? Z.of_nat (length pushed)
    then sliceLast (maxEvents * 8 / 10) pushed
    else pushed in
  (setCurrentSession session (setEvents kept dm),
   if isCriticalEvent (type event) then SaveNow else SaveDebounced).

(** [getEvents(startDate?, endDate?)]: the returned array and the manager
    after the call.  A [Date] is its [getTime()]. *)
Definition getEvents (startDate endDate : option Z) (dm : DataManager)
  : list ActivityEvent * DataManager :=
  let filteredEvents := events dm in
  let filteredEvents :=
    match startDate with
    | Some s => List.filter (λ e, s <=? timestamp e) filteredEvents
    | None => filteredEvents
    end in
  let filteredEvents :=
    match endDate with
    | Some t => List.filter (λ e, timestamp e <=? t) filteredEvents
    | None => filteredEvents
    end in
  (filteredEvents, dm).

(** [calculateStreakData(days)] at the instant [now]. *)
Definition calculateStreakData (now : Z) (days : Z) (dm : DataManager) : StreakData :=
  streakOfDaily (getDailyActivity now (events dm) days).

(** ** Sync client ([ApiClient.syncActivityData], [DataManager.syncDataWithAPI]) *)

(** The value handed back to the caller of a sync, and the body of the remote
    answer [{success, error?}]. *)
Record SyncResult : Set := mkResult {
  success : bool;
  message : option string;
  error : option string
}.

(** How a call of a function of the source ends. *)
Inductive Completion (A : Type) : Type :=
  | Returned (a : A)
  | Thrown (err : string).
Arguments Returned {A} a.
Arguments Thrown {A} err.

(** How the POST to the remote API ends: the promise resolves with the body
    of the answer, or rejects (network error, timeout, status outside 2xx). *)
Inductive HttpOutcome : Set :=
  | Resolved (body : SyncResult)
  | Rejected (err : string).

(** One request sent to the remote API. *)
Definition Request : Set := (list ActivityEvent * list SessionData)%type.

Definition Remote : Set := list ActivityEvent → list SessionData → HttpOutcome.

(** [!this.sessionToken]: an absent or empty token. *)
Definition tokenMissing (tok : option string) : bool :=
  match tok with
  | None => true
  | Some s => bool_decide (s = EmptyString)
  end.

(** [ApiClient.syncActivityData]: its completion and the requests it sent.
    Its [catch] logs and throws the error again. *)
Definition syncActivityData (tok : option string) (post : Remote)
    (evs : list ActivityEvent) (sess : list SessionData)
  : Completion SyncResult * list Request :=
  if tokenMissing tok
  then (Returned (mkResult false None (Some "Not authenticated"%string)), [])
  else match post evs sess with
       | Resolved body => (Returned body, [(evs, sess)])
       | Rejected err => (Thrown err, [(evs, sess)])
       end.

(** [DataManager.syncDataWithAPI] at the instant [now], against the remote
    [post]: its completion, the manager after the call, and the requests sent.
    The whole body is inside [try]; the [catch] turns an error into a result. *)
Definition syncDataWithAPI (now : Z) (post : Remote) (dm : DataManager)
  : Completion SyncResult * DataManager * list Request :=
  if negb (enableSync dm)
  then (Returned (mkResult false (Some "Sync not enabled"%string) None), dm, [])
  else
    let last := default 0 (lastSyncTime dm) in
    let eventsToSync := List.filter (λ e, last <? timestamp e) (events dm) in
    let sessionsToSync := List.filter (λ s, last <? startTime s) (sessions dm) in
    if (length eventsToSync =? 0)%nat && (length sessionsToSync =? 0)%nat
    then (Returned (mkResult true (Some "No new data to sync"%string) None), dm, [])
    else
      match syncActivityData (sessionToken dm) post eventsToSync sessionsToSync with
      | (Returned result, sent) =>
          (Returned result,
           if success result then setLastSyncTime now dm else dm,
           sent)
      | (Thrown err, sent) =>
          (Returned (mkResult false None (Some err)), dm, sent)
      end.

(** ** Event normalizer: the edit buffer ([ActivityTracker]) *)

Record EditBuffer : Set := mkBuffer { added : N; deleted : N; edits : N }.

(** A [TextDocumentContentChangeEvent]: the length of the replaced range and
    the text put in its place. *)
Record ContentChange : Set := mkChange { rangeLength : N; text : string }.

(** An open text document, as [getFileData] reads it. *)
Record TextDocument : Set := mkDocument {
  fsPath : string;
  docFileName : string;
  languageId : string
}.

Record ActivityTracker : Set := mkTracker {
  editBuffer : gmap string EditBuffer;
  lastEditTime : gmap string Z;
  isActive : bool;
  enableTracking : bool;
  trackerSessionId : string;
  textDocuments : list TextDocument
}.

Definition forget (path : string) (tr : ActivityTracker) : ActivityTracker :=
  mkTracker (delete path (editBuffer tr)) (delete path (lastEditTime tr))
            (isActive tr) (enableTracking tr) (trackerSessionId tr) (textDocuments tr).

Definition updateEditBuffer (path : string) (changes : list ContentChange)
    (tr : ActivityTracker) : ActivityTracker :=
  let buffer := default (mkBuffer 0 0 0) (editBuffer tr !! path) in
  let buffer :=
    fold_left (λ b change,
                 mkBuffer (added b + N.of_nat (String.length (text change)))
                          (deleted b + rangeLength change)
                          (edits b + 1))
              changes buffer in
  mkTracker (<[path := buffer]> (editBuffer tr)) (lastEditTime tr)
            (isActive tr) (enableTracking tr) (trackerSessionId tr) (textDocuments tr).

(** [trackEvent(type, data)] at the instant [now]: the event handed to
    [DataManager.addEvent], if any. *)
Definition trackEvent (now : Z) (ty : ActivityType) (d : ActivityData)
    (tr : ActivityTracker) : option ActivityEvent :=
  if negb (enableTracking tr) || negb (isActive tr) then None
  else Some (mkEvent "id" now ty d (trackerSessionId tr) None None).

(** [flushEditBuffer(filePath)]: the tracker after the call and the event
    emitted, if any. *)
Definition flushEditBuffer (now : Z) (path : string) (tr : ActivityTracker)
  : ActivityTracker * option ActivityEvent :=
  match editBuffer tr !! path with
  | None => (forget path tr, None)
  | Some buffer =>
      if (added buffer =? 0)%N && (deleted buffer =? 0)%N
      then (forget path tr, None)
      else
        match List.find (λ doc, bool_decide (fsPath doc = path)) (textDocuments tr) with
        | None => (forget path tr, None)
        | Some document =>
            let editData :=
              mkData (Some (docFileName document)) (Some (fsPath document))
                     (Some (languageId document)) None
                     (Some (added buffer)) (Some (deleted buffer))
                     (Some (if (0 <? added buffer)%N && (0 <? deleted buffer)%N
                            then replace_edit
                            else if (0 <? added buffer)%N then insert_edit
                                 else delete_edit)) in
            (forget path tr, trackEvent now FILE_EDIT editData tr)
        end
  end.

(** ** Session manager and retention ([DataManager]) *)

Definition setSessions (l : list SessionData) (dm : DataManager) : DataManager :=
  mkManager (events dm) l (currentSession dm) (lastSyncTime dm) (enableSync dm)
            (sessionToken dm).

(** [session.endTime = Date.now()]. *)
Definition closeSession (now : Z) (s : SessionData) : SessionData :=
  mkSession (sessId s) (startTime s) (Some now) (sessWorkspaceId s)
            (sessProjectName s) (totalEvents s) (sessActiveTime s).

(** [startNewSession()] at the instant [now]; [sid] is the generated id, [ws]
    and [proj] the workspace of the host. *)
Definition startNewSession (now : Z) (sid : string) (ws proj : option string)
    (dm : DataManager) : DataManager :=
  let archive :=
    match currentSession dm with
    | Some s => sessions dm ++ [closeSession now s]
    | None => sessions dm
    end in
  setCurrentSession (Some (mkSession sid now None ws proj 0 0)) (setSessions archive dm).

(** [endCurrentSession()]: the manager after the call and whether [saveData]
    was called. *)
Definition endCurrentSession (now : Z) (dm : DataManager) : DataManager * bool :=
  match currentSession dm with
  | Some s =>
      (setCurrentSession None (setSessions (sessions dm ++ [closeSession now s]) dm), true)
  | None => (dm, false)
  end.

(** [clearData()]; it always saves. *)
Definition clearData (now : Z) (sid : string) (ws proj : option string)
    (dm : DataManager) : DataManager :=
  startNewSession now sid ws proj
    (setCurrentSession None (setSessions [] (setEvents [] dm))).

(** [cleanOldData()] with the configured [dataRetentionDays]: the manager
    after the call and whether [saveData] was called. *)
Definition cleanOldData (now : Z) (retentionDays : Z) (dm : DataManager)
  : DataManager * bool :=
  let cutoffDate := now - retentionDays * 24 * 60 * 60 * 1000 in
  let initialEventsLength := length (events dm) in
  let initialSessionsLength := length (sessions dm) in
  let keptEvents := List.filter (λ e, cutoffDate <=? timestamp e) (events dm) in
  let keptSessions := List.filter (λ s, cutoffDate <=? startTime s) (sessions dm) in
  (setSessions keptSessions (setEvents keptEvents dm),
   negb (length keptEvents =? initialEventsLength)%nat
   || negb (length keptSessions =? initialSessionsLength)%nat).

(** What reading and parsing one of the two JSON documents gives: nothing
    usable (the file is missing, is not JSON, or holds [null]), or a document
    with or without its array field. *)
Inductive ReadOutcome (A : Type) : Type :=
  | Unreadable
  | Document (field : option (list A)).
Arguments Unreadable {A}.
Arguments Document {A} field.

(** [loadData()]: the first failure anywhere in its [try] resets both logs. *)
Definition loadData (now : Z) (retentionDays : Z)
    (eventsFile : ReadOutcome ActivityEvent) (sessionsFile : ReadOutcome SessionData)
    (dm : DataManager) : DataManager * bool :=
  match eventsFile with
  | Unreadable => (setSessions [] (setEvents [] dm), false)
  | Document eventsField =>
      match sessionsFile with
      | Unreadable => (setSessions [] (setEvents [] dm), false)
      | Document sessionsField =>
          cleanOldData now retentionDays
            (setSessions (default [] sessionsField) (setEvents (default [] eventsField) dm))
      end
  end.

(** The state-changing methods of the store, as one transition system. *)
Inductive StoreOp : Set :=
  | OpAddEvent (now : Z) (event : ActivityEvent)
  | OpStartNewSession (now : Z) (sid : string) (ws proj : option string)
  | OpEndCurrentSession (now : Z)
  | OpClearData (now : Z) (sid : string) (ws proj : option string)
  | OpCleanOldData (now : Z) (retentionDays : Z).

Definition runOp (dm : DataManager) (op : StoreOp) : DataManager :=
  match op with
  | OpAddEvent now event => (addEvent now event dm).1
  | OpStartNewSession now sid ws proj => startNewSession now sid ws proj dm
  | OpEndCurrentSession now => (endCurrentSession now dm).1
  | OpClearData now sid ws proj => clearData now sid ws proj dm
  | OpCleanOldData now retentionDays => (cleanOldData now retentionDays dm).1
  end.

Definition runOps (ops : list StoreOp) (dm : DataManager) : DataManager :=
  fold_left runOp ops dm.

(** ** The API client and its token ([ApiClient]) *)

(** An [ApiClient]: its field [sessionToken] and the [Authorization] header
    among the default headers of its HTTP client. *)
Record ApiClient : Set := mkClient {
  clientToken : option string;
  authorization : option string
}.

Definition bearer (token : string) : string := "Bearer " ++ token.

(** [new ApiClient(context)], where [stored] is the value that the global
    state of the extension holds under [sessionToken]. *)
Definition newApiClient (stored : option string) : ApiClient :=
  mkClient stored (if tokenMissing stored then None else bearer <$> stored).

(** [setSessionToken] and [clearSessionToken] act on the client they are
    called on and on the global state: the pair after the call. *)
Definition setSessionToken (token : string) (st : ApiClient * option string)
  : ApiClient * option string :=
  (mkClient (Some token) (Some (bearer token)), Some token).

Definition clearSessionToken (st : ApiClient * option string)
  : ApiClient * option string :=
  (mkClient None None, None).

(** [testConnection]; [get] tells whether the request [GET /auth/session]
    resolves. *)
Definition testConnection (client : ApiClient) (get : bool) : bool :=
  if tokenMissing (clientToken client) then false else get.

(** A series of calls on one client. *)
Inductive TokenOp : Set :=
  | OpSetToken (token : string)
  | OpClearToken.

Definition runTokenOp (st : ApiClient * option string) (op : TokenOp)
  : ApiClient * option string :=
  match op with
  | OpSetToken token => setSessionToken token st
  | OpClearToken => clearSessionToken st
  end.

Definition runTokenOps (ops : list TokenOp) (st : ApiClient * option string)
  : ApiClient * option string :=
  fold_left runTokenOp ops st.

(** ** Statistics engine: rankings, hourly histogram, [generateStats] *)

(** A JavaScript [Map] in insertion order, for any key with decidable
    equality. *)
Section AssocMap.
Context {K V : Type} `{EqDecision K}.

Fixpoint kGet (m : list (K * V)) (k : K) : option V :=
  match m with
  | [] => None
  | (k', v) :: m' => if decide (k' = k) then Some v else kGet m' k
  end.

Fixpoint kSet (m : list (K * V)) (k : K) (v : V) : list (K * V) :=
  match m with
  | [] => [(k, v)]
  | (k', v') :: m' => if decide (k' = k) then (k, v) :: m' else (k', v') :: kSet m' k v
  end.
End AssocMap.

(** The type guards of [DataManager]: which fields the payload has. *)
Definition isFileActivityData (d : ActivityData) : bool :=
  bool_decide (is_Some (fileName d)) || bool_decide (is_Some (filePath d))
  || bool_decide (is_Some (language d)).

Definition isCommandActivityData (d : ActivityData) : bool :=
  bool_decide (is_Some (commandId d)).

(** Truthiness of an optional string field: present and not empty. *)
Definition truthyString (o : option string) : bool :=
  match o with
  | Some s => negb (bool_decide (s = EmptyString))
  | None => false
  end.

Definition countEventsByType (events : list ActivityEvent) (ty : ActivityType) : Z :=
  Z.of_nat (length (List.filter (λ e, bool_decide (type e = ty)) events)).

(** The [forEach]/[get]/[set] bookkeeping of the three rankings: the value
    stored under the key of an element becomes [upd] of the old value. *)
Definition tallyStep {K V E : Type} `{EqDecision K} (key : E → option K)
    (upd : option V → E → V) (m : list (K * V)) (e : E) : list (K * V) :=
  match key e with
  | Some k => kSet m k (upd (kGet m k) e)
  | None => m
  end.

(** One entry of [mostEditedFiles]: [{file, edits, time}]. *)
Record FileRank : Set := mkFileRank { file : string; fileEdits : Z; fileTime : Z }.

(** The per-file value [{edits, time, lastEdit}]. *)
Definition fileUpdate (old : option (Z * Z * Z)) (e : ActivityEvent) : Z * Z * Z :=
  let '(fEdits, fTime, lastEdit) := default (0, 0, 0) old in
  (fEdits + 1,
   (if truthy lastEdit && (timestamp e - lastEdit <? 300000)
    then fTime + (timestamp e - lastEdit) else fTime),
   timestamp e).

Definition editedFileKey (e : ActivityEvent) : option string :=
  if isFileActivityData (data e) && truthyString (fileName (data e))
  then fileName (data e) else None.

Definition getMostEditedFiles (events : list ActivityEvent) : list FileRank :=
  let fileStats :=
    fold_left (tallyStep editedFileKey fileUpdate)
      (List.filter (λ e, bool_decide (type e = FILE_EDIT)
                         && isFileActivityData (data e)
                         && truthyString (fileName (data e))) events) [] in
  take 10
    (sortBy (λ r, - fileEdits r)
       (map (λ kv : string * (Z * Z * Z), mkFileRank kv.1 kv.2.1.1 kv.2.1.2) fileStats)).

(** One entry of [mostUsedLanguages]: [{language, time, files}]. *)
Record LanguageRank : Set :=
  mkLanguageRank { rankLanguage : string; languageTime : Z; languageFiles : Z }.

(** The per-language value [{time, files, lastSwitch}]. *)
Definition languageUpdate (old : option (Z * gset string * Z)) (e : ActivityEvent)
  : Z * gset string * Z :=
  let '(lTime, files, lastSwitch) := default (0, ∅, 0) old in
  ((if truthy lastSwitch && (timestamp e - lastSwitch <? 300000)
    then lTime + (timestamp e - lastSwitch) else lTime),
   (if truthyString (fileName (data e))
    then match fileName (data e) with Some f => {[f]} ∪ files | None => files end
    else files),
   timestamp e).

Definition switchedLanguageKey (e : ActivityEvent) : option string :=
  if isFileActivityData (data e) && truthyString (language (data e))
  then language (data e) else None.

Definition getMostUsedLanguages (events : list ActivityEvent) : list LanguageRank :=
  let languageStats :=
    fold_left (tallyStep switchedLanguageKey languageUpdate)
      (List.filter (λ e, bool_decide (type e = FILE_SWITCH)
                         && isFileActivityData (data e)
                         && truthyString (language (data e))) events) [] in
  take 5
    (sortBy (λ r, - languageTime r)
       (map (λ kv : string * (Z * gset string * Z),
               mkLanguageRank kv.1 kv.2.1.1 (Z.of_nat (size kv.2.1.2))) languageStats)).

(** One entry of [mostUsedCommands]: [{command, count}]. *)
Record CommandRank : Set := mkCommandRank { command : string; commandCount : Z }.

Definition commandUpdate (old : option Z) (e : ActivityEvent) : Z := default 0 old + 1.

Definition executedCommandKey (e : ActivityEvent) : option string :=
  if isCommandActivityData (data e) then commandId (data e) else None.

Definition getMostUsedCommands (events : list ActivityEvent) : list CommandRank :=
  let commandCounts :=
    fold_left (tallyStep executedCommandKey commandUpdate)
      (List.filter (λ e, bool_decide (type e = COMMAND_EXECUTE)
                         && isCommandActivityData (data e)) events) [] in
  take 10
    (sortBy (λ r, - commandCount r)
       (map (λ kv : string * Z, mkCommandRank kv.1 kv.2) commandCounts)).

Definition msPerHour : Z := 60 * 60 * 1000.

(** [new Date(t).getHours()], for a host whose local time is [tz] milliseconds
    ahead of UTC. *)
Definition getHours (tz : Z) (t : Z) : Z := ((t + tz) / msPerHour) mod 24.

(** One entry of [hourlyActivity]: [{hour, events, activeTime}]. *)
Record HourlyEntry : Set := mkHourly { hour : Z; hourEvents : Z; hourActiveTime : Z }.

(** The [Map] of [getHourlyActivity] after its two loops.  Every hour is a key
    of the seeded map, so [get(hour)] is never [undefined]. *)
Definition groupByHour (tz : Z) (events : list ActivityEvent)
  : list (Z * list ActivityEvent) :=
  let hourlyActivity := fold_left (λ m i, kSet m (Z.of_nat i) []) (seq 0 24) [] in
  fold_left (λ m event,
               let h := getHours tz (timestamp event) in
               kSet m h (default [] (kGet m h) ++ [event]))
            events hourlyActivity.

Definition getHourlyActivity (tz : Z) (events : list ActivityEvent) : list HourlyEntry :=
  map (λ kv : Z * list ActivityEvent,
         mkHourly kv.1 (Z.of_nat (length kv.2)) (calculateActiveTime kv.2))
      (groupByHour tz events).

Record ActivityStats : Type := mkStats {
  statsTotalEvents : Z;
  filesSwitched : Z;
  filesEdited : Z;
  filesCreated : Z;
  commandsExecuted : Z;
  statsActiveTime : Z;
  codingTime : Z;
  debugTime : Z;
  mostEditedFiles : list FileRank;
  mostUsedLanguages : list LanguageRank;
  mostUsedCommands : list CommandRank;
  dailyActivity : list DailyEntry;
  hourlyActivity : list HourlyEntry;
  productivityScore : Z;
  streakData : StreakData
}.

(** The slice of the log that [generateStats(days)] works on. *)
Definition recentEvents (now : Z) (days : Z) (dm : DataManager) : list ActivityEvent :=
  let cutoffDate := now - days * 24 * 60 * 60 * 1000 in
  List.filter (λ e, cutoffDate <=? timestamp e) (events dm).

(** [generateStats(days)] at the instant [now].  The fields of the result are
    computed in the order of the source; [calculateActiveTime] sorts the array
    [recentEvents] in place, so that every field after [activeTime] is computed
    from the sorted array. *)
Definition generateStats (rnd : Q → Q) (tz : Z) (now : Z) (days : Z) (dm : DataManager)
  : ActivityStats :=
  let recent := recentEvents now days dm in
  let sorted := sortByTimestamp recent in
  mkStats (Z.of_nat (length recent))
          (countEventsByType recent FILE_SWITCH)
          (countEventsByType recent FILE_EDIT)
          (countEventsByType recent FILE_CREATE)
          (countEventsByType recent COMMAND_EXECUTE)
          (calculateActiveTime recent)
          (calculateCodingTime sorted)
          (calculateDebugTime sorted)
          (getMostEditedFiles sorted)
          (getMostUsedLanguages sorted)
          (getMostUsedCommands sorted)
          (getDailyActivity now sorted days)
          (getHourlyActivity tz sorted)
          (calculateProductivityScore rnd sorted)
          (calculateStreakData now days dm).

(** ** Event normalizer: edit coalescing ([ActivityTracker.onFileEdit]) *)

(** The tracker with its per-file flush timers: the deadline of the pending
    [setTimeout] of each file. *)
Record EditorState : Set := mkEditor {
  tracker : ActivityTracker;
  editTimers : gmap string Z
}.

Definition setLastEditTime (path : string) (now : Z) (tr : ActivityTracker)
  : ActivityTracker :=
  mkTracker (editBuffer tr) (<[path := now]> (lastEditTime tr))
            (isActive tr) (enableTracking tr) (trackerSessionId tr) (textDocuments tr).

(** [onFileEdit(event)] at the instant [now], for a document with the URI
    scheme [scheme] and the path [path]: the state after the call and the
    event emitted, if any. *)
Definition onFileEdit (now : Z) (scheme : string) (path : string)
    (changes : list ContentChange) (st : EditorState)
  : EditorState * option ActivityEvent :=
  if negb (bool_decide (scheme = "file"%string)) then (st, None)
  else
    let lastEdit := default 0 (lastEditTime (tracker st) !! path) in
    if now - lastEdit <? 1000
    then (mkEditor (updateEditBuffer path changes (tracker st)) (editTimers st), None)
    else
      let flushed := flushEditBuffer now path (tracker st) in
      (mkEditor (updateEditBuffer path changes (setLastEditTime path now flushed.1))
                (<[path := now + 1000]> (editTimers st)),
       flushed.2).

(** The callback of the timer of [path], run at the instant [now]. *)
Definition editTimerFired (now : Z) (path : string) (st : EditorState)
  : EditorState * option ActivityEvent :=
  let flushed := flushEditBuffer now path (tracker st) in
  (mkEditor flushed.1 (delete path (editTimers st)), flushed.2).

(** ** Reference definitions

    What the specification says in its own words, to be compared with the
    functions above. *)

Definition sumZ (l : list Z) : Z := fold_right Z.add 0 l.

(** Consecutive elements of a sequence. *)
Fixpoint adjacentPairs (l : list Z) : list (Z * Z) :=
  match l with
  | a :: (b :: _) as l' => (a, b) :: adjacentPairs l'
  | _ => []
  end.

Definition isActiveType (e : ActivityEvent) : bool :=
  includes activeEventTypes (type e).

Definition isCodingType (e : ActivityEvent) : bool :=
  includes codingEventTypes (type e).

(** The time stamps of the qualifying events, in time-stamp order. *)
Definition activeStamps (events : list ActivityEvent) : list Z :=
  map timestamp (List.filter isActiveType (sortByTimestamp events)).

(** What the gap from a qualifying event at [p.1] to the next one at [p.2]
    adds: the gap itself when it is below the idle threshold and the earlier
    time stamp is not the number 0, and nothing otherwise. *)
Definition countedGap (p : Z * Z) : Z :=
  if decide (p.1 ≠ 0 ∧ p.2 - p.1 < maxIdleTime) then p.2 - p.1 else 0.

(** The gap rule without the side condition on the earlier time stamp. *)
Definition thresholdGap (p : Z * Z) : Z :=
  if decide (p.2 - p.1 < maxIdleTime) then p.2 - p.1 else 0.



(** A day with at least one event. *)
Definition dayFlag (day : DailyEntry) : bool := 0 <? eventCount day.

(** The days of the histogram, most recent day first. *)
Definition activeDaysBackward (dailyActivity : list DailyEntry) : list bool :=
  rev (map dayFlag dailyActivity).

(** The first [n] days of the histogram, most recent first: the days that
    the iterations [i = n - 1, ..., 0] of the streak loop visit. *)
Definition visited (dailyActivity : list DailyEntry) (n : nat) : list bool :=
  rev (map dayFlag (take n dailyActivity)).

(** Length of the run of active days at the head of a sequence. *)
Fixpoint leadingRun (l : list bool) : Z :=
  match l with
  | true :: l' => 1 + leadingRun l'
  | _ => 0
  end.

(** Length of the longest run of active days anywhere in a sequence. *)
Fixpoint longestRun (l : list bool) : Z :=
  match l with
  | [] => 0
  | _ :: l' => Z.max (leadingRun l) (longestRun l')
  end.

(** The inclusive, optional bounds of a query. *)
Definition inBounds (startDate endDate : option Z) (e : ActivityEvent) : Prop :=
  match startDate with Some s => s ≤ timestamp e | None => True end ∧
  match endDate with Some t => timestamp e ≤ t | None => True end.

#[global] Instance inBounds_dec startDate endDate e :
  Decision (inBounds startDate endDate e).
Proof. unfold inBounds. destruct startDate, endDate; apply _. Defined.

(** The sync watermark: [globalState.get('lastSyncTime', 0)]. *)
Definition watermark (dm : DataManager) : Z := default 0 (lastSyncTime dm).

(** The events and sessions that the watermark has not covered yet. *)
Definition unsyncedEvents (dm : DataManager) : list ActivityEvent :=
  filter (λ e, watermark dm < timestamp e) (events dm).

Definition unsyncedSessions (dm : DataManager) : list SessionData :=
  filter (λ s, watermark dm < startTime s) (sessions dm).

Definition noNewData : SyncResult :=
  mkResult true (Some "No new data to sync"%string) None.

(** The exact weighted sum of an event slice. *)
Definition weightedSum (events : list ActivityEvent) : Z :=
  sumZ (map (λ e, weights (type e)) events).

(** ** Inputs of the examples *)

(** 2024-10-04T01:00:00Z. *)
Definition streakNow : Z := 20000 * msPerDay + 3600000.

(** One event on each of the three most recent days, none before. *)
Definition threeDayLog : list ActivityEvent :=
  [ev (streakNow - 2 * msPerDay) FILE_EDIT;
   ev (streakNow - msPerDay) FILE_SAVE;
   ev streakNow FILE_EDIT].

Definition threeDayManager : DataManager :=
  mkManager threeDayLog [] None None false None.

(** A log filled to its maximum. *)
Definition fullManager : DataManager :=
  mkManager (repeat (ev 1000 FILE_EDIT) (Z.to_nat maxEvents)) [] None None false None.

(** Three active events: a one-minute gap, then a gap above the threshold. *)
Definition burstLog : list ActivityEvent :=
  [ev 1000 FILE_EDIT; ev (1000 + 60000) FILE_SWITCH; ev (1000 + 400000) COMMAND_EXECUTE].

(** Two debug sessions, the second one stopped twice. *)
Definition debugLog : list ActivityEvent :=
  [ev 1000 DEBUG_START; ev 2000 DEBUG_STOP; ev 3000 DEBUG_START; ev 3500 FILE_EDIT;
   ev 5000 DEBUG_STOP; ev 6000 DEBUG_STOP].

(** A manager with sync switched off, as by default. *)
Definition syncDisabledManager : DataManager :=
  mkManager [] [] None None false None.

(** A manager with one event newer than its watermark, and a token. *)
Definition pendingManager : DataManager :=
  mkManager [ev 5000 FILE_EDIT] [] None (Some 1000) true (Some "token"%string).

Definition remoteDown : Remote := λ _ _, Rejected "timeout"%string.

Definition remoteUp : Remote := λ _ _, Resolved (mkResult true None None).

(** [pendingManager] without a session token. *)
Definition anonymousManager : DataManager :=
  mkManager [ev 5000 FILE_EDIT] [] None (Some 1000) true None.

Definition remoteRefuses : Remote :=
  λ _ _, Resolved (mkResult false None (Some "quota"%string)).

Definition mainDocument : TextDocument :=
  mkDocument "/w/main.ts" "main.ts" "typescript".

(** A tracker with one open document and no buffered edit. *)
Definition idleTracker : ActivityTracker :=
  mkTracker ∅ ∅ true true "session_1" [mainDocument].

(** The same after one notification that replaces 3 characters by 5. *)
Definition editingTracker : ActivityTracker :=
  updateEditBuffer "/w/main.ts" [mkChange 3 "hello"] idleTracker.

(** The same after a notification that only inserts 5 characters, and after
    one that only deletes 3. *)
Definition insertingTracker : ActivityTracker :=
  updateEditBuffer "/w/main.ts" [mkChange 0 "hello"] idleTracker.

Definition deletingTracker : ActivityTracker :=
  updateEditBuffer "/w/main.ts" [mkChange 3 EmptyString] idleTracker.

(** The idle tracker after a notification without changes. *)
Definition touchedTracker : ActivityTracker :=
  updateEditBuffer "/w/main.ts" [] idleTracker.

(** ** Further reference definitions and inputs *)

(** A series of [addEvent] calls, each with its instant. *)
Definition addEvents (batch : list (Z * ActivityEvent)) (dm : DataManager) : DataManager :=
  fold_left (λ d call, (addEvent call.1 call.2 d).1) batch dm.

(** Every archived session is closed, and the log is within its bound. *)
Definition storeInvariant (dm : DataManager) : Prop :=
  Forall (λ s, is_Some (endTime s)) (sessions dm) ∧
  Z.of_nat (length (events dm)) ≤ maxEvents.

Definition retentionCutoff (now retentionDays : Z) : Z :=
  now - retentionDays * 24 * 60 * 60 * 1000.

(** A manager with an open session that has seen two events. *)
Definition workingManager : DataManager :=
  mkManager [ev 1000 FILE_EDIT; ev 2000 FILE_SAVE] []
            (Some (mkSession "session_a" 500 (Some 2000) None None 2 0))
            None true (Some "token"%string).

(** A manager with an archived session and events of three ages. *)
Definition agedManager : DataManager :=
  mkManager [ev 1000 FILE_EDIT; ev (40 * msPerDay) FILE_SAVE; ev (50 * msPerDay) FILE_EDIT]
            [mkSession "session_old" 900 (Some 5000) None None 1 0;
             mkSession "session_new" (45 * msPerDay) (Some (46 * msPerDay)) None None 2 0]
            None None true (Some "token"%string).

(** The order of a ranking: the higher score first. *)
Definition rankedBefore {R : Type} (score : R → Z) (a b : R) : Prop := score b ≤ score a.

(** The time stamps of a list, in increasing order. *)
Definition sortedStamps (l : list Z) : list Z := sortBy (λ z : Z, z) l.

(** The same events as [burstLog], as they may arrive after a restart. *)
Definition shuffledBurstLog : list ActivityEvent :=
  [ev (1000 + 400000) COMMAND_EXECUTE; ev 1000 FILE_EDIT; ev (1000 + 60000) FILE_SWITCH].

(** How often a command was executed in a slice. *)
Definition commandUses (events : list ActivityEvent) (c : string) : Z :=
  Z.of_nat (length (filter (λ e, type e = COMMAND_EXECUTE ∧ commandId (data e) = Some c)
                           events)).

(** The edits of a file and the switches to a language in a slice. *)
Definition editsOfFile (events : list ActivityEvent) (f : string) : list ActivityEvent :=
  filter (λ e, type e = FILE_EDIT ∧ fileName (data e) = Some f) events.

Definition switchesToLanguage (events : list ActivityEvent) (lang : string)
  : list ActivityEvent :=
  filter (λ e, type e = FILE_SWITCH ∧ language (data e) = Some lang) events.

(** The non-empty file names of a list of events. *)
Definition namedFiles (events : list ActivityEvent) : gset string :=
  list_to_set (omap (λ e, if truthyString (fileName (data e)) then fileName (data e) else None)
                    events).

Definition command_event (t : Z) (c : string) : ActivityEvent :=
  mkEvent "e" t COMMAND_EXECUTE (mkData None None None (Some c) None None None) "s" None None.

Definition edit_event (t : Z) (f : string) : ActivityEvent :=
  mkEvent "e" t FILE_EDIT (mkData (Some f) None None None None None None) "s" None None.

Definition switch_event (t : Z) (f lang : string) : ActivityEvent :=
  mkEvent "e" t FILE_SWITCH (mkData (Some f) None (Some lang) None None None None) "s" None None.

(** A morning of work on two files. *)
Definition morningLog : list ActivityEvent :=
  [switch_event 1000 "a.ts" "typescript"; edit_event 2000 "a.ts";
   command_event 2500 "git.commit"; edit_event 3000 "a.ts";
   switch_event 4000 "b.ts" "typescript"; edit_event 5000 "b.ts";
   command_event 6000 "git.commit"; command_event 7000 "editor.action.format"].

(** The hours of a day, and the events of a slice at a local hour. *)
Definition dayHours : list Z := map Z.of_nat (seq 0 24).

Definition eventsAtHour (tz : Z) (events : list ActivityEvent) (h : Z)
  : list ActivityEvent :=
  filter (λ e, getHours tz (timestamp e) = h) events.

(** The body of the loop of [getDailyActivity] that copies the groups of the
    days of the window into the seeded map. *)
Definition fillBucket (d : list (Z * (Z * Z))) (g : Z * list ActivityEvent)
  : list (Z * (Z * Z)) :=
  let '(k, dayEvents) := g in
  if mapHas d k
  then mapSet d k (Z.of_nat (length dayEvents), calculateActiveTime dayEvents)
  else d.

(** The days of the window of [days] days that ends today, oldest first, and
    the events of a slice on a day. *)
Definition windowDays (now : Z) (days : Z) : list Z :=
  rev (map (λ i, dateKey now - Z.of_nat i) (seq 0 (Z.to_nat days))).

Definition eventsOnDay (events : list ActivityEvent) (d : Z) : list ActivityEvent :=
  filter (λ e, dateKey (timestamp e) = d) events.

(** The days of a window, today first, and whether the log has an event on a
    day. *)
Definition daysBackward (now : Z) (days : Z) : list Z :=
  map (λ i, dateKey now - Z.of_nat i) (seq 0 (Z.to_nat days)).

Definition hasEventsOn (events : list ActivityEvent) (d : Z) : bool :=
  bool_decide (Exists (λ e, dateKey (timestamp e) = d) events).

(** A series of [onFileEdit] notifications for the file [path], each with its
    instant and its changes: the state after them and the events emitted. *)
Definition editCalls (path : string) (calls : list (Z * list ContentChange))
    (st : EditorState) : EditorState * list ActivityEvent :=
  fold_left (λ acc call,
               let r := onFileEdit call.1 "file" path call.2 acc.1 in
               (r.1, acc.2 ++ from_option (λ e, [e]) [] r.2))
            calls (st, []).

(** The characters that a list of changes adds and deletes. *)
Definition addedBy (changes : list ContentChange) : N :=
  foldr N.add 0%N (map (λ c, N.of_nat (String.length (text c))) changes).

Definition deletedBy (changes : list ContentChange) : N :=
  foldr N.add 0%N (map rangeLength changes).

(** An editor with one open document and nothing pending. *)
Definition idleEditor : EditorState := mkEditor idleTracker ∅.

(** ** Daily histogram and streak on the calendar of any host *)

(** The host's calendar: [back i] is the instant of
    [const date = new Date(); date.setDate(date.getDate() - i)], that is the
    clock reading moved [i] calendar days back in the local time of the
    host, at the same local time of day.  On a host whose local time keeps a
    fixed offset to UTC this is [daysAgo now i]; across a change of the
    offset (daylight saving) a step is an hour longer or shorter, and two
    steps can land on the same UTC day. *)
Definition seedDaysOn (back : nat → Z) (days : Z) : list (Z * (Z * Z)) :=
  fold_left (λ m i, mapSet m (dateKey (back i)) (0, 0))
            (seq 0 (Z.to_nat days)) [].

Definition getDailyActivityOn (back : nat → Z) (events : list ActivityEvent) (days : Z)
  : list DailyEntry :=
  let dailyActivity :=
    fold_left (λ d (g : Z * list ActivityEvent),
                 let '(k, dayEvents) := g in
                 if mapHas d k
                 then mapSet d k (Z.of_nat (length dayEvents), calculateActiveTime dayEvents)
                 else d)
              (groupByDay events) (seedDaysOn back days) in
  sortBy date (map (λ kv : Z * (Z * Z), mkDaily kv.1 kv.2.1 kv.2.2) dailyActivity).

Definition calculateStreakDataOn (back : nat → Z) (days : Z) (dm : DataManager)
  : StreakData :=
  streakOfDaily (getDailyActivityOn back (events dm) days).

(** The calendar of a host with one change of its UTC offset, from
    [offsetBefore] to [offsetAfter] at the instant [change]: the local time
    of day is kept, and read with the offset after the change when that
    gives an instant at or after the change. *)
Definition localDaysAgo (change offsetBefore offsetAfter : Z) (now : Z) (i : nat) : Z :=
  let offsetNow := if change <=? now then offsetAfter else offsetBefore in
  let wall := now + offsetNow - Z.of_nat i * msPerDay in
  if change <=? wall - offsetAfter then wall - offsetAfter else wall - offsetBefore.

(** New York on 2026-03-09 at 23:30 UTC, a day after the clocks went forward
    (2026-03-08 at 07:00 UTC, from UTC-5 to UTC-4). *)
Definition dstChange : Z := 20520 * msPerDay + 7 * msPerHour.

Definition dstNow : Z := 20521 * msPerDay + 23 * msPerHour + 30 * 60 * 1000.

Definition newYork : nat → Z :=
  localDaysAgo dstChange (- 5 * msPerHour) (- 4 * msPerHour) dstNow.

(** Every step back of the host lands on the UTC day before: what a host at
    a fixed offset to UTC does. *)
Definition stepsOneUtcDay (now : Z) (back : nat → Z) (days : Z) : Prop :=
  ∀ i, (i < Z.to_nat days)%nat → dateKey (back i) = dateKey now - Z.of_nat i.

(** The bucket of a day: the number of events of the slice on that day and
    their active time. *)
Definition dayBucket (events : list ActivityEvent) (d : Z) : DailyEntry :=
  mkDaily d (Z.of_nat (length (eventsOnDay events d)))
          (calculateActiveTime (eventsOnDay events d)).

(** A log with one event on each of the three UTC days up to [dstNow]. *)
Definition dstManager : DataManager :=
  mkManager [ev (20519 * msPerDay + 1000) FILE_EDIT; ev (20520 * msPerDay + 1000) FILE_EDIT;
             ev (20521 * msPerDay + 1000) FILE_EDIT]
            [] None None true None.

(** * Properties *)

(** ** The stable sort *)

Section StableSortFacts.
Context {A : Type} (key : A → Z).

Lemma insertBy_perm x l : insertBy key x l ≡ₚ x :: l.
Proof.
  induction l as [|y l IH]; simpl; [done|].
  destruct (key x <=? key y); [done|].
  rewrite IH. apply Permutation_swap.
Qed.

Lemma sortBy_perm l : sortBy key l ≡ₚ l.
Proof.
  induction l as [|x l IH]; simpl; [done|].
  by rewrite insertBy_perm, IH.
Qed.

Lemma sortBy_Forall (P : A → Prop) l : Forall P l → Forall P (sortBy key l).
Proof. intros H. by rewrite sortBy_perm. Qed.

Lemma insertBy_sorted x l :
  StronglySorted (keyLe key) l → StronglySorted (keyLe key) (insertBy key x l).
Proof.
  induction 1 as [|y l Hs IH Hy]; simpl.
  - repeat constructor.
  - destruct (Z.leb_spec (key x) (key y)) as [Hxy|Hxy].
    + constructor; [by constructor|].
      constructor; [done|].
      eapply Forall_impl; [exact Hy|]. unfold keyLe. intros; lia.
    + constructor; [done|].
      rewrite insertBy_perm. constructor; [unfold keyLe; lia | done].
Qed.

Lemma sortBy_sorted l : StronglySorted (keyLe key) (sortBy key l).
Proof.
  induction l; simpl; [constructor | by apply insertBy_sorted].
Qed.

(** In front of a list of no smaller keys, insertion is [cons]. *)
Lemma insertBy_least x l : Forall (keyLe key x) l → insertBy key x l = x :: l.
Proof.
  destruct 1 as [|y l Hy _]; simpl; [done|].
  unfold keyLe in Hy. by destruct (Z.leb_spec (key x) (key y)); [|lia].
Qed.

(** Sorting leaves a sorted list as it is. *)
Lemma sortBy_id l : StronglySorted (keyLe key) l → sortBy key l = l.
Proof.
  induction 1 as [|x l Hs IH Hx]; simpl; [done|].
  rewrite IH. by apply insertBy_least.
Qed.

Lemma insertBy_filter (p : A → bool) x l :
  StronglySorted (keyLe key) l →
  List.filter p (insertBy key x l) =
    if p x then insertBy key x (List.filter p l) else List.filter p l.
Proof.
  induction 1 as [|y l Hs IH Hy]; simpl.
  - by destruct (p x).
  - destruct (Z.leb_spec (key x) (key y)) as [Hxy|Hxy]; simpl.
    + destruct (p x) eqn:Hpx; [|done].
      destruct (p y); simpl.
      * by destruct (Z.leb_spec (key x) (key y)); [|lia].
      * symmetry. apply insertBy_least.
        apply Forall_forall. intros z Hz.
        apply list_elem_of_In, filter_In in Hz as [Hz _].
        apply list_elem_of_In in Hz.
        rewrite Forall_forall in Hy. specialize (Hy z Hz).
        unfold keyLe in *. lia.
    + rewrite IH. destruct (p y), (p x); simpl; try done.
      by destruct (Z.leb_spec (key x) (key y)); [lia|].
Qed.

(** Selecting before or after the sort gives the same array. *)
Lemma sortBy_filter (p : A → bool) l :
  sortBy key (List.filter p l) = List.filter p (sortBy key l).
Proof.
  induction l as [|x l IH]; simpl; [done|].
  rewrite insertBy_filter by apply sortBy_sorted.
  destruct (p x); simpl; by rewrite IH.
Qed.
End StableSortFacts.

(** ** Active time *)

Lemma countedGap_step last t :
  (if truthy last && (t - last <? maxIdleTime) then t - last else 0) = countedGap (last, t).
Proof.
  unfold countedGap, truthy; simpl.
  destruct (Z.eqb_spec last 0), (Z.ltb_spec (t - last) maxIdleTime);
    simpl; case_decide; lia.
Qed.

Lemma sumZ_cons x l : sumZ (x :: l) = x + sumZ l.
Proof. reflexivity. Qed.

Lemma adjacentPairs_cons a b l :
  adjacentPairs (a :: b :: l) = (a, b) :: adjacentPairs (b :: l).
Proof. reflexivity. Qed.

Lemma activeLoop_gaps l acc last :
  (fold_left activeStep l (acc, last)).1 =
    acc + sumZ (map countedGap
                  (adjacentPairs (last :: map timestamp (List.filter isActiveType l)))).
Proof.
  revert acc last. induction l as [|e l IH]; intros acc last.
  - simpl. lia.
  - simpl fold_left. simpl List.filter.
    unfold isActiveType at 1.
    destruct (includes activeEventTypes (type e)) eqn:He.
    + rewrite IH, map_cons, (adjacentPairs_cons last), map_cons.
      rewrite sumZ_cons, <- countedGap_step.
      destruct (truthy last && (timestamp e - last <? maxIdleTime)); lia.
    + apply IH.
Qed.

Lemma adjacentPairs_zero_head l :
  sumZ (map countedGap (adjacentPairs (0 :: l))) = sumZ (map countedGap (adjacentPairs l)).
Proof. destruct l as [|x l]; [done|]. cbn. by destruct l. Qed.

Lemma calculateActiveTime_gaps events :
  calculateActiveTime events = sumZ (map countedGap (adjacentPairs (activeStamps events))).
Proof.
  unfold calculateActiveTime, activeStamps.
  rewrite activeLoop_gaps, adjacentPairs_zero_head. lia.
Qed.

Lemma countedGap_nonneg p q : p ≤ q → 0 ≤ countedGap (p, q).
Proof. unfold countedGap; simpl. case_decide; lia. Qed.

Lemma countedGap_below p q :
  p ≠ 0 → q - p < maxIdleTime → countedGap (p, q) = q - p.
Proof. unfold countedGap; simpl. intros. case_decide; [done | tauto]. Qed.

Lemma countedGap_idle p q : maxIdleTime ≤ q - p → countedGap (p, q) = 0.
Proof. unfold countedGap; simpl. intros. case_decide; [lia | done]. Qed.

Lemma countedGap_no_anchor q : countedGap (0, q) = 0.
Proof. unfold countedGap; cbn [fst snd]. by rewrite decide_False by tauto. Qed.

(** A gap that is split by an event in between counts for no more than its
    two parts. *)
Lemma countedGap_split p x q :
  p ≤ x → x ≤ q → 0 < x →
  countedGap (p, q) ≤ countedGap (p, x) + countedGap (x, q).
Proof.
  unfold countedGap; simpl. intros Hpx Hxq Hx.
  destruct (decide (p ≠ 0 ∧ q - p < maxIdleTime)) as [[H1 H2]|H1]; [|repeat case_decide; lia].
  rewrite !decide_True by lia. lia.
Qed.

Lemma thresholdGap_countedGap l :
  Forall (λ t, t ≠ 0) l →
  map thresholdGap (adjacentPairs l) = map countedGap (adjacentPairs l).
Proof.
  induction 1 as [|a l Ha Hl IH]; [done|].
  destruct l as [|b l]; [done|].
  rewrite adjacentPairs_cons, !map_cons, IH. f_equal.
  unfold thresholdGap, countedGap; simpl. repeat case_decide; tauto || lia.
Qed.

Lemma activeTypes_includes a : a ∈ activeEventTypes → includes activeEventTypes a = true.
Proof. intros. by apply bool_decide_eq_true. Qed.

(** C2 (amended).  Active events at [t], [t + 60_000] and [t + 400_000], for a
    first time stamp [t] other than the number 0, give an active time of
    60_000 ms.  For every event list, the active time is the sum, over the
    consecutive qualifying events in time-stamp order, of the gaps that are
    strictly below the 5-minute threshold and whose earlier event does not
    carry the time stamp 0; a gap at or above the threshold, or behind a time
    stamp 0, adds nothing.  When no qualifying event carries the time stamp 0
    this is the plain threshold rule. *)
Theorem C2_active_time_gap_rule :
  (∀ t a b c,
     t ≠ 0 → a ∈ activeEventTypes → b ∈ activeEventTypes → c ∈ activeEventTypes →
     calculateActiveTime [ev t a; ev (t + 60000) b; ev (t + 400000) c] = 60000) ∧
  (∀ events,
     calculateActiveTime events =
       sumZ (map countedGap (adjacentPairs (activeStamps events)))) ∧
  (∀ p q, p ≠ 0 → q - p < maxIdleTime → countedGap (p, q) = q - p) ∧
  (∀ p q, maxIdleTime ≤ q - p → countedGap (p, q) = 0) ∧
  (∀ q, countedGap (0, q) = 0) ∧
  (∀ events,
     Forall (λ t, t ≠ 0) (activeStamps events) →
     calculateActiveTime events =
       sumZ (map thresholdGap (adjacentPairs (activeStamps events)))).
Proof.
  split; [|split; [|split; [|split; [|split]]]].
  - intros t a b c Ht Ha Hb Hc.
    rewrite calculateActiveTime_gaps. unfold activeStamps, sortByTimestamp.
    rewrite sortBy_id.
    + simpl List.filter. unfold isActiveType. simpl type.
      rewrite !activeTypes_includes by done. simpl.
      unfold countedGap, maxIdleTime; simpl. repeat case_decide; lia.
    + repeat constructor; unfold keyLe; simpl; lia.
  - apply calculateActiveTime_gaps.
  - apply countedGap_below.
  - apply countedGap_idle.
  - apply countedGap_no_anchor.
  - intros events H. rewrite thresholdGap_countedGap by done.
    apply calculateActiveTime_gaps.
Qed.

Lemma C2_active_time_gap_rule_witness :
  calculateActiveTime burstLog = 60000 ∧
  countedGap (1000, 61000) = 61000 - 1000 ∧
  countedGap (61000, 401000) = 0 ∧
  calculateActiveTime burstLog = sumZ (map thresholdGap (adjacentPairs (activeStamps burstLog))).
Proof.
  destruct C2_active_time_gap_rule as (Hex & _ & Hbelow & Hidle & _ & Hplain).
  split; [|split; [|split]].
  - apply (Hex 1000 FILE_EDIT FILE_SWITCH COMMAND_EXECUTE).
    + lia.
    + apply (bool_decide_unpack _). vm_compute. exact I.
    + apply (bool_decide_unpack _). vm_compute. exact I.
    + apply (bool_decide_unpack _). vm_compute. exact I.
  - apply Hbelow; [lia | vm_compute; reflexivity].
  - apply Hidle. vm_compute. discriminate.
  - apply Hplain. vm_compute. repeat constructor; discriminate.
Defined.

(** With the first event at the time stamp 0 of the specification's example,
    the gap behind it is not counted: the active time is 0, not 60_000. *)
Lemma C2_counterexample :
  calculateActiveTime [ev 0 FILE_EDIT; ev 60000 FILE_EDIT; ev 400000 FILE_EDIT] = 0 ∧
  calculateActiveTime [ev 0 FILE_EDIT; ev 60000 FILE_EDIT; ev 400000 FILE_EDIT] ≠ 60000.
Proof. split; [reflexivity | discriminate]. Qed.

(** ** Coding time against active time *)

Lemma loop_cons {S E : Type} (step : S → E → S) e l st :
  fold_left step (e :: l) st = fold_left step l (step st e).
Proof. reflexivity. Qed.

Lemma activeStep_countedGap a p e :
  activeStep (a, p) e =
    if isActiveType e then (a + countedGap (p, timestamp e), timestamp e) else (a, p).
Proof.
  unfold activeStep, isActiveType.
  destruct (includes activeEventTypes (type e)); [|done].
  rewrite <- countedGap_step.
  by destruct (truthy p && (timestamp e - p <? maxIdleTime)); rewrite ?Z.add_0_r.
Qed.

Lemma coding_le_active_loop (sel : ActivityEvent → bool) l :
  StronglySorted (keyLe timestamp) l →
  Forall (λ e, 0 < timestamp e) l →
  ∀ a p b q,
    Forall (λ e, q ≤ timestamp e) l →
    a ≤ b →
    (∀ y, q ≤ y → 0 < y → a + countedGap (p, y) ≤ b + countedGap (q, y)) →
    (fold_left activeStep (List.filter sel l) (a, p)).1 ≤ (fold_left activeStep l (b, q)).1.
Proof.
  induction 1 as [|e l Hs IH He]; intros Hpos a p b q Hq Hab Hinv; [done|].
  apply Forall_cons in Hpos as [Hx Hpos].
  apply Forall_cons in Hq as [Hqx Hq].
  specialize (IH Hpos).
  assert (He' : Forall (λ e', timestamp e ≤ timestamp e') l) by done.
  pose proof (Hinv _ Hqx Hx) as Hstep.
  pose proof (countedGap_nonneg _ _ Hqx) as Hnn.
  simpl List.filter. rewrite (loop_cons _ e l).
  destruct (sel e); rewrite ?loop_cons, !activeStep_countedGap;
    destruct (isActiveType e).
  - apply IH; [done | lia | intros; lia].
  - by apply IH.
  - apply IH; [done | lia |].
    intros y Hy Hy0.
    pose proof (Hinv y ltac:(lia) Hy0).
    pose proof (countedGap_split q (timestamp e) y Hqx Hy Hx). lia.
  - by apply IH.
Qed.

(** C10.  For every event list with positive time stamps, the coding time is
    at most the active time. *)
Theorem C10_coding_time_le_active_time events :
  Forall (λ e, 0 < timestamp e) events →
  calculateCodingTime events ≤ calculateActiveTime events.
Proof.
  intros Hpos. unfold calculateCodingTime, calculateActiveTime, sortByTimestamp.
  rewrite sortBy_filter.
  apply coding_le_active_loop.
  - apply sortBy_sorted.
  - by apply sortBy_Forall.
  - apply sortBy_Forall. eapply Forall_impl; [exact Hpos|]. simpl; intros; lia.
  - done.
  - intros; lia.
Qed.

Lemma C10_coding_time_le_active_time_witness :
  calculateCodingTime [ev 1000 FILE_EDIT; ev 2000 FILE_SWITCH; ev 3000 FILE_EDIT;
                       ev 3500 FILE_SAVE]
  ≤ calculateActiveTime [ev 1000 FILE_EDIT; ev 2000 FILE_SWITCH; ev 3000 FILE_EDIT;
                         ev 3500 FILE_SAVE].
Proof.
  apply C10_coding_time_le_active_time.
  repeat constructor; simpl; lia.
Defined.

(** The bound needs the time stamps to be positive: an edit before the time
    stamp 0, a switch exactly at 0 and an edit after it give more coding time
    than active time, because the switch at 0 is no anchor for the next gap. *)
Lemma coding_time_above_active_time_at_zero :
  calculateCodingTime [ev (-10) FILE_EDIT; ev 0 FILE_SWITCH; ev 10 FILE_EDIT] = 20 ∧
  calculateActiveTime [ev (-10) FILE_EDIT; ev 0 FILE_SWITCH; ev 10 FILE_EDIT] = 10.
Proof. split; reflexivity. Qed.

(** ** Debug time *)

Lemma debugStep_start a s e :
  type e = DEBUG_START → debugStep (a, s) e = (a, timestamp e).
Proof. intros H. unfold debugStep. by rewrite decide_True. Qed.

Lemma debugStep_stop_open a s e :
  type e = DEBUG_STOP → s ≠ 0 → debugStep (a, s) e = (a + (timestamp e - s), 0).
Proof.
  intros H Hs. unfold debugStep, truthy.
  rewrite decide_False by congruence. rewrite bool_decide_eq_true_2 by done.
  by destruct (Z.eqb_spec s 0).
Qed.

Lemma debugStep_stop_closed a e : debugStep (a, 0) e = (a, 0) ∨ type e = DEBUG_START.
Proof.
  unfold debugStep, truthy. case_decide; [by right | left].
  simpl. by rewrite andb_false_r.
Qed.

Lemma debugStep_other a s e :
  type e ≠ DEBUG_START → type e ≠ DEBUG_STOP → debugStep (a, s) e = (a, s).
Proof.
  intros H1 H2. unfold debugStep.
  rewrite decide_False by done. by rewrite bool_decide_eq_false_2.
Qed.


Lemma debugLoop_no_start l a :
  Forall (λ e, type e ≠ DEBUG_START) l → fold_left debugStep l (a, 0) = (a, 0).
Proof.
  induction 1 as [|e l He Hl IH]; [done|].
  rewrite loop_cons. by destruct (debugStep_stop_closed a e) as [->|].
Qed.

Section SortedAppend.
Context {A : Type} (key : A → Z).



End SortedAppend.




(** ** Streak *)

Lemma visited_S d i day :
  d !! i = Some day → visited d (S i) = dayFlag day :: visited d i.
Proof.
  intros H. unfold visited. rewrite (take_S_r _ _ _ H), map_app. simpl.
  apply rev_unit.
Qed.

Lemma visited_all d : visited d (length d) = activeDaysBackward d.
Proof. unfold visited, activeDaysBackward. by rewrite firstn_all. Qed.

Lemma leadingRun_nonneg l : 0 ≤ leadingRun l.
Proof. induction l as [|[] l IH]; simpl; lia. Qed.

Lemma longestRun_bounds l : 0 ≤ longestRun l ∧ leadingRun l ≤ longestRun l.
Proof.
  induction l as [|b l IH]; [simpl; lia|].
  pose proof (leadingRun_nonneg (b :: l)).
  change (longestRun (b :: l)) with (Z.max (leadingRun (b :: l)) (longestRun l)). lia.
Qed.

Lemma streakStep_active d st i day :
  d !! i = Some day → dayFlag day = true →
  streakStep d st i =
    mkStreakState (if (i =? length d - 1)%nat then tempStreak st + 1 else currentStreak st)
                  (longestStreak st) (tempStreak st + 1).
Proof. intros H Hf. unfold streakStep, dayFlag in *. by rewrite H, Hf. Qed.

Lemma streakStep_idle d st i day :
  d !! i = Some day → dayFlag day = false →
  streakStep d st i =
    mkStreakState (if (i =? length d - 1)%nat then 0 else currentStreak st)
                  (Z.max (longestStreak st) (tempStreak st)) 0.
Proof.
  intros H Hf. unfold streakStep, dayFlag in *. rewrite H, Hf. f_equal.
  destruct (Z.ltb_spec (longestStreak st) (tempStreak st)); lia.
Qed.

(** The longest run that the loop reports is the longest run of the days it
    visits, whatever it had seen before. *)
Lemma streakLoop_longest d n :
  (n ≤ length d)%nat →
  ∀ st, 0 ≤ tempStreak st → 0 ≤ longestStreak st →
    Z.max (longestStreak (streakLoop d n st)) (tempStreak (streakLoop d n st)) =
    Z.max (longestStreak st)
          (Z.max (tempStreak st + leadingRun (visited d n)) (longestRun (visited d n))).
Proof.
  induction n as [|i IH]; intros Hn st Ht Hl.
  - unfold visited. simpl. lia.
  - destruct (lookup_lt_is_Some_2 d i ltac:(lia)) as [day Hday].
    rewrite (visited_S _ _ _ Hday). simpl streakLoop.
    pose proof (longestRun_bounds (visited d i)) as [H0 H1].
    pose proof (leadingRun_nonneg (visited d i)) as H2.
    destruct (dayFlag day) eqn:Hf.
    + rewrite (streakStep_active _ _ _ _ Hday Hf).
      rewrite IH by (simpl; lia). simpl. lia.
    + rewrite (streakStep_idle _ _ _ _ Hday Hf).
      rewrite IH by (simpl; lia). simpl. lia.
Qed.

(** Below the last index the loop leaves [currentStreak] as it is. *)
Lemma streakLoop_current_frozen d n :
  (n ≤ length d - 1)%nat →
  ∀ st, currentStreak (streakLoop d n st) = currentStreak st.
Proof.
  induction n as [|i IH]; intros Hn st; [done|].
  simpl. rewrite IH by lia.
  unfold streakStep. destruct (d !! i) as [day|]; [|done].
  destruct (Nat.eqb_spec i (length d - 1)); [lia|].
  by destruct (0 <? eventCount day).
Qed.

(** The longest streak is computed as specified. *)
Lemma streak_longest_is_longest_run d :
  longest (streakOfDaily d) = longestRun (activeDaysBackward d).
Proof.
  unfold streakOfDaily. simpl longest.
  rewrite streakLoop_longest by (simpl; lia). simpl.
  rewrite visited_all.
  pose proof (longestRun_bounds (activeDaysBackward d)). lia.
Qed.

(** The current streak is only ever assigned in the first iteration: it says
    whether the most recent day is active, not how long the run is. *)
Lemma streak_current_is_flag d :
  current (streakOfDaily d) = Z.min 1 (leadingRun (activeDaysBackward d)).
Proof.
  unfold streakOfDaily. simpl current.
  destruct (length d) as [|m] eqn:Hlen.
  - apply nil_length_inv in Hlen as ->. done.
  - simpl streakLoop. rewrite streakLoop_current_frozen by lia.
    destruct (lookup_lt_is_Some_2 d m ltac:(lia)) as [day Hday].
    rewrite <- visited_all, Hlen, (visited_S _ _ _ Hday).
    pose proof (leadingRun_nonneg (visited d m)).
    destruct (dayFlag day) eqn:Hf.
    + rewrite (streakStep_active _ _ _ _ Hday Hf). simpl.
      rewrite Hlen. destruct (Nat.eqb_spec m (S m - 1)); lia.
    + rewrite (streakStep_idle _ _ _ _ Hday Hf). simpl.
      rewrite Hlen. destruct (Nat.eqb_spec m (S m - 1)); lia.
Qed.

Lemma streak_current_at_most_one d : current (streakOfDaily d) ≤ 1.
Proof. rewrite streak_current_is_flag. lia. Qed.

Lemma idle_days_runs l :
  Forall (λ b : bool, b = false) l → leadingRun l = 0 ∧ longestRun l = 0.
Proof.
  induction 1 as [|b l -> Hl [IH1 IH2]]; [done|].
  split; [done|].
  change (longestRun (false :: l)) with (Z.max 0 (longestRun l)). lia.
Qed.

Lemma streakOfDaily_fields d :
  streakOfDaily d = mkStreak (current (streakOfDaily d)) (longest (streakOfDaily d)).
Proof. reflexivity. Qed.

(** Whatever the window, a histogram with events on exactly its three most
    recent days gets a current streak of 1 and a longest streak of 3. *)
Lemma streak_three_recent_days older a b c :
  Forall (λ day, eventCount day ≤ 0) older →
  0 < eventCount a → 0 < eventCount b → 0 < eventCount c →
  leadingRun (activeDaysBackward (older ++ [a; b; c])) = 3 ∧
  streakOfDaily (older ++ [a; b; c]) = mkStreak 1 3.
Proof.
  intros Hold Ha Hb Hc.
  assert (Hback : activeDaysBackward (older ++ [a; b; c])
                  = true :: true :: true :: activeDaysBackward older).
  { unfold activeDaysBackward. rewrite map_app, rev_app_distr. simpl.
    unfold dayFlag at 1 2 3.
    by rewrite !(proj2 (Z.ltb_lt _ _)) by done. }
  destruct (idle_days_runs (activeDaysBackward older)) as [Hlead Hlong].
  { unfold activeDaysBackward. apply Forall_forall. intros f Hf.
    apply list_elem_of_In, in_rev, in_map_iff in Hf as (day & <- & Hday).
    apply list_elem_of_In in Hday.
    rewrite Forall_forall in Hold. specialize (Hold day Hday).
    unfold dayFlag. apply Z.ltb_ge. lia. }
  assert (Hrun : leadingRun (activeDaysBackward (older ++ [a; b; c])) = 3).
  { rewrite Hback. simpl. rewrite Hlead. lia. }
  split; [done|].
  rewrite streakOfDaily_fields, streak_current_is_flag, streak_longest_is_longest_run.
  rewrite Hrun, Hback. f_equal.
  change (longestRun (true :: true :: true :: activeDaysBackward older))
    with (Z.max (1 + (1 + (1 + leadingRun (activeDaysBackward older))))
            (Z.max (1 + (1 + leadingRun (activeDaysBackward older)))
               (Z.max (1 + leadingRun (activeDaysBackward older))
                  (longestRun (activeDaysBackward older))))).
  rewrite Hlead, Hlong. lia.
Qed.

(** C1.  On a log with events on exactly the three most recent days of a
    seven-day window, the daily histogram is as the claim supposes, the run
    of active days that touches the most recent day has length 3 and so has
    the longest run, yet [calculateStreakData] returns a current streak of 1
    (and a longest streak of 3). *)
Theorem C1_streak_current_stops_at_one :
  map eventCount (getDailyActivity streakNow (events threeDayManager) 7)
    = [0; 0; 0; 0; 1; 1; 1] ∧
  leadingRun (activeDaysBackward (getDailyActivity streakNow (events threeDayManager) 7)) = 3 ∧
  longestRun (activeDaysBackward (getDailyActivity streakNow (events threeDayManager) 7)) = 3 ∧
  calculateStreakData streakNow 7 threeDayManager = mkStreak 1 3.
Proof. repeat split; vm_compute; reflexivity. Qed.

(** ** Event store *)

Lemma keepCount : maxEvents * 8 / 10 = 40000.
Proof. reflexivity. Qed.

Lemma sliceLast_snoc {A : Type} (n : Z) (l : list A) (x : A) :
  0 < n → ∃ dropped rest, l ++ [x] = dropped ++ rest ++ [x] ∧ sliceLast n (l ++ [x]) = rest ++ [x].
Proof.
  intros Hn. unfold sliceLast.
  set (k := Z.to_nat (Z.max (Z.of_nat (length (l ++ [x])) - n) 0)).
  assert (Hk : (k ≤ length l)%nat).
  { unfold k. rewrite length_app. simpl. lia. }
  exists (take k l), (drop k l). split.
  - by rewrite app_assoc, take_drop.
  - rewrite drop_app_le by done. done.
Qed.

Lemma sliceLast_length {A : Type} (n : Z) (l : list A) :
  0 ≤ n ≤ Z.of_nat (length l) → Z.of_nat (length (sliceLast n l)) = n.
Proof. intros Hn. unfold sliceLast. rewrite length_drop. lia. Qed.

Lemma addEvent_events now event dm :
  events (addEvent now event dm).1 =
    if maxEvents <? Z.of_nat (length (events dm ++ [event]))
    then sliceLast (maxEvents * 8 / 10) (events dm ++ [event])
    else events dm ++ [event].
Proof. reflexivity. Qed.

Lemma fullManager_length : length (events fullManager) = Z.to_nat 50000.
Proof. apply repeat_length. Qed.

(** One more event takes the full log over the maximum. *)
Lemma fullManager_overflows event :
  maxEvents < Z.of_nat (length (events fullManager ++ [event])).
Proof.
  rewrite length_app, fullManager_length. cbn [length]. unfold maxEvents. lia.
Qed.

(** C4.  After [addEvent] the log holds at most 50_000 events and ends with
    the event just added; when the log with the new event exceeds the maximum
    it is cut to its 40_000 most recent events (a suffix of it, in order), and
    otherwise it is the old log with the event appended. *)
Theorem C4_addEvent_bounded now event dm :
  Z.of_nat (length (events (addEvent now event dm).1)) ≤ maxEvents ∧
  last (events (addEvent now event dm).1) = Some event ∧
  (maxEvents < Z.of_nat (length (events dm ++ [event])) →
     Z.of_nat (length (events (addEvent now event dm).1)) = 40000 ∧
     maxEvents * 8 / 10 = 40000 ∧
     ∃ dropped, events dm ++ [event] = dropped ++ events (addEvent now event dm).1) ∧
  (Z.of_nat (length (events dm ++ [event])) ≤ maxEvents →
     events (addEvent now event dm).1 = events dm ++ [event]).
Proof.
  rewrite addEvent_events, keepCount.
  destruct (sliceLast_snoc 40000 (events dm) event ltac:(lia)) as (dropped & rest & Hsplit & Hslice).
  destruct (Z.ltb_spec maxEvents (Z.of_nat (length (events dm ++ [event])))) as [Hover|Hfit].
  - assert (Hlen : Z.of_nat (length (sliceLast 40000 (events dm ++ [event]))) = 40000).
    { apply sliceLast_length. unfold maxEvents in Hover. lia. }
    split; [rewrite Hlen; unfold maxEvents; lia|].
    split; [rewrite Hslice; apply last_snoc|].
    split; [|intros; lia].
    intros _. split; [done|]. split; [done|].
    exists dropped. by rewrite Hslice.
  - split; [done|]. split; [apply last_snoc|].
    split; [intros; lia | done].
Qed.

Lemma C4_addEvent_bounded_witness :
  (Z.of_nat (length (events (addEvent 2000 (ev 2000 FILE_SAVE) fullManager).1)) = 40000 ∧
   maxEvents * 8 / 10 = 40000 ∧
   ∃ dropped,
     events fullManager ++ [ev 2000 FILE_SAVE]
     = dropped ++ events (addEvent 2000 (ev 2000 FILE_SAVE) fullManager).1) ∧
  events (addEvent streakNow (ev streakNow FILE_SAVE) threeDayManager).1
    = events threeDayManager ++ [ev streakNow FILE_SAVE].
Proof.
  split.
  - exact (proj1 (proj2 (proj2
             (C4_addEvent_bounded 2000 (ev 2000 FILE_SAVE) fullManager)))
             (fullManager_overflows (ev 2000 FILE_SAVE))).
  - apply (C4_addEvent_bounded streakNow (ev streakNow FILE_SAVE) threeDayManager).
    vm_compute. discriminate.
Defined.

Lemma filter_reflect {A : Type} (f : A → bool) (P : A → Prop) `{∀ x, Decision (P x)} l :
  (∀ x, f x = true ↔ P x) → List.filter f l = filter P l.
Proof.
  intros Hf. induction l as [|x l IH]; [done|].
  simpl. rewrite filter_cons, IH.
  destruct (f x) eqn:Hx; case_decide; try done.
  - apply Hf in Hx. done.
  - apply Hf in H0. congruence.
Qed.

Lemma filter_twice {A : Type} (f g : A → bool) l :
  List.filter g (List.filter f l) = List.filter (λ x, f x && g x) l.
Proof.
  induction l as [|x l IH]; [done|].
  simpl. destruct (f x); simpl; [destruct (g x)|]; by rewrite IH.
Qed.

Lemma getEvents_filter startDate endDate dm :
  (getEvents startDate endDate dm).1 = filter (inBounds startDate endDate) (events dm).
Proof.
  unfold getEvents, inBounds; simpl.
  destruct startDate as [s|], endDate as [t|].
  - rewrite filter_twice. apply filter_reflect. intros e.
    rewrite andb_true_iff, !Z.leb_le. done.
  - apply filter_reflect. intros e. rewrite Z.leb_le. tauto.
  - apply filter_reflect. intros e. rewrite Z.leb_le. tauto.
  - symmetry. induction (events dm) as [|e l IH]; [done|].
    rewrite filter_cons, IH. by case_decide; [|tauto].
Qed.

(** C8.  [getEvents] returns exactly the events of the log within the
    inclusive bounds that are present, in the order of the log, and leaves
    the log as it is; after [addEvent], a query without bounds ends with the
    event just added. *)
Theorem C8_getEvents_bounds startDate endDate dm :
  (getEvents startDate endDate dm).1 = filter (inBounds startDate endDate) (events dm) ∧
  (getEvents startDate endDate dm).1 `sublist_of` events dm ∧
  (∀ e, e ∈ (getEvents startDate endDate dm).1 ↔
        e ∈ events dm ∧
        match startDate with Some s => s ≤ timestamp e | None => True end ∧
        match endDate with Some t => timestamp e ≤ t | None => True end) ∧
  (getEvents startDate endDate dm).2 = dm ∧
  (∀ now event, last (getEvents None None (addEvent now event dm).1).1 = Some event).
Proof.
  rewrite getEvents_filter.
  split; [done|]. split; [apply sublist_filter|].
  split; [|split; [done|]].
  - intros e. rewrite list_elem_of_filter. unfold inBounds. tauto.
  - intros now event.
    change (getEvents None None (addEvent now event dm).1).1
      with (events (addEvent now event dm).1).
    rewrite addEvent_events.
    destruct (sliceLast_snoc (maxEvents * 8 / 10) (events dm) event ltac:(done))
      as (dropped & rest & _ & ->).
    destruct (maxEvents <? _); apply last_snoc.
Qed.

(** ** Sync client *)

Lemma unsyncedEvents_filter dm :
  List.filter (λ e, default 0 (lastSyncTime dm) <? timestamp e) (events dm) = unsyncedEvents dm.
Proof. apply filter_reflect. intros e. unfold watermark. by rewrite Z.ltb_lt. Qed.

Lemma unsyncedSessions_filter dm :
  List.filter (λ s, default 0 (lastSyncTime dm) <? startTime s) (sessions dm) = unsyncedSessions dm.
Proof. apply filter_reflect. intros e. unfold watermark. by rewrite Z.ltb_lt. Qed.

Lemma filter_none {A : Type} (P : A → Prop) `{∀ x, Decision (P x)} (l : list A) :
  Forall (λ x, ¬ P x) l → filter P l = [].
Proof.
  induction 1 as [|x l Hx Hl IH]; [done|].
  by rewrite filter_cons, decide_False.
Qed.

(** The four ways through [syncDataWithAPI]. *)
Lemma syncDataWithAPI_cases now post dm :
  syncDataWithAPI now post dm =
    if negb (enableSync dm)
    then (Returned (mkResult false (Some "Sync not enabled"%string) None), dm, [])
    else if bool_decide (unsyncedEvents dm = [] ∧ unsyncedSessions dm = [])
    then (Returned noNewData, dm, [])
    else if tokenMissing (sessionToken dm)
    then (Returned (mkResult false None (Some "Not authenticated"%string)), dm, [])
    else match post (unsyncedEvents dm) (unsyncedSessions dm) with
         | Resolved body =>
             (Returned body, if success body then setLastSyncTime now dm else dm,
              [(unsyncedEvents dm, unsyncedSessions dm)])
         | Rejected err =>
             (Returned (mkResult false None (Some err)), dm,
              [(unsyncedEvents dm, unsyncedSessions dm)])
         end.
Proof.
  unfold syncDataWithAPI, syncActivityData.
  rewrite unsyncedEvents_filter, unsyncedSessions_filter.
  destruct (enableSync dm); simpl; [|done].
  destruct (unsyncedEvents dm) as [|e l]; simpl.
  - destruct (unsyncedSessions dm) as [|s l']; simpl; [done|].
    destruct (tokenMissing (sessionToken dm)); [done|]. by destruct (post _ _).
  - destruct (tokenMissing (sessionToken dm)); [done|]. by destruct (post _ _).
Qed.

(** C5 (amended).  When sync is enabled and no stored event or session is
    later than the watermark, [syncDataWithAPI] returns the "no new data"
    success, sends no request and leaves the manager, hence the watermark, as
    it is.  In particular, after a sync at [now1] that sent a request and
    returned the remote success, a second sync sends no request, provided
    that no stored event or session is later than [now1]. *)
Theorem C5_sync_no_new_data :
  (∀ now post dm,
     enableSync dm = true →
     Forall (λ e, timestamp e ≤ watermark dm) (events dm) →
     Forall (λ s, startTime s ≤ watermark dm) (sessions dm) →
     syncDataWithAPI now post dm = (Returned noNewData, dm, [])) ∧
  (∀ now1 post1 now2 post2 dm res dm1 sent,
     syncDataWithAPI now1 post1 dm = (Returned res, dm1, sent) →
     sent ≠ [] → success res = true →
     Forall (λ e, timestamp e ≤ now1) (events dm) →
     Forall (λ s, startTime s ≤ now1) (sessions dm) →
     lastSyncTime dm1 = Some now1 ∧
     syncDataWithAPI now2 post2 dm1 = (Returned noNewData, dm1, [])).
Proof.
  assert (Hquiet : ∀ now post dm,
     enableSync dm = true →
     Forall (λ e, timestamp e ≤ watermark dm) (events dm) →
     Forall (λ s, startTime s ≤ watermark dm) (sessions dm) →
     syncDataWithAPI now post dm = (Returned noNewData, dm, [])).
  { intros now post dm Hen He Hs. rewrite syncDataWithAPI_cases, Hen. simpl.
    rewrite bool_decide_eq_true_2; [done|]. unfold unsyncedEvents, unsyncedSessions.
    split; apply filter_none; (eapply Forall_impl; [eassumption|]); simpl; intros; lia. }
  split; [exact Hquiet|].
  intros now1 post1 now2 post2 dm res dm1 sent Hsync Hsent Hok He Hs.
  rewrite syncDataWithAPI_cases in Hsync.
  destruct (enableSync dm) eqn:Hen; simpl in Hsync; [|by simplify_eq].
  case_bool_decide; [by simplify_eq|].
  destruct (tokenMissing (sessionToken dm)); [by simplify_eq|].
  destruct (post1 _ _) as [body|err]; [|simplify_eq; done].
  injection Hsync as -> <- <-. rewrite Hok.
  split; [done|]. by apply Hquiet.
Qed.

Lemma C5_sync_no_new_data_witness :
  syncDataWithAPI 9000 remoteDown (setLastSyncTime 5000 pendingManager)
    = (Returned noNewData, setLastSyncTime 5000 pendingManager, []) ∧
  (lastSyncTime (setLastSyncTime 9000 pendingManager) = Some 9000 ∧
   syncDataWithAPI 9500 remoteDown (setLastSyncTime 9000 pendingManager)
     = (Returned noNewData, setLastSyncTime 9000 pendingManager, [])).
Proof.
  destruct C5_sync_no_new_data as (Hquiet & Hsecond).
  split.
  - apply Hquiet.
    + reflexivity.
    + repeat constructor. vm_compute. discriminate.
    + constructor.
  - apply (Hsecond 9000 remoteUp 9500 remoteDown pendingManager
             (mkResult true None None) (setLastSyncTime 9000 pendingManager)
             [([ev 5000 FILE_EDIT], [])]).
    + vm_compute. reflexivity.
    + discriminate.
    + reflexivity.
    + repeat constructor. vm_compute. discriminate.
    + constructor.
Defined.

(** With sync disabled by configuration, the answer is the failure "Sync not
    enabled" although nothing is later than the watermark. *)
Lemma C5_counterexample :
  Forall (λ e, timestamp e ≤ watermark syncDisabledManager) (events syncDisabledManager) ∧
  Forall (λ s, startTime s ≤ watermark syncDisabledManager) (sessions syncDisabledManager) ∧
  syncDataWithAPI 1000 remoteUp syncDisabledManager
    = (Returned (mkResult false (Some "Sync not enabled"%string) None),
       syncDisabledManager, []) ∧
  syncDataWithAPI 1000 remoteUp syncDisabledManager
    ≠ (Returned noNewData, syncDisabledManager, []).
Proof. repeat split; try constructor. discriminate. Qed.

(** C6.  [syncDataWithAPI] always returns a result to its caller.  When the
    result reports a failure the manager, hence the watermark, is unchanged;
    the watermark changes only to the current time and only when the remote
    answer to the request reports success.  The three failures: without a
    token the result is "Not authenticated" and no request is sent; a
    rejected request gives a failure that carries the error; a remote answer
    with [success = false] is handed back as it is. *)
Theorem C6_sync_failure_structured now post dm :
  ∃ res dm' sent,
    syncDataWithAPI now post dm = (Returned res, dm', sent) ∧
    (success res = false → dm' = dm) ∧
    (lastSyncTime dm' ≠ lastSyncTime dm →
       lastSyncTime dm' = Some now ∧ success res = true ∧
       sent = [(unsyncedEvents dm, unsyncedSessions dm)] ∧
       post (unsyncedEvents dm) (unsyncedSessions dm) = Resolved res) ∧
    (enableSync dm = true →
     ¬ (unsyncedEvents dm = [] ∧ unsyncedSessions dm = []) →
       (tokenMissing (sessionToken dm) = true →
          res = mkResult false None (Some "Not authenticated"%string) ∧
          sent = [] ∧ dm' = dm) ∧
       (∀ err, tokenMissing (sessionToken dm) = false →
          post (unsyncedEvents dm) (unsyncedSessions dm) = Rejected err →
          res = mkResult false None (Some err) ∧ dm' = dm) ∧
       (∀ body, tokenMissing (sessionToken dm) = false →
          post (unsyncedEvents dm) (unsyncedSessions dm) = Resolved body →
          res = body ∧
          dm' = if success body then setLastSyncTime now dm else dm)).
Proof.
  rewrite syncDataWithAPI_cases.
  destruct (enableSync dm) eqn:Hen; simpl.
  2: { eexists _, _, _. split; [done|]. naive_solver. }
  case_bool_decide as Hnew.
  { eexists _, _, _. split; [done|]. split; [done|]. split; [done|]. by intros _ ?. }
  destruct (tokenMissing (sessionToken dm)) eqn:Htok.
  { eexists _, _, _. split; [done|]. naive_solver. }
  destruct (post _ _) as [body|err] eqn:Hpost.
  - eexists _, _, _. split; [done|].
    destruct (success body) eqn:Hbody; simpl.
    + split; [done|]. split; [done|]. intros _ _.
      split; [done|]. split; [done|]. intros ? _ [= <-]. by rewrite Hbody.
    + split; [done|]. split; [done|]. intros _ _.
      split; [done|]. split; [done|]. intros ? _ [= <-]. by rewrite Hbody.
  - eexists _, _, _. split; [done|]. split; [done|]. split; [done|]. intros _ _.
    split; [done|]. split; [|done]. by intros ? _ [= <-].
Qed.

Lemma C6_sync_failure_structured_witness :
  (∃ res dm' sent,
     syncDataWithAPI 9000 remoteDown pendingManager = (Returned res, dm', sent) ∧
     res = mkResult false None (Some "timeout"%string) ∧ dm' = pendingManager) ∧
  (∃ res dm' sent,
     syncDataWithAPI 9000 remoteUp anonymousManager = (Returned res, dm', sent) ∧
     res = mkResult false None (Some "Not authenticated"%string) ∧
     sent = [] ∧ dm' = anonymousManager) ∧
  (∃ res dm' sent,
     syncDataWithAPI 9000 remoteRefuses pendingManager = (Returned res, dm', sent) ∧
     success res = false ∧ dm' = pendingManager) ∧
  (∃ res dm' sent,
     syncDataWithAPI 9000 remoteUp pendingManager = (Returned res, dm', sent) ∧
     lastSyncTime dm' = Some 9000 ∧ success res = true).
Proof.
  assert (Hnew : ¬ (unsyncedEvents pendingManager = [] ∧
                    unsyncedSessions pendingManager = [])).
  { vm_compute. intros [[=] _]. }
  split; [|split; [|split]].
  - destruct (C6_sync_failure_structured 9000 remoteDown pendingManager)
      as (res & dm' & sent & Hrun & _ & _ & Hkinds).
    destruct (Hkinds eq_refl Hnew) as (_ & Hrejected & _).
    destruct (Hrejected "timeout"%string eq_refl eq_refl) as [-> ->].
    by exists (mkResult false None (Some "timeout"%string)), pendingManager, sent.
  - destruct (C6_sync_failure_structured 9000 remoteUp anonymousManager)
      as (res & dm' & sent & Hrun & _ & _ & Hkinds).
    destruct (Hkinds eq_refl Hnew) as (Hanon & _ & _).
    destruct (Hanon eq_refl) as (-> & -> & ->).
    by exists (mkResult false None (Some "Not authenticated"%string)), anonymousManager, [].
  - destruct (C6_sync_failure_structured 9000 remoteRefuses pendingManager)
      as (res & dm' & sent & Hrun & Hfail & _ & Hkinds).
    destruct (Hkinds eq_refl Hnew) as (_ & _ & Hbody).
    destruct (Hbody (mkResult false None (Some "quota"%string)) eq_refl eq_refl) as [Hres _].
    exists res, dm', sent. split; [exact Hrun|].
    split; [by rewrite Hres|]. apply Hfail. by rewrite Hres.
  - destruct (C6_sync_failure_structured 9000 remoteUp pendingManager)
      as (res & dm' & sent & Hrun & _ & Hmoved & Hkinds).
    destruct (Hkinds eq_refl Hnew) as (_ & _ & Hbody).
    destruct (Hbody (mkResult true None None) eq_refl eq_refl) as [Hres Hdm].
    exists res, dm', sent. split; [exact Hrun|].
    destruct Hmoved as (Hnow & Hok & _); [by rewrite Hdm|]. done.
Defined.

(** ** Productivity score *)

Lemma weights_range t : 0 ≤ weights t ≤ 5.
Proof. destruct t; simpl; lia. Qed.

Lemma score_loop events acc :
  fold_left (λ s event, s + weights (type event)) events acc = acc + weightedSum events.
Proof.
  revert acc. induction events as [|e l IH]; intros acc.
  - unfold weightedSum. simpl. lia.
  - simpl fold_left. rewrite IH. unfold weightedSum. simpl. lia.
Qed.

Lemma weightedSum_range events :
  0 ≤ weightedSum events ≤ Z.of_nat (length events) * 5.
Proof.
  induction events as [|e l IH]; [unfold weightedSum; simpl; lia|].
  pose proof (weights_range (type e)).
  change (weightedSum (e :: l)) with (weights (type e) + weightedSum l).
  rewrite length_cons. lia.
Qed.

Lemma mathRound_range (x : Q) : (0 <= x)%Q → (x <= 100)%Q → 0 ≤ mathRound x ≤ 100.
Proof.
  intros H0 H100. unfold mathRound. split.
  - change 0 with (Qfloor (0 + (1 # 2))). apply Qfloor_resp_le. lra.
  - change 100 with (Qfloor (100 + (1 # 2))). apply Qfloor_resp_le. lra.
Qed.

Lemma ratio_range (a b : Z) : 0 ≤ a ≤ b → 0 < b →
  (0 <= inject_Z a / inject_Z b)%Q ∧ (inject_Z a / inject_Z b <= 1)%Q.
Proof.
  intros Ha Hb.
  assert (Hb' : (0 < inject_Z b)%Q) by (change 0%Q with (inject_Z 0); by rewrite <- Zlt_Qlt).
  split.
  - apply Qle_shift_div_l; [done|]. rewrite Qmult_0_l.
    change 0%Q with (inject_Z 0). rewrite <- Zle_Qle. lia.
  - apply Qle_shift_div_r; [done|]. rewrite Qmult_1_l.
    rewrite <- Zle_Qle. lia.
Qed.

Section Productivity.
Variable rnd : Q → Q.
Hypothesis rnd_monotone : ∀ x y : Q, (x <= y)%Q → (rnd x <= rnd y)%Q.
Hypothesis rnd_0 : (rnd 0 == 0)%Q.
Hypothesis rnd_1 : (rnd 1 == 1)%Q.
Hypothesis rnd_100 : (rnd 100 == 100)%Q.

Lemma rnd_range (lo hi x : Q) :
  (rnd lo == lo)%Q → (rnd hi == hi)%Q → (lo <= x)%Q → (x <= hi)%Q →
  (lo <= rnd x)%Q ∧ (rnd x <= hi)%Q.
Proof.
  intros Hlo Hhi H1 H2. split.
  - rewrite <- Hlo. by apply rnd_monotone.
  - rewrite <- Hhi. by apply rnd_monotone.
Qed.

Lemma score_range events : 0 ≤ calculateProductivityScore rnd events ≤ 100.
Proof.
  unfold calculateProductivityScore.
  destruct (Nat.eqb_spec (length events) 0) as [|Hne]; [lia|].
  rewrite score_loop, Z.add_0_l.
  pose proof (weightedSum_range events) as Hw.
  destruct (ratio_range (weightedSum events) (Z.of_nat (length events) * 5) Hw ltac:(lia))
    as [Hr0 Hr1].
  destruct (rnd_range 0 1 _ rnd_0 rnd_1 Hr0 Hr1) as [Hq0 Hq1].
  set (q := rnd (inject_Z (weightedSum events) / inject_Z (Z.of_nat (length events) * 5))) in *.
  assert (Hy0 : (0 <= q * inject_Z 100)%Q) by (change (inject_Z 100) with 100%Q; lra).
  assert (Hy1 : (q * inject_Z 100 <= 100)%Q) by (change (inject_Z 100) with 100%Q; lra).
  destruct (rnd_range 0 100 _ rnd_0 rnd_100 Hy0 Hy1) as [Hp0 Hp1].
  pose proof (mathRound_range _ Hp0 Hp1). lia.
Qed.
End Productivity.

(** C7.  For a rounding to doubles that is monotone and leaves 0, 1 and 100
    as they are (as rounding to the nearest double does), the productivity
    score of the empty slice is 0 and the score of every slice lies in
    [0, 100]; it is the weighted sum, with weights between 0 and 5, divided
    by 5 times the number of events, times 100, rounded and capped at 100. *)
Theorem C7_productivity_score_range (rnd : Q → Q) :
  (∀ x y : Q, (x <= y)%Q → (rnd x <= rnd y)%Q) →
  (rnd 0 == 0)%Q → (rnd 1 == 1)%Q → (rnd 100 == 100)%Q →
  calculateProductivityScore rnd [] = 0 ∧
  (∀ events, 0 ≤ calculateProductivityScore rnd events ≤ 100) ∧
  (∀ t, 0 ≤ weights t ≤ 5) ∧
  (∀ events, events ≠ [] →
     0 ≤ weightedSum events ≤ Z.of_nat (length events) * 5 ∧
     calculateProductivityScore rnd events =
       Z.min 100
         (mathRound (rnd (rnd (inject_Z (weightedSum events)
                               / inject_Z (Z.of_nat (length events) * 5))
                          * inject_Z 100)%Q))).
Proof.
  intros Hmono H0 H1 H100.
  split; [done|]. split; [by apply score_range|]. split; [apply weights_range|].
  intros events Hne. split; [apply weightedSum_range|].
  unfold calculateProductivityScore.
  destruct events as [|e l]; [done|].
  simpl Nat.eqb. cbv iota. by rewrite score_loop, Z.add_0_l.
Qed.

Lemma C7_productivity_score_range_witness :
  0 ≤ calculateProductivityScore (λ x, x) [ev 1000 FILE_EDIT; ev 2000 GIT_COMMIT] ≤ 100.
Proof.
  apply (C7_productivity_score_range (λ x, x)).
  - intros x y H. exact H.
  - reflexivity.
  - reflexivity.
  - reflexivity.
Defined.

(** ** Edit buffer *)

Lemma forget_lookup path tr : editBuffer (forget path tr) !! path = None.
Proof. simpl. apply lookup_delete_eq. Qed.

Lemma forget_other path path' tr :
  path ≠ path' → editBuffer (forget path tr) !! path' = editBuffer tr !! path'.
Proof. intros. simpl. by apply lookup_delete_ne. Qed.

Lemma flushEditBuffer_forgets now path tr :
  (flushEditBuffer now path tr).1 = forget path tr.
Proof.
  unfold flushEditBuffer.
  destruct (editBuffer tr !! path) as [buffer|]; [|done].
  destruct ((added buffer =? 0)%N && (deleted buffer =? 0)%N); [done|].
  by destruct (List.find _ _).
Qed.

(** What a burst of changes adds to the buffer of a file. *)
Lemma updateEditBuffer_lookup path changes tr :
  ∃ buffer,
    editBuffer (updateEditBuffer path changes tr) !! path = Some buffer ∧
    let old := default (mkBuffer 0 0 0) (editBuffer tr !! path) in
    added buffer
      = (added old + foldr N.add 0 (map (λ c, N.of_nat (String.length (text c))) changes))%N ∧
    deleted buffer = (deleted old + foldr N.add 0 (map rangeLength changes))%N ∧
    edits buffer = (edits old + N.of_nat (length changes))%N.
Proof.
  unfold updateEditBuffer. simpl. rewrite lookup_insert_eq. eexists. split; [done|].
  generalize (default (mkBuffer 0 0 0) (editBuffer tr !! path)). intros old.
  revert old. induction changes as [|c l IH]; intros old.
  - simpl. repeat split; lia.
  - simpl fold_left. destruct (IH (mkBuffer
        (added old + N.of_nat (String.length (text c)))
        (deleted old + rangeLength c) (edits old + 1))) as (Ha & Hd & He).
    simpl in *. rewrite Ha, Hd, He. repeat split; lia.
Qed.

Lemma find_document (docs : list TextDocument) path :
  (∃ doc, doc ∈ docs ∧ fsPath doc = path) →
  ∃ doc, List.find (λ doc, bool_decide (fsPath doc = path)) docs = Some doc ∧
         fsPath doc = path.
Proof.
  intros (doc & Hin & Hpath).
  destruct (List.find _ docs) as [doc'|] eqn:Hfind.
  - exists doc'. split; [done|]. apply find_some in Hfind as [_ H].
    by apply bool_decide_eq_true in H.
  - apply list_elem_of_In in Hin.
    pose proof (find_none _ _ Hfind doc Hin) as H. simpl in H.
    by apply bool_decide_eq_false in H.
Qed.

(** C9.  A flush removes the entry of the file.  An emitted event is a
    [FILE_EDIT] that carries the buffered counts, and its edit type is
    [replace] when both counts are nonzero, [insert] when only the added
    count is, [delete] when only the deleted count is; when both counts are
    zero no event is emitted.  And an event is emitted: with tracking enabled
    and active and the document open, a buffer whose counts are not both zero
    is flushed into one event, stamped with the instant of the flush, with
    the counts and the edit type above. *)
Theorem C9_flush_edit_type now path tr :
  editBuffer (flushEditBuffer now path tr).1 !! path = None ∧
  (∀ event,
     (flushEditBuffer now path tr).2 = Some event →
     ∃ buffer,
       editBuffer tr !! path = Some buffer ∧
       type event = FILE_EDIT ∧
       charactersAdded (data event) = Some (added buffer) ∧
       charactersDeleted (data event) = Some (deleted buffer) ∧
       ¬ (added buffer = 0%N ∧ deleted buffer = 0%N) ∧
       (added buffer ≠ 0%N → deleted buffer ≠ 0%N →
          editType (data event) = Some replace_edit) ∧
       (added buffer ≠ 0%N → deleted buffer = 0%N →
          editType (data event) = Some insert_edit) ∧
       (added buffer = 0%N → deleted buffer ≠ 0%N →
          editType (data event) = Some delete_edit)) ∧
  (∀ buffer,
     editBuffer tr !! path = Some buffer →
     added buffer = 0%N → deleted buffer = 0%N →
     (flushEditBuffer now path tr).2 = None) ∧
  (∀ buffer,
     editBuffer tr !! path = Some buffer →
     ¬ (added buffer = 0%N ∧ deleted buffer = 0%N) →
     enableTracking tr = true → isActive tr = true →
     (∃ doc, doc ∈ textDocuments tr ∧ fsPath doc = path) →
     ∃ event,
       (flushEditBuffer now path tr).2 = Some event ∧
       type event = FILE_EDIT ∧
       timestamp event = now ∧
       filePath (data event) = Some path ∧
       charactersAdded (data event) = Some (added buffer) ∧
       charactersDeleted (data event) = Some (deleted buffer) ∧
       (added buffer ≠ 0%N → deleted buffer ≠ 0%N →
          editType (data event) = Some replace_edit) ∧
       (added buffer ≠ 0%N → deleted buffer = 0%N →
          editType (data event) = Some insert_edit) ∧
       (added buffer = 0%N → deleted buffer ≠ 0%N →
          editType (data event) = Some delete_edit)).
Proof.
  split; [rewrite flushEditBuffer_forgets; apply forget_lookup|]. split; [|split].
  - intros event. unfold flushEditBuffer.
    destruct (editBuffer tr !! path) as [buffer|]; [|done].
    destruct (N.eqb_spec (added buffer) 0) as [Ha|Ha],
             (N.eqb_spec (deleted buffer) 0) as [Hd|Hd]; simpl; try done.
    all: destruct (List.find _ _) as [document|]; [|done].
    all: unfold trackEvent;
      destruct (negb (enableTracking tr) || negb (isActive tr)); [done|].
    all: intros [= <-]; exists buffer; simpl.
    all: destruct (N.ltb_spec 0 (added buffer)), (N.ltb_spec 0 (deleted buffer)); simpl.
    all: repeat split; intros; done || lia.
  - intros buffer Hb Ha Hd. unfold flushEditBuffer. by rewrite Hb, Ha, Hd.
  - intros buffer Hb Hsum Henabled Hactive Hdoc.
    destruct (find_document _ _ Hdoc) as (doc & Hfind & Hpath).
    unfold flushEditBuffer. rewrite Hb.
    replace ((added buffer =? 0)%N && (deleted buffer =? 0)%N) with false.
    2:{ symmetry. apply andb_false_iff.
        destruct (N.eqb_spec (added buffer) 0), (N.eqb_spec (deleted buffer) 0); tauto. }
    rewrite Hfind. unfold trackEvent. rewrite Henabled, Hactive. cbn [negb orb snd].
    eexists. split; [done|]. cbn. rewrite Hpath.
    destruct (N.ltb_spec 0 (added buffer)), (N.ltb_spec 0 (deleted buffer)); simpl;
      repeat split; intros; done || lia.
Qed.

Lemma C9_flush_edit_type_witness :
  (∃ event, (flushEditBuffer 7000 "/w/main.ts" editingTracker).2 = Some event ∧
            editType (data event) = Some replace_edit) ∧
  (∃ event, (flushEditBuffer 7000 "/w/main.ts" insertingTracker).2 = Some event ∧
            editType (data event) = Some insert_edit) ∧
  (∃ event, (flushEditBuffer 7000 "/w/main.ts" deletingTracker).2 = Some event ∧
            editType (data event) = Some delete_edit) ∧
  (flushEditBuffer 7000 "/w/main.ts" touchedTracker).2 = None.
Proof.
  assert (Hopen : ∃ doc, doc ∈ [mainDocument] ∧ fsPath doc = "/w/main.ts"%string)
    by (exists mainDocument; split; [by left | reflexivity]).
  split; [|split; [|split]].
  - destruct (proj2 (proj2 (proj2 (C9_flush_edit_type 7000 "/w/main.ts" editingTracker)))
                (mkBuffer 5 3 1))
      as (event & Hevent & _ & _ & _ & _ & _ & Hrep & _).
    + vm_compute. reflexivity.
    + simpl. intros [? _]. discriminate.
    + reflexivity.
    + reflexivity.
    + exact Hopen.
    + exists event. split; [exact Hevent|]. apply Hrep; simpl; discriminate.
  - destruct (proj2 (proj2 (proj2 (C9_flush_edit_type 7000 "/w/main.ts" insertingTracker)))
                (mkBuffer 5 0 1))
      as (event & Hevent & _ & _ & _ & _ & _ & _ & Hins & _).
    + vm_compute. reflexivity.
    + simpl. intros [? _]. discriminate.
    + reflexivity.
    + reflexivity.
    + exact Hopen.
    + exists event. split; [exact Hevent|]. apply Hins; simpl; [discriminate | reflexivity].
  - destruct (proj2 (proj2 (proj2 (C9_flush_edit_type 7000 "/w/main.ts" deletingTracker)))
                (mkBuffer 0 3 1))
      as (event & Hevent & _ & _ & _ & _ & _ & _ & _ & Hdel).
    + vm_compute. reflexivity.
    + simpl. intros [_ ?]. discriminate.
    + reflexivity.
    + reflexivity.
    + exact Hopen.
    + exists event. split; [exact Hevent|]. apply Hdel; simpl; [reflexivity | discriminate].
  - apply (proj1 (proj2 (proj2 (C9_flush_edit_type 7000 "/w/main.ts" touchedTracker)))
             (mkBuffer 0 0 0)).
    + vm_compute. reflexivity.
    + reflexivity.
    + reflexivity.
Defined.

(** * Further properties of the store *)

(** ** Appending a series of events *)

Lemma addEvents_snoc batch now event dm :
  addEvents (batch ++ [(now, event)]) dm = (addEvent now event (addEvents batch dm)).1.
Proof. unfold addEvents. by rewrite fold_left_app. Qed.

Lemma addEvent_sessions now event dm : sessions (addEvent now event dm).1 = sessions dm.
Proof. reflexivity. Qed.

Lemma addEvent_suffix now event dm :
  ∃ dropped, events dm ++ [event] = dropped ++ events (addEvent now event dm).1.
Proof.
  rewrite addEvent_events.
  destruct (sliceLast_snoc (maxEvents * 8 / 10) (events dm) event ltac:(done))
    as (dropped & rest & Hsplit & ->).
  destruct (maxEvents <? _); [by exists dropped | by exists []].
Qed.

Lemma addEvent_length now event dm :
  Z.of_nat (length (events (addEvent now event dm).1)) ≤ maxEvents.
Proof.
  rewrite addEvent_events.
  destruct (Z.ltb_spec maxEvents (Z.of_nat (length (events dm ++ [event])))) as [H|H]; [|done].
  rewrite sliceLast_length; [done|]. rewrite keepCount. unfold maxEvents in H. lia.
Qed.

(** X1.  The open session counts every event of a series of [addEvent] calls,
    also those that the bound on the log later drops: its counter grows by the
    number of calls and its end time is the instant of the last call, while its
    id and start time and the archive stay as they are; without an open
    session none appears. *)
Theorem X1_session_counts_every_append batch dm :
  sessions (addEvents batch dm) = sessions dm ∧
  (currentSession dm = None → currentSession (addEvents batch dm) = None) ∧
  (∀ s, currentSession dm = Some s →
     ∃ s', currentSession (addEvents batch dm) = Some s' ∧
           totalEvents s' = totalEvents s + Z.of_nat (length batch) ∧
           sessId s' = sessId s ∧ startTime s' = startTime s ∧
           endTime s' = default (endTime s) (Some <$> last (map fst batch))).
Proof.
  induction batch as [|[now event] batch IH] using rev_ind.
  - split; [done|]. split; [done|]. intros s Hs. exists s. simpl. repeat split; [done | lia].
  - rewrite addEvents_snoc. destruct IH as (Harch & Hnone & Hsome).
    split; [by rewrite addEvent_sessions|]. split.
    + intros H. simpl. by rewrite (Hnone H).
    + intros s Hs. destruct (Hsome s Hs) as (s' & Hcur & Hcount & Hid & Hstart & _).
      simpl. rewrite Hcur. eexists. split; [done|]. simpl.
      rewrite length_app, map_app. cbn [map fst]. rewrite last_snoc.
      simpl. repeat split; [lia | done | done].
Qed.

Lemma X1_session_counts_every_append_witness :
  ∃ s', currentSession (addEvents [(3000, ev 3000 FILE_EDIT); (4000, ev 4000 GIT_COMMIT)]
                          workingManager) = Some s' ∧
        totalEvents s' = 4 ∧ endTime s' = Some 4000.
Proof.
  destruct (proj2 (proj2 (X1_session_counts_every_append
              [(3000, ev 3000 FILE_EDIT); (4000, ev 4000 GIT_COMMIT)] workingManager))
              (mkSession "session_a" 500 (Some 2000) None None 2 0) eq_refl)
    as (s' & Hcur & Hcount & _ & _ & Hend).
  exists s'. split; [exact Hcur|]. split; [exact Hcount | exact Hend].
Defined.

(** X2.  A series of [addEvent] calls never reorders, changes or invents
    events: the log after the series is a suffix of the old log followed by
    the appended events.  After at least one call the log is within its
    bound, and as long as the old log and the appended events together fit
    the bound nothing is dropped. *)
Theorem X2_appends_keep_a_suffix batch dm :
  (∃ dropped, events dm ++ map snd batch = dropped ++ events (addEvents batch dm)) ∧
  (batch ≠ [] → Z.of_nat (length (events (addEvents batch dm))) ≤ maxEvents) ∧
  (Z.of_nat (length (events dm)) + Z.of_nat (length batch) ≤ maxEvents →
     events (addEvents batch dm) = events dm ++ map snd batch).
Proof.
  induction batch as [|[now event] batch IH] using rev_ind.
  - split; [exists []; simpl; by rewrite app_nil_r|]. split; [done|].
    intros _. simpl. by rewrite app_nil_r.
  - rewrite addEvents_snoc, map_app. simpl map. destruct IH as ([dropped Hd] & _ & Hfit).
    split; [|split].
    + destruct (addEvent_suffix now event (addEvents batch dm)) as [dropped' Hd'].
      exists (dropped ++ dropped'). by rewrite app_assoc, Hd, <- !app_assoc, Hd'.
    + intros _. apply addEvent_length.
    + rewrite length_app. simpl length. intros Hroom.
      rewrite addEvent_events, Hfit by lia.
      rewrite !length_app, length_map. simpl length.
      destruct (Z.ltb_spec maxEvents (Z.of_nat (length (events dm) + length batch + 1)));
        [lia|]. by rewrite <- app_assoc.
Qed.

Lemma X2_appends_keep_a_suffix_witness :
  Z.of_nat (length (events (addEvents [(3000, ev 3000 FILE_EDIT)] workingManager))) ≤ maxEvents ∧
  events (addEvents [(3000, ev 3000 FILE_EDIT)] workingManager)
    = events workingManager ++ [ev 3000 FILE_EDIT].
Proof.
  destruct (X2_appends_keep_a_suffix [(3000, ev 3000 FILE_EDIT)] workingManager)
    as (_ & Hbound & Hfit).
  split.
  - apply Hbound. discriminate.
  - apply Hfit. vm_compute. discriminate.
Defined.

(** ** Invariants of the store *)

Lemma filter_length_le {A : Type} (f : A → bool) l :
  (length (List.filter f l) ≤ length l)%nat.
Proof. induction l as [|x l IH]; simpl; [lia|]. destruct (f x); simpl; lia. Qed.

Lemma filter_all {A : Type} (f : A → bool) l :
  Forall (λ x, f x = true) l → List.filter f l = l.
Proof. induction 1 as [|x l Hx Hl IH]; simpl; [done|]. by rewrite Hx, IH. Qed.

(** A filter keeps the length exactly when it keeps everything. *)
Lemma filter_length_eq {A : Type} (f : A → bool) l :
  (length (List.filter f l) =? length l)%nat = true ↔ Forall (λ x, f x = true) l.
Proof.
  rewrite Nat.eqb_eq. split.
  - induction l as [|x l IH]; simpl; [constructor|].
    pose proof (filter_length_le f l).
    destruct (f x) eqn:Hx; simpl; intros Hlen; [|lia].
    constructor; [done|]. apply IH. lia.
  - intros H. by rewrite filter_all.
Qed.

Lemma Forall_List_filter {A : Type} (P : A → Prop) (f : A → bool) l :
  Forall P l → Forall P (List.filter f l).
Proof.
  induction 1 as [|x l Hx Hl IH]; simpl; [constructor|].
  destruct (f x); [by constructor | done].
Qed.

Lemma closeSession_closed now s : is_Some (endTime (closeSession now s)).
Proof. by eexists. Qed.

Lemma runOp_invariant dm op : storeInvariant dm → storeInvariant (runOp dm op).
Proof.
  intros [Harch Hlen]. destruct op as [now event|now sid ws proj|now|now sid ws proj|now days].
  - split; [exact Harch | apply addEvent_length].
  - split; [|exact Hlen]. simpl.
    destruct (currentSession dm); [|done].
    apply Forall_app. split; [done|]. repeat constructor. apply closeSession_closed.
  - unfold runOp, endCurrentSession. destruct (currentSession dm); [|by split].
    split; [|exact Hlen]. simpl.
    apply Forall_app. split; [done|]. repeat constructor. apply closeSession_closed.
  - split; simpl; [constructor | unfold maxEvents; lia].
  - split; simpl.
    + by apply Forall_List_filter.
    + pose proof (filter_length_le
        (λ e, now - days * 24 * 60 * 60 * 1000 <=? timestamp e) (events dm)). lia.
Qed.

(** X3.  Whatever the store is asked to do, in whatever order (append an
    event, start a session, end the session, clear, clean up), every archived
    session stays closed and the log stays within its bound of 50_000. *)
Theorem X3_store_invariant ops dm :
  storeInvariant dm → storeInvariant (runOps ops dm).
Proof.
  revert dm. induction ops as [|op ops IH]; intros dm Hinv; [done|].
  simpl. apply IH. by apply runOp_invariant.
Qed.

Lemma X3_store_invariant_witness :
  storeInvariant
    (runOps [OpAddEvent 3000 (ev 3000 FILE_EDIT);
             OpStartNewSession 4000 "session_b" None None;
             OpCleanOldData (60 * msPerDay) 30;
             OpEndCurrentSession (61 * msPerDay)] workingManager).
Proof.
  apply X3_store_invariant. split.
  - constructor.
  - vm_compute. discriminate.
Defined.

(** X4.  Ending the session archives the open session once: a second call
    changes nothing and does not save.  A session started at [now1] and ended
    at [now2] is archived behind the session it replaced, closed at [now2]
    with a counter of 0 when no event came in between. *)
Theorem X4_session_is_archived_once now1 now2 sid ws proj dm :
  endCurrentSession now2 (endCurrentSession now1 dm).1 = ((endCurrentSession now1 dm).1, false) ∧
  currentSession (endCurrentSession now1 dm).1 = None ∧
  (currentSession dm = None → endCurrentSession now1 dm = (dm, false)) ∧
  sessions (endCurrentSession now2 (startNewSession now1 sid ws proj dm)).1
    = sessions dm
      ++ match currentSession dm with Some s => [closeSession now1 s] | None => [] end
      ++ [mkSession sid now1 (Some now2) ws proj 0 0] ∧
  events (endCurrentSession now2 (startNewSession now1 sid ws proj dm)).1 = events dm.
Proof.
  unfold endCurrentSession, startNewSession.
  destruct (currentSession dm) as [s|] eqn:Hs; simpl.
  - split; [done|]. split; [done|]. split; [done|]. split; [|done].
    by rewrite <- app_assoc.
  - rewrite Hs. by repeat split.
Qed.

Lemma X4_session_is_archived_once_witness :
  endCurrentSession 9000 (runOps [OpEndCurrentSession 8000] workingManager)
    = (runOps [OpEndCurrentSession 8000] workingManager, false).
Proof.
  apply (X4_session_is_archived_once 8000 9000 "s"%string None None workingManager).
Defined.

(** ** Retention *)

Lemma cleanOldData_events now days dm :
  events (cleanOldData now days dm).1
    = filter (λ e, retentionCutoff now days ≤ timestamp e) (events dm).
Proof.
  simpl. apply filter_reflect. intros e. unfold retentionCutoff. by rewrite Z.leb_le.
Qed.

Lemma cleanOldData_sessions now days dm :
  sessions (cleanOldData now days dm).1
    = filter (λ s, retentionCutoff now days ≤ startTime s) (sessions dm).
Proof.
  simpl. apply filter_reflect. intros e. unfold retentionCutoff. by rewrite Z.leb_le.
Qed.

Lemma cleanOldData_saved now days dm :
  (cleanOldData now days dm).2 = false ↔
  Forall (λ e, retentionCutoff now days ≤ timestamp e) (events dm) ∧
  Forall (λ s, retentionCutoff now days ≤ startTime s) (sessions dm).
Proof.
  unfold cleanOldData, retentionCutoff; simpl.
  rewrite orb_false_iff, !negb_false_iff, !filter_length_eq.
  split; intros [He Hs]; split;
    (eapply Forall_impl; [eassumption|]); simpl; intros ?; by rewrite Z.leb_le.
Qed.

Lemma all_recent_or_older {A : Type} (key : A → Z) (c : Z) (l : list A) :
  Forall (λ x, c ≤ key x) l ∨ ∃ x, x ∈ l ∧ key x < c.
Proof.
  induction l as [|x l [IH|(y & Hy & Hlt)]].
  - left. constructor.
  - destruct (Z.le_gt_cases c (key x)); [left; by constructor|].
    right. exists x. split; [left | lia].
  - right. exists y. split; [by right | done].
Qed.

Lemma List_filter_idem {A : Type} (f : A → bool) l :
  List.filter f (List.filter f l) = List.filter f l.
Proof.
  apply filter_all. induction l as [|x l IH]; simpl; [constructor|].
  destruct (f x) eqn:Hx; [by constructor | done].
Qed.

(** X5.  [cleanOldData] keeps, in order, exactly the events and sessions that
    are not older than the retention cutoff, and leaves the open session
    alone.  It saves exactly when it dropped something; run again at once it
    changes nothing and does not save; and a later cleanup makes an earlier
    one redundant. *)
Theorem X5_cleanup_by_retention now days dm :
  events (cleanOldData now days dm).1
    = filter (λ e, retentionCutoff now days ≤ timestamp e) (events dm) ∧
  sessions (cleanOldData now days dm).1
    = filter (λ s, retentionCutoff now days ≤ startTime s) (sessions dm) ∧
  currentSession (cleanOldData now days dm).1 = currentSession dm ∧
  ((cleanOldData now days dm).2 = true ↔
     (∃ e, e ∈ events dm ∧ timestamp e < retentionCutoff now days) ∨
     (∃ s, s ∈ sessions dm ∧ startTime s < retentionCutoff now days)) ∧
  cleanOldData now days (cleanOldData now days dm).1 = ((cleanOldData now days dm).1, false) ∧
  (∀ later, now ≤ later →
     (cleanOldData later days (cleanOldData now days dm).1).1 = (cleanOldData later days dm).1).
Proof.
  split; [apply cleanOldData_events|]. split; [apply cleanOldData_sessions|].
  split; [done|]. split; [|split].
  - split.
    + intros Hsaved.
      destruct (all_recent_or_older timestamp (retentionCutoff now days) (events dm))
        as [He|He]; [|by left].
      destruct (all_recent_or_older startTime (retentionCutoff now days) (sessions dm))
        as [Hs|Hs]; [|by right].
      rewrite (proj2 (cleanOldData_saved now days dm)) in Hsaved; done.
    + intros Hold. destruct (cleanOldData now days dm).2 eqn:Hsaved; [done|].
      apply cleanOldData_saved in Hsaved as [He Hs].
      rewrite Forall_forall in He. rewrite Forall_forall in Hs.
      destruct Hold as [(e & Hin & Hlt)|(s & Hin & Hlt)].
      * specialize (He e Hin). lia.
      * specialize (Hs s Hin). lia.
  - unfold cleanOldData; simpl. rewrite !List_filter_idem, !Nat.eqb_refl. done.
  - intros later Hlater. unfold cleanOldData; simpl. rewrite !filter_twice.
    unfold setSessions, setEvents; simpl. f_equal.
    + apply filter_ext. intros e.
      destruct (Z.leb_spec (now - days * 24 * 60 * 60 * 1000) (timestamp e)),
               (Z.leb_spec (later - days * 24 * 60 * 60 * 1000) (timestamp e)); simpl; lia || done.
    + apply filter_ext. intros s.
      destruct (Z.leb_spec (now - days * 24 * 60 * 60 * 1000) (startTime s)),
               (Z.leb_spec (later - days * 24 * 60 * 60 * 1000) (startTime s)); simpl; lia || done.
Qed.

Lemma X5_cleanup_by_retention_witness :
  (cleanOldData (60 * msPerDay) 30 agedManager).2 = true ∧
  (cleanOldData (70 * msPerDay) 30 (cleanOldData (60 * msPerDay) 30 agedManager).1).1
    = (cleanOldData (70 * msPerDay) 30 agedManager).1.
Proof.
  destruct (X5_cleanup_by_retention (60 * msPerDay) 30 agedManager)
    as (_ & _ & _ & Hsaved & _ & Hlater).
  split.
  - apply Hsaved. left. exists (ev 1000 FILE_EDIT). split; [left | vm_compute; reflexivity].
  - apply Hlater. vm_compute. discriminate.
Defined.

(** X6.  [loadData] never fails.  When either of the two documents cannot be
    read, both logs start empty and nothing is saved, also when the other
    document was read.  When both can be read, the logs are the retained
    part of what the documents hold (nothing for a document without its
    array), whatever was in memory before. *)
Theorem X6_load_is_all_or_nothing now days eventsFile sessionsFile dm :
  (eventsFile = Unreadable ∨ sessionsFile = Unreadable →
     events (loadData now days eventsFile sessionsFile dm).1 = [] ∧
     sessions (loadData now days eventsFile sessionsFile dm).1 = [] ∧
     (loadData now days eventsFile sessionsFile dm).2 = false) ∧
  (∀ eventsField sessionsField,
     eventsFile = Document eventsField → sessionsFile = Document sessionsField →
     events (loadData now days eventsFile sessionsFile dm).1
       = filter (λ e, retentionCutoff now days ≤ timestamp e) (default [] eventsField) ∧
     sessions (loadData now days eventsFile sessionsFile dm).1
       = filter (λ s, retentionCutoff now days ≤ startTime s) (default [] sessionsField)).
Proof.
  split.
  - intros [-> | ->]; [done|]. by destruct eventsFile.
  - intros eventsField sessionsField -> ->. unfold loadData.
    by rewrite cleanOldData_events, cleanOldData_sessions.
Qed.

Lemma X6_load_is_all_or_nothing_witness :
  events (loadData 5000 30 (Document (Some [ev 1000 FILE_EDIT])) Unreadable workingManager).1 = [] ∧
  events (loadData 5000 30 (Document (Some [ev 1000 FILE_EDIT])) (Document None) workingManager).1
    = [ev 1000 FILE_EDIT].
Proof.
  split.
  - apply (X6_load_is_all_or_nothing 5000 30 (Document (Some [ev 1000 FILE_EDIT]))
             Unreadable workingManager). by right.
  - rewrite (proj1 (proj2 (X6_load_is_all_or_nothing 5000 30
                (Document (Some [ev 1000 FILE_EDIT])) (Document None) workingManager)
                (Some [ev 1000 FILE_EDIT]) None eq_refl eq_refl)).
    vm_compute. reflexivity.
Defined.

(** ** Session token *)

Lemma runTokenOps_snoc ops op st :
  runTokenOps (ops ++ [op]) st = runTokenOp (runTokenOps ops st) op.
Proof. unfold runTokenOps. by rewrite fold_left_app. Qed.

(** What holds of a client and the global state from the construction of
    the client on: the token of the client is the stored one, and a token
    that lets a request through comes with its header. *)
Lemma client_invariant stored ops :
  clientToken (runTokenOps ops (newApiClient stored, stored)).1
    = (runTokenOps ops (newApiClient stored, stored)).2 ∧
  (tokenMissing (runTokenOps ops (newApiClient stored, stored)).2 = false →
   runTokenOps ops (newApiClient stored, stored)
   = (newApiClient (runTokenOps ops (newApiClient stored, stored)).2,
      (runTokenOps ops (newApiClient stored, stored)).2)).
Proof.
  induction ops as [|op ops IH] using rev_ind.
  - split; [done|]. intros _. done.
  - rewrite runTokenOps_snoc. destruct op as [token|]; simpl.
    + split; [done|]. intros Htoken. unfold newApiClient. simpl in *. by rewrite Htoken.
    + split; [done|]. intros [=].
Qed.

Lemma last_token_op stored ops :
  (runTokenOps ops (newApiClient stored, stored)).2
  = match last ops with
    | Some (OpSetToken token) => Some token
    | Some OpClearToken => None
    | None => stored
    end.
Proof.
  destruct ops as [|op ops] using rev_ind; [done|].
  rewrite runTokenOps_snoc, last_snoc. by destruct op.
Qed.

(** X7.  After any series of [setSessionToken] and [clearSessionToken] calls
    on a client, the token of the client is the one in the global state,
    which is that of the last call (none after a clear); a token that is not
    empty comes with the header [Bearer <token>], and a client constructed
    afterwards from the global state is the same client.  Without a token, or
    with the empty one, the client sends no sync request and answers "Not
    authenticated", and [testConnection] is false.  A [DataManager] reads the
    token only when it constructs its own client: one constructed while no
    token is stored sends no request, whatever is set on another client
    later, and one constructed after a token was stored sends its data. *)
Theorem X7_client_token stored ops :
  clientToken (runTokenOps ops (newApiClient stored, stored)).1
    = (runTokenOps ops (newApiClient stored, stored)).2 ∧
  (runTokenOps ops (newApiClient stored, stored)).2
    = match last ops with
      | Some (OpSetToken token) => Some token
      | Some OpClearToken => None
      | None => stored
      end ∧
  (∀ token, (runTokenOps ops (newApiClient stored, stored)).2 = Some token →
            token ≠ EmptyString →
            authorization (runTokenOps ops (newApiClient stored, stored)).1
              = Some (bearer token) ∧
            newApiClient (Some token) = (runTokenOps ops (newApiClient stored, stored)).1) ∧
  (tokenMissing (runTokenOps ops (newApiClient stored, stored)).2 = true →
   ∀ post evs sess get,
     syncActivityData (clientToken (runTokenOps ops (newApiClient stored, stored)).1)
                      post evs sess
       = (Returned (mkResult false None (Some "Not authenticated"%string)), []) ∧
     testConnection (runTokenOps ops (newApiClient stored, stored)).1 get = false) ∧
  (∀ now post dm,
     sessionToken dm = clientToken (newApiClient stored) →
     tokenMissing stored = true →
     (syncDataWithAPI now post dm).2 = [] ∧ (syncDataWithAPI now post dm).1.2 = dm) ∧
  (∀ now post dm,
     sessionToken dm
       = clientToken (newApiClient (runTokenOps ops (newApiClient stored, stored)).2) →
     tokenMissing (runTokenOps ops (newApiClient stored, stored)).2 = false →
     enableSync dm = true →
     ¬ (unsyncedEvents dm = [] ∧ unsyncedSessions dm = []) →
     (syncDataWithAPI now post dm).2 = [(unsyncedEvents dm, unsyncedSessions dm)]).
Proof.
  destruct (client_invariant stored ops) as [Htoken Hsame].
  split; [done|]. split; [apply last_token_op|]. split; [|split; [|split]].
  - intros token Hstored Hne.
    assert (Hpresent : tokenMissing (runTokenOps ops (newApiClient stored, stored)).2 = false).
    { rewrite Hstored. simpl. by apply bool_decide_eq_false. }
    rewrite (Hsame Hpresent) at 1 2. rewrite Hstored. cbn [fst].
    split; [|done]. unfold newApiClient. cbn [authorization tokenMissing].
    by rewrite bool_decide_eq_false_2.
  - intros Hmissing post evs sess get. rewrite Htoken.
    unfold syncActivityData, testConnection. by rewrite Htoken, Hmissing.
  - intros now post dm Hdm Hmissing. rewrite syncDataWithAPI_cases, Hdm.
    cbn [newApiClient clientToken]. rewrite Hmissing.
    destruct (enableSync dm); simpl; [|done]. by case_bool_decide.
  - intros now post dm Hdm Hpresent Henabled Hdata.
    rewrite syncDataWithAPI_cases, Hdm. cbn [newApiClient clientToken].
    rewrite Hpresent, Henabled, bool_decide_eq_false_2 by done. simpl.
    by destruct (post _ _).
Qed.

Lemma X7_client_token_witness :
  (syncDataWithAPI 9000 remoteUp pendingManager).2
  = [(unsyncedEvents pendingManager, unsyncedSessions pendingManager)].
Proof.
  apply (proj2 (proj2 (proj2 (proj2 (proj2
           (X7_client_token None [OpClearToken; OpSetToken "token"]))))) 9000 remoteUp
           pendingManager).
  - reflexivity.
  - reflexivity.
  - reflexivity.
  - vm_compute. intros [[=] _].
Defined.

(** * Further properties of the statistics engine *)

(** ** Order of arrival *)

Lemma insertBy_stamps_comm (x y : Z) l :
  insertBy (λ z : Z, z) x (insertBy (λ z : Z, z) y l)
  = insertBy (λ z : Z, z) y (insertBy (λ z : Z, z) x l).
Proof.
  induction l as [|z l IH]; simpl.
  - destruct (Z.leb_spec x y), (Z.leb_spec y x); try done; try lia.
    by replace y with x by lia.
  - destruct (Z.leb_spec y z), (Z.leb_spec x z); simpl.
    + destruct (Z.leb_spec x y), (Z.leb_spec y x); simpl;
        repeat (match goal with |- context [Z.leb ?a ?b] => destruct (Z.leb_spec a b) end);
        try done; try lia.
      by replace y with x by lia.
    + destruct (Z.leb_spec x y); [lia|]. simpl.
      by destruct (Z.leb_spec x z), (Z.leb_spec y z); try lia.
    + destruct (Z.leb_spec y x); [lia|]. simpl.
      by destruct (Z.leb_spec x z), (Z.leb_spec y z); try lia.
    + destruct (Z.leb_spec x z), (Z.leb_spec y z); try lia. by rewrite IH.
Qed.

(** The sorted arrangement of time stamps depends on the multiset only. *)
Lemma sortedStamps_perm l l' : l ≡ₚ l' → sortedStamps l = sortedStamps l'.
Proof.
  unfold sortedStamps. induction 1 as [|x l l' _ IH|x y l|l l' l'' _ IH1 _ IH2]; simpl.
  - done.
  - by rewrite IH.
  - apply insertBy_stamps_comm.
  - by rewrite IH1.
Qed.

Lemma map_insertBy {A : Type} (key : A → Z) x l :
  map key (insertBy key x l) = insertBy (λ z : Z, z) (key x) (map key l).
Proof.
  induction l as [|y l IH]; simpl; [done|].
  destruct (key x <=? key y); simpl; [done|]. by rewrite IH.
Qed.

Lemma map_sortBy {A : Type} (key : A → Z) l :
  map key (sortBy key l) = sortedStamps (map key l).
Proof.
  unfold sortedStamps. induction l as [|x l IH]; simpl; [done|].
  by rewrite map_insertBy, IH.
Qed.

Lemma activeStamps_sorted events :
  activeStamps events = sortedStamps (map timestamp (List.filter isActiveType events)).
Proof.
  unfold activeStamps, sortByTimestamp. by rewrite <- sortBy_filter, map_sortBy.
Qed.

Lemma List_filter_perm {A : Type} (f : A → bool) l l' :
  l ≡ₚ l' → List.filter f l ≡ₚ List.filter f l'.
Proof.
  induction 1 as [|x l l' _ IH|x y l|l l' l'' _ IH1 _ IH2]; simpl.
  - done.
  - destruct (f x); [by constructor | done].
  - destruct (f x), (f y); try done. apply Permutation_swap.
  - by rewrite IH1.
Qed.

Lemma List_map_perm {A B : Type} (g : A → B) l l' : l ≡ₚ l' → map g l ≡ₚ map g l'.
Proof.
  induction 1 as [|x l l' _ IH|x y l|l l' l'' _ IH1 _ IH2]; simpl.
  - done.
  - by constructor.
  - apply Permutation_swap.
  - by rewrite IH1.
Qed.

Lemma calculateActiveTime_perm events events' :
  events ≡ₚ events' → calculateActiveTime events = calculateActiveTime events'.
Proof.
  intros H. rewrite !calculateActiveTime_gaps, !activeStamps_sorted.
  by rewrite (sortedStamps_perm _ _ (List_map_perm timestamp _ _ (List_filter_perm isActiveType _ _ H))).
Qed.

Lemma weightedSum_perm events events' :
  events ≡ₚ events' → weightedSum events = weightedSum events'.
Proof.
  unfold weightedSum.
  induction 1 as [|x l l' _ IH|x y l|l l' l'' _ IH1 _ IH2]; simpl; lia.
Qed.

Lemma calculateProductivityScore_perm rnd events events' :
  events ≡ₚ events' →
  calculateProductivityScore rnd events = calculateProductivityScore rnd events'.
Proof.
  intros H. unfold calculateProductivityScore.
  by rewrite !score_loop, (weightedSum_perm _ _ H), (Permutation_length H).
Qed.

(** X8.  The order in which events arrive does not matter: two logs with the
    same events in different orders have the same active time, the same
    coding time and the same productivity score. *)
Theorem X8_statistics_ignore_arrival_order rnd events events' :
  events ≡ₚ events' →
  calculateActiveTime events = calculateActiveTime events' ∧
  calculateCodingTime events = calculateCodingTime events' ∧
  calculateProductivityScore rnd events = calculateProductivityScore rnd events'.
Proof.
  intros H. split; [by apply calculateActiveTime_perm|]. split.
  - unfold calculateCodingTime. by apply calculateActiveTime_perm, List_filter_perm.
  - by apply calculateProductivityScore_perm.
Qed.

Lemma X8_statistics_ignore_arrival_order_witness :
  calculateActiveTime burstLog = calculateActiveTime shuffledBurstLog.
Proof.
  apply (X8_statistics_ignore_arrival_order (λ x, x) burstLog shuffledBurstLog).
  unfold burstLog, shuffledBurstLog.
  eapply perm_trans; [apply perm_skip, perm_swap | apply perm_swap].
Defined.

(** ** Bounds on active and debug time *)

Lemma filtered_stamps_sorted {A : Type} (key : A → Z) (f : A → bool) l :
  StronglySorted (keyLe key) l → StronglySorted Z.le (map key (List.filter f l)).
Proof.
  induction 1 as [|x l Hs IH Hx]; simpl; [constructor|].
  destruct (f x); [|done]. simpl. constructor; [done|].
  apply Forall_forall. intros t Ht.
  apply list_elem_of_In, in_map_iff in Ht as (y & <- & Hy).
  apply filter_In in Hy as [Hy _]. apply list_elem_of_In in Hy.
  rewrite Forall_forall in Hx. by apply Hx.
Qed.

Lemma gaps_within_span hi l a :
  StronglySorted Z.le (a :: l) → Forall (λ t, t ≤ hi) (a :: l) →
  0 ≤ sumZ (map countedGap (adjacentPairs (a :: l))) ≤ hi - a.
Proof.
  revert a. induction l as [|b l IH]; intros a Hs Hhi.
  - apply Forall_cons in Hhi as [Ha _]. simpl. lia.
  - apply StronglySorted_inv in Hs as [Hs Hab]. apply Forall_cons in Hab as [Hab _].
    apply Forall_cons in Hhi as [_ Hhi].
    specialize (IH b Hs Hhi).
    rewrite adjacentPairs_cons, map_cons, sumZ_cons.
    pose proof (countedGap_nonneg a b Hab).
    assert (countedGap (a, b) ≤ b - a) by (unfold countedGap; simpl; case_decide; lia).
    lia.
Qed.

Lemma active_time_span lo hi events :
  lo ≤ hi →
  Forall (λ e, isActiveType e = true → lo ≤ timestamp e ≤ hi) events →
  0 ≤ calculateActiveTime events ≤ hi - lo.
Proof.
  intros Hlohi Hall. rewrite calculateActiveTime_gaps. unfold activeStamps.
  assert (Hsorted := filtered_stamps_sorted timestamp isActiveType _
                       (sortBy_sorted timestamp events)).
  assert (Hrange : Forall (λ t, lo ≤ t ≤ hi)
                     (map timestamp (List.filter isActiveType (sortByTimestamp events)))).
  { apply Forall_forall. intros t Ht.
    apply list_elem_of_In, in_map_iff in Ht as (e & <- & He).
    apply filter_In in He as [He Hact]. apply list_elem_of_In in He.
    apply (sortBy_Forall timestamp) in Hall. rewrite Forall_forall in Hall.
    by apply Hall. }
  unfold sortByTimestamp in *.
  destruct (map timestamp (List.filter isActiveType (sortBy timestamp events))) as [|a l].
  - simpl. lia.
  - assert (Ha : lo ≤ a ≤ hi) by (by apply Forall_cons in Hrange as [? _]).
    pose proof (gaps_within_span hi l a Hsorted) as Hgap.
    destruct Hgap; [|lia].
    eapply Forall_impl; [exact Hrange|]. simpl. intros; lia.
Qed.

(** X9.  Active time is never negative and never more than the span of time
    that the qualifying events lie in: with every qualifying event between
    [lo] and [hi], the active time is between 0 and [hi - lo].  In particular
    a slice whose qualifying events all carry one time stamp has no active
    time. *)
Theorem X9_active_time_within_span events :
  (∀ lo hi, lo ≤ hi →
     Forall (λ e, isActiveType e = true → lo ≤ timestamp e ≤ hi) events →
     0 ≤ calculateActiveTime events ≤ hi - lo) ∧
  (∀ t, Forall (λ e, isActiveType e = true → timestamp e = t) events →
        calculateActiveTime events = 0).
Proof.
  split.
  - intros lo hi. apply active_time_span.
  - intros t Hall.
    pose proof (active_time_span t t events ltac:(lia)) as Hspan.
    destruct Hspan; [|lia].
    eapply Forall_impl; [exact Hall|]. simpl. intros e He Hact. specialize (He Hact). lia.
Qed.

Lemma X9_active_time_within_span_witness :
  0 ≤ calculateActiveTime burstLog ≤ 401000 - 1000 ∧
  calculateActiveTime [ev 1000 FILE_EDIT; ev 2000 FILE_SAVE; ev 1000 FOCUS_GAINED] = 0.
Proof.
  split.
  - apply (proj1 (X9_active_time_within_span burstLog)); [lia|].
    repeat constructor; simpl; lia.
  - apply (proj2 (X9_active_time_within_span _) 1000).
    repeat constructor; simpl; intros; done.
Defined.

Lemma selection_active_le (sel : ActivityEvent → bool) events :
  Forall (λ e, 0 < timestamp e) events →
  calculateActiveTime (List.filter sel events) ≤ calculateActiveTime events.
Proof.
  intros Hpos. unfold calculateActiveTime, sortByTimestamp.
  rewrite sortBy_filter.
  apply coding_le_active_loop.
  - apply sortBy_sorted.
  - by apply sortBy_Forall.
  - apply sortBy_Forall. eapply Forall_impl; [exact Hpos|]. simpl; intros; lia.
  - done.
  - intros; lia.
Qed.

Lemma selection_active_le_prop (P : ActivityEvent → Prop) `{∀ e, Decision (P e)} events :
  Forall (λ e, 0 < timestamp e) events →
  calculateActiveTime (filter P events) ≤ calculateActiveTime events.
Proof.
  intros Hpos.
  rewrite <- (filter_reflect (λ e, bool_decide (P e)) P events)
    by (intros; apply bool_decide_eq_true).
  by apply selection_active_le.
Qed.

(** X10.  For events with positive time stamps, the active time of any
    selection of the events, and of the events that the selection leaves
    out, is at most the active time of all of them: no bucket of a histogram
    and no filtered view can show more active time than the whole slice. *)
Theorem X10_selection_has_less_active_time (sel : ActivityEvent → bool) events :
  Forall (λ e, 0 < timestamp e) events →
  calculateActiveTime (List.filter sel events) ≤ calculateActiveTime events ∧
  calculateActiveTime (List.filter (λ e, negb (sel e)) events) ≤ calculateActiveTime events.
Proof. intros Hpos. split; by apply selection_active_le. Qed.

Lemma X10_selection_has_less_active_time_witness :
  calculateActiveTime (List.filter (λ e, timestamp e <? 100000) burstLog)
  ≤ calculateActiveTime burstLog.
Proof.
  apply (X10_selection_has_less_active_time (λ e, timestamp e <? 100000) burstLog).
  repeat constructor; simpl; lia.
Defined.

Lemma debugLoop_no_stop l a s :
  Forall (λ e, type e ≠ DEBUG_STOP) l → (fold_left debugStep l (a, s)).1 = a.
Proof.
  intros H. revert a s. induction H as [|e l He Hl IH]; intros a s; [done|].
  rewrite loop_cons.
  destruct (decide (type e = DEBUG_START)) as [Hs|Hs].
  - rewrite debugStep_start by done. apply IH.
  - rewrite debugStep_other by done. apply IH.
Qed.

Lemma debugLoop_within_span lo hi l :
  StronglySorted (keyLe timestamp) l →
  ∀ a s t,
    Forall (λ e, t ≤ timestamp e ≤ hi) l →
    t ≤ hi → 0 ≤ a → (s ≠ 0 → s ≤ t) →
    a ≤ (if s =? 0 then t else s) - lo →
    0 ≤ (fold_left debugStep l (a, s)).1 ≤ hi - lo.
Proof.
  induction 1 as [|e l Hs IH He]; intros a s t Hrange Ht Ha Hst Hbound.
  - simpl. destruct (Z.eqb_spec s 0); lia.
  - apply Forall_cons in Hrange as [Hx Hrange]. rewrite loop_cons.
    assert (Hnext : Forall (λ e', timestamp e ≤ timestamp e' ≤ hi) l).
    { rewrite Forall_forall in He, Hrange |- *. intros e' He'.
      specialize (He e' He'). specialize (Hrange e' He'). unfold keyLe in He. lia. }
    destruct (decide (type e = DEBUG_START)) as [Hstart|Hstart].
    + rewrite debugStep_start by done.
      apply (IH a (timestamp e) (timestamp e)); [done | lia | done | done |].
      destruct (Z.eqb_spec s 0), (Z.eqb_spec (timestamp e) 0); lia.
    + destruct (decide (type e = DEBUG_STOP)) as [Hstop|Hstop].
      * destruct (Z.eq_dec s 0) as [->|Hopen].
        -- destruct (debugStep_stop_closed a e) as [->|]; [|done].
           apply (IH a 0 (timestamp e)); [done | lia | done | done |]. simpl in *. lia.
        -- rewrite debugStep_stop_open by done.
           specialize (Hst Hopen). destruct (Z.eqb_spec s 0); [done|].
           apply (IH _ 0 (timestamp e)); [done | lia | lia | done |]. simpl. lia.
      * rewrite debugStep_other by done.
        apply (IH a s (timestamp e)); [done | lia | done | intros; specialize (Hst ltac:(done)); lia |].
        destruct (Z.eqb_spec s 0); lia.
Qed.

(** X11.  Debug time is never negative and never more than the span of time
    that the events lie in.  Without a debug stop (a session that is still
    running) or without a debug start it is 0. *)
Theorem X11_debug_time_within_span events :
  (∀ lo hi, lo ≤ hi → Forall (λ e, lo ≤ timestamp e ≤ hi) events →
            0 ≤ calculateDebugTime events ≤ hi - lo) ∧
  (Forall (λ e, type e ≠ DEBUG_STOP) events → calculateDebugTime events = 0) ∧
  (Forall (λ e, type e ≠ DEBUG_START) events → calculateDebugTime events = 0).
Proof.
  unfold calculateDebugTime, sortByTimestamp. split; [|split].
  - intros lo hi Hlohi Hall.
    apply (debugLoop_within_span lo hi _ (sortBy_sorted timestamp events) 0 0 lo);
      [by apply sortBy_Forall | done | done | done | simpl; lia].
  - intros H. by apply debugLoop_no_stop, sortBy_Forall.
  - intros H. by rewrite debugLoop_no_start by (by apply sortBy_Forall).
Qed.

Lemma X11_debug_time_within_span_witness :
  0 ≤ calculateDebugTime debugLog ≤ 6000 - 1000 ∧
  calculateDebugTime [ev 1000 DEBUG_START; ev 2000 FILE_EDIT] = 0 ∧
  calculateDebugTime [ev 1000 FILE_EDIT; ev 2000 DEBUG_STOP] = 0.
Proof.
  split; [|split].
  - apply (proj1 (X11_debug_time_within_span debugLog)); [lia|].
    repeat constructor; simpl; lia.
  - apply (proj1 (proj2 (X11_debug_time_within_span _))).
    repeat constructor; discriminate.
  - apply (proj2 (proj2 (X11_debug_time_within_span _))).
    repeat constructor; discriminate.
Defined.

(** ** Maps in insertion order *)

Section AssocMapFacts.
Context {K V : Type} `{EqDecision K}.
Implicit Types (m : list (K * V)) (k : K) (v : V).

Lemma kGet_kSet m k v k' :
  kGet (kSet m k v) k' = if decide (k = k') then Some v else kGet m k'.
Proof.
  induction m as [|[k0 v0] m IH]; simpl.
  - by destruct (decide (k = k')).
  - destruct (decide (k0 = k)) as [->|Hne]; simpl.
    + by destruct (decide (k = k')).
    + rewrite IH. destruct (decide (k0 = k')) as [->|]; [|done].
      by rewrite decide_False.
Qed.

Lemma kSet_keys m k v :
  map fst (kSet m k v)
  = match kGet m k with Some _ => map fst m | None => map fst m ++ [k] end.
Proof.
  induction m as [|[k0 v0] m IH]; simpl; [done|].
  destruct (decide (k0 = k)) as [->|Hne]; simpl; [done|].
  rewrite IH. by destruct (kGet m k).
Qed.

Lemma kGet_None_keys m k : kGet m k = None ↔ k ∉ map fst m.
Proof.
  induction m as [|[k0 v0] m IH]; simpl.
  - split; [intros _; apply not_elem_of_nil | done].
  - rewrite not_elem_of_cons. destruct (decide (k0 = k)) as [->|Hne].
    + split; [done | intros [? _]; done].
    + rewrite IH. split; [by split | by intros [_ ?]].
Qed.

Lemma kSet_NoDup m k v : NoDup (map fst m) → NoDup (map fst (kSet m k v)).
Proof.
  intros Hnd. rewrite kSet_keys. destruct (kGet m k) eqn:Hk; [done|].
  apply NoDup_app. split; [done|]. split; [|apply NoDup_singleton].
  intros k' Hk' ->%list_elem_of_singleton. by apply kGet_None_keys in Hk.
Qed.

(** With distinct keys, the entries are the lookups. *)
Lemma kGet_entry m k v : NoDup (map fst m) → (k, v) ∈ m ↔ kGet m k = Some v.
Proof.
  induction m as [|[k0 v0] m IH]; simpl; intros Hnd.
  - split; [by intros ?%elem_of_nil | done].
  - apply NoDup_cons in Hnd as [Hk0 Hnd]. rewrite elem_of_cons, IH by done.
    destruct (decide (k0 = k)) as [->|Hne].
    + split.
      * intros [[= ->]|Hget]; [done|].
        exfalso. apply Hk0. apply dec_stable. intros Hnot.
        apply kGet_None_keys in Hnot. congruence.
      * intros [= ->]. by left.
    + split; [intros [[= ? ?]|?]; done | by right].
Qed.

Context {E : Type} (key : E → option K) (upd : option V → E → V).

Lemma tally_keys_NoDup l m :
  NoDup (map fst m) → NoDup (map fst (fold_left (tallyStep key upd) l m)).
Proof.
  revert m. induction l as [|e l IH]; intros m Hm; [done|].
  simpl. apply IH. unfold tallyStep. destruct (key e); [by apply kSet_NoDup | done].
Qed.

(** The value that the bookkeeping ends with under a key is the fold of
    [upd] over the elements with that key, in their order. *)
Lemma tally_lookup l m k :
  kGet (fold_left (tallyStep key upd) l m) k
  = fold_left (λ o e, Some (upd o e))
              (List.filter (λ e, bool_decide (key e = Some k)) l) (kGet m k).
Proof.
  revert m. induction l as [|e l IH]; intros m; [done|].
  rewrite loop_cons, IH. simpl List.filter. unfold tallyStep.
  destruct (key e) as [k'|] eqn:Hk.
  - rewrite kGet_kSet. case_bool_decide as Heq.
    + injection Heq as ->. simpl. by rewrite decide_True.
    + rewrite decide_False; [done|]. congruence.
  - by rewrite bool_decide_eq_false_2.
Qed.
End AssocMapFacts.

(** ** The first entries of a ranking *)

Section Ranking.
Context {R : Type} (score : R → Z).
Implicit Types (l : list R) (n : nat).

Lemma ranking_sorted l : StronglySorted (rankedBefore score) (sortBy (λ r, - score r) l).
Proof.
  pose proof (sortBy_sorted (λ r, - score r) l) as H.
  induction H as [|x s Hs IH Hx]; constructor; [done|].
  eapply Forall_impl; [exact Hx|]. unfold keyLe, rankedBefore. simpl. intros; lia.
Qed.

Lemma StronglySorted_take (rel : R → R → Prop) l n :
  StronglySorted rel l → StronglySorted rel (take n l).
Proof.
  intros H. revert n. induction H as [|x s Hs IH Hx]; intros [|n]; simpl; try constructor.
  - apply IH.
  - apply Forall_forall. intros y Hy. rewrite Forall_forall in Hx. apply Hx.
    by apply (subseteq_take n s).
Qed.

Lemma StronglySorted_app_order (rel : R → R → Prop) l1 l2 a b :
  StronglySorted rel (l1 ++ l2) → a ∈ l1 → b ∈ l2 → rel a b.
Proof.
  induction l1 as [|x l1 IH]; simpl; intros Hs Ha Hb; [by apply elem_of_nil in Ha|].
  apply StronglySorted_inv in Hs as [Hs Hx].
  apply elem_of_cons in Ha as [->|Ha]; [|by apply IH].
  rewrite Forall_forall in Hx. apply Hx. apply elem_of_app. by right.
Qed.

Lemma top_length l n : (length (take n (sortBy (λ r, - score r) l)) ≤ n)%nat.
Proof. rewrite length_take. lia. Qed.

Lemma top_sorted l n : StronglySorted (rankedBefore score) (take n (sortBy (λ r, - score r) l)).
Proof. apply StronglySorted_take, ranking_sorted. Qed.

Lemma top_elem l n r : r ∈ take n (sortBy (λ r, - score r) l) → r ∈ l.
Proof.
  intros Hr. apply (subseteq_take n) in Hr. by rewrite sortBy_perm in Hr.
Qed.

(** Whatever is left out scores no more than anything that is in. *)
Lemma top_dominates l n r r' :
  r ∈ take n (sortBy (λ r, - score r) l) → r' ∈ l →
  r' ∉ take n (sortBy (λ r, - score r) l) → score r' ≤ score r.
Proof.
  intros Hr Hr' Hout.
  rewrite <- (sortBy_perm (λ r, - score r) l) in Hr'.
  rewrite <- (take_drop n (sortBy (λ r, - score r) l)) in Hr'.
  apply elem_of_app in Hr' as [?|Hdrop]; [done|].
  apply (StronglySorted_app_order (rankedBefore score)
           (take n (sortBy (λ r, - score r) l)) (drop n (sortBy (λ r, - score r) l)) r r');
    [|done|done].
  rewrite take_drop. apply ranking_sorted.
Qed.

Lemma top_all l n : (length l ≤ n)%nat → take n (sortBy (λ r, - score r) l) ≡ₚ l.
Proof.
  intros Hn. rewrite take_ge; [apply sortBy_perm|].
  by rewrite (Permutation_length (sortBy_perm _ l)).
Qed.

(** A left-out entry means that the ranking is full. *)
Lemma top_full l n r' :
  r' ∈ l → r' ∉ take n (sortBy (λ r, - score r) l) →
  length (take n (sortBy (λ r, - score r) l)) = n.
Proof.
  intros Hin Hout. rewrite length_take.
  destruct (decide (length l ≤ n)%nat) as [Hle|Hgt].
  - exfalso. apply Hout. by rewrite top_all.
  - rewrite (Permutation_length (sortBy_perm _ l)). lia.
Qed.

Lemma top_names_NoDup {N : Type} (name : R → N) l n :
  NoDup (map name l) → NoDup (map name (take n (sortBy (λ r, - score r) l))).
Proof.
  intros Hnd.
  assert (Hs : NoDup (map name (sortBy (λ r, - score r) l))).
  { by rewrite (List_map_perm name _ _ (sortBy_perm _ l)). }
  rewrite <- (take_drop n (sortBy (λ r, - score r) l)), map_app in Hs.
  by apply NoDup_app in Hs as [? _].
Qed.
End Ranking.

(** ** Rankings *)

Lemma count_fold {E : Type} (l : list E) (o : option Z) :
  fold_left (λ o (_ : E), Some (default 0 o + 1)) l o
  = match l with [] => o | _ => Some (default 0 o + Z.of_nat (length l)) end.
Proof.
  revert o. induction l as [|e l IH]; intros o; [done|].
  simpl fold_left. rewrite IH. destruct l; simpl; f_equal; lia.
Qed.

Lemma executed_command_events events c :
  List.filter (λ e, bool_decide (executedCommandKey e = Some c))
    (List.filter (λ e, bool_decide (type e = COMMAND_EXECUTE)
                       && isCommandActivityData (data e)) events)
  = filter (λ e, type e = COMMAND_EXECUTE ∧ commandId (data e) = Some c) events.
Proof.
  rewrite filter_twice. apply filter_reflect. intros e.
  unfold executedCommandKey, isCommandActivityData.
  rewrite !andb_true_iff, !bool_decide_eq_true.
  destruct (commandId (data e)) as [c'|] eqn:Hc.
  - rewrite (bool_decide_eq_true_2 (is_Some (Some c'))) by eauto.
    assert (is_Some (Some c')) by eauto. tauto.
  - split; [by intros [_ H]; destruct (bool_decide _) | by intros [_ [=]]].
Qed.

Lemma commandCounts_lookup events c :
  kGet (fold_left (tallyStep executedCommandKey commandUpdate)
          (List.filter (λ e, bool_decide (type e = COMMAND_EXECUTE)
                             && isCommandActivityData (data e)) events) []) c
  = if decide (commandUses events c = 0) then None else Some (commandUses events c).
Proof.
  rewrite tally_lookup, executed_command_events. unfold commandUpdate, commandUses.
  rewrite count_fold. cbn [default].
  destruct (filter _ events) as [|e l]; [done|].
  rewrite decide_False by (simpl; lia). done.
Qed.

(** X12.  The command ranking has at most 10 entries, no command twice, in
    order of decreasing count.  The count of an entry is the number of
    [COMMAND_EXECUTE] events of the slice that carry the command, and it is
    positive.  A command of the slice that is not in the ranking is left out
    only because the ranking is full, and it was executed no more often than
    any command in the ranking. *)
Theorem X12_command_ranking events :
  (length (getMostUsedCommands events) ≤ 10)%nat ∧
  NoDup (map command (getMostUsedCommands events)) ∧
  StronglySorted (rankedBefore commandCount) (getMostUsedCommands events) ∧
  (∀ r, r ∈ getMostUsedCommands events →
        commandCount r = commandUses events (command r) ∧ 0 < commandCount r) ∧
  (∀ c, 0 < commandUses events c → c ∉ map command (getMostUsedCommands events) →
        length (getMostUsedCommands events) = 10%nat ∧
        ∀ r, r ∈ getMostUsedCommands events → commandUses events c ≤ commandCount r).
Proof.
  unfold getMostUsedCommands.
  set (counts := fold_left (tallyStep executedCommandKey commandUpdate) _ []).
  assert (Hkeys : NoDup (map fst counts)) by (apply tally_keys_NoDup; constructor).
  assert (Hentry : ∀ c n, mkCommandRank c n ∈ map (λ kv : string * Z, mkCommandRank kv.1 kv.2) counts
                          ↔ n = commandUses events c ∧ 0 < n).
  { intros c n. rewrite list_elem_of_In, in_map_iff. split.
    - intros ([c' n'] & [= -> ->] & Hin). apply list_elem_of_In in Hin.
      apply kGet_entry in Hin; [|done]. unfold counts in Hin.
      rewrite commandCounts_lookup in Hin. case_decide; [done|].
      injection Hin as <-. unfold commandUses in *. lia.
    - intros [-> Hpos]. exists (c, commandUses events c). split; [done|].
      apply list_elem_of_In, kGet_entry; [done|]. unfold counts.
      rewrite commandCounts_lookup. by rewrite decide_False by lia. }
  split; [apply top_length|]. split.
  { apply top_names_NoDup. rewrite map_map. simpl. done. }
  split; [apply top_sorted|]. split.
  - intros [c n] Hr. apply top_elem in Hr. by apply Hentry in Hr.
  - intros c Hpos Hout.
    assert (Hin : mkCommandRank c (commandUses events c)
                  ∈ map (λ kv : string * Z, mkCommandRank kv.1 kv.2) counts)
      by (by apply Hentry).
    assert (Hnot : mkCommandRank c (commandUses events c)
                   ∉ take 10 (sortBy (λ r, - commandCount r)
                                (map (λ kv : string * Z, mkCommandRank kv.1 kv.2) counts))).
    { intros Hr. apply Hout. apply list_elem_of_In, in_map_iff.
      exists (mkCommandRank c (commandUses events c)). split; [done|].
      by apply list_elem_of_In. }
    split; [by eapply top_full|].
    intros r Hr. by apply (top_dominates commandCount _ _ r _ Hr Hin Hnot).
Qed.

Lemma X12_command_ranking_witness :
  (∃ r, r ∈ getMostUsedCommands morningLog ∧ command r = "git.commit"%string ∧
        commandCount r = commandUses morningLog "git.commit") ∧
  ¬ (0 < commandUses morningLog "git.push" ∧
     "git.push"%string ∉ map command (getMostUsedCommands morningLog)).
Proof.
  split.
  - exists (mkCommandRank "git.commit" 2). split; [vm_compute; by left|]. split; [done|].
    apply (proj1 (proj2 (proj2 (proj2 (X12_command_ranking morningLog))))).
    vm_compute. by left.
  - intros [Hpos Hout].
    destruct (proj2 (proj2 (proj2 (proj2 (X12_command_ranking morningLog))))
                "git.push"%string Hpos Hout) as [Hfull _].
    vm_compute in Hfull. discriminate.
Defined.

Lemma StronglySorted_List_filter {A : Type} (rel : A → A → Prop) (f : A → bool) l :
  StronglySorted rel l → StronglySorted rel (List.filter f l).
Proof.
  induction 1 as [|x l Hs IH Hx]; simpl; [constructor|].
  destruct (f x); [|done]. constructor; [done|]. by apply Forall_List_filter.
Qed.

Lemma StronglySorted_filter {A : Type} (rel : A → A → Prop) (P : A → Prop)
    `{∀ x, Decision (P x)} l :
  StronglySorted rel l → StronglySorted rel (filter P l).
Proof.
  intros Hs. rewrite <- (filter_reflect (λ x, bool_decide (P x)) P l)
    by (intros; apply bool_decide_eq_true).
  by apply StronglySorted_List_filter.
Qed.

(** On a slice in time-stamp order the active time is the plain loop. *)
Lemma calculateActiveTime_sorted l :
  StronglySorted (keyLe timestamp) l →
  calculateActiveTime l = (fold_left activeStep l (0, 0)).1.
Proof. intros Hs. unfold calculateActiveTime, sortByTimestamp. by rewrite sortBy_id. Qed.

(** The gap rule of the rankings is the gap rule of [calculateActiveTime]. *)
Lemma ranking_gap_step t last e :
  isActiveType e = true →
  ((if truthy last && (timestamp e - last <? 300000) then t + (timestamp e - last) else t),
   timestamp e) = activeStep (t, last) e.
Proof. intros He. unfold activeStep, isActiveType in *. by rewrite He. Qed.

Lemma fileUpdate_fold l :
  Forall (λ e, isActiveType e = true) l →
  ∀ n t last,
    fold_left (λ o e, Some (fileUpdate o e)) l (Some (n, t, last))
    = Some (n + Z.of_nat (length l),
            (fold_left activeStep l (t, last)).1,
            (fold_left activeStep l (t, last)).2).
Proof.
  induction 1 as [|e l He Hl IH]; intros n t last.
  - simpl. by rewrite Z.add_0_r.
  - rewrite !loop_cons.
    replace (fileUpdate (Some (n, t, last)) e)
      with (n + 1, (activeStep (t, last) e).1, (activeStep (t, last) e).2)
      by (by rewrite <- (ranking_gap_step t last e He)).
    destruct (activeStep (t, last) e) as [t' last'].
    rewrite IH, length_cons. simpl. do 3 f_equal. lia.
Qed.

Lemma fileUpdate_fold_fresh l :
  Forall (λ e, isActiveType e = true) l →
  fold_left (λ o e, Some (fileUpdate o e)) l None
  = match l with
    | [] => None
    | _ => Some (Z.of_nat (length l),
                 (fold_left activeStep l (0, 0)).1, (fold_left activeStep l (0, 0)).2)
    end.
Proof.
  intros Hl. destruct l as [|e l]; [done|].
  change (fold_left (λ o e0, Some (fileUpdate o e0)) (e :: l) None)
    with (fold_left (λ o e0, Some (fileUpdate o e0)) (e :: l) (Some (0, 0, 0))).
  by rewrite fileUpdate_fold.
Qed.

Lemma truthyString_Some f : truthyString (Some f) = true ↔ f ≠ EmptyString.
Proof. simpl. rewrite negb_true_iff, bool_decide_eq_false. done. Qed.

Lemma editedFileKey_spec e f :
  editedFileKey e = Some f ↔ fileName (data e) = Some f ∧ f ≠ EmptyString.
Proof.
  unfold editedFileKey, isFileActivityData.
  destruct (fileName (data e)) as [f'|]; simpl.
  - case_bool_decide as Hf; simpl.
    + split; [done|]. intros [[= ->] ?]. done.
    + split; [by intros [= ->] | by intros [? _]].
  - split; [by destruct (_ && false) | by intros [? _]].
Qed.

Lemma List_filter_none {A : Type} (g : A → bool) l :
  (∀ x, g x = false) → List.filter g l = [].
Proof. intros Hg. induction l as [|x l IH]; simpl; [done|]. by rewrite Hg. Qed.

Lemma edited_file_events events f :
  List.filter (λ e, bool_decide (editedFileKey e = Some f))
    (List.filter (λ e, bool_decide (type e = FILE_EDIT)
                       && isFileActivityData (data e)
                       && truthyString (fileName (data e))) events)
  = if decide (f = EmptyString) then [] else editsOfFile events f.
Proof.
  rewrite filter_twice. case_decide as Hf.
  - apply List_filter_none. intros e. apply andb_false_iff. right.
    apply bool_decide_eq_false. rewrite editedFileKey_spec. by intros [_ ?].
  - apply filter_reflect. intros e.
    rewrite !andb_true_iff, !bool_decide_eq_true, editedFileKey_spec. split.
    + intros [[[? _] _] [? _]]. done.
    + intros [Hty Hname]. unfold isFileActivityData. rewrite Hname.
      rewrite (bool_decide_eq_true_2 (is_Some (Some f))) by eauto.
      rewrite (proj2 (truthyString_Some f) Hf). done.
Qed.

Lemma editsOfFile_active events f :
  Forall (λ e, isActiveType e = true) (editsOfFile events f).
Proof.
  apply Forall_forall. intros e [[Hty _] _]%list_elem_of_filter.
  unfold isActiveType. rewrite Hty. apply bool_decide_eq_true. set_solver.
Qed.

Lemma fileStats_lookup events f :
  kGet (fold_left (tallyStep editedFileKey fileUpdate)
          (List.filter (λ e, bool_decide (type e = FILE_EDIT)
                             && isFileActivityData (data e)
                             && truthyString (fileName (data e))) events) []) f
  = if decide (f = EmptyString) then None
    else match editsOfFile events f with
         | [] => None
         | _ => Some (Z.of_nat (length (editsOfFile events f)),
                      (fold_left activeStep (editsOfFile events f) (0, 0)).1,
                      (fold_left activeStep (editsOfFile events f) (0, 0)).2)
         end.
Proof.
  rewrite tally_lookup, edited_file_events. case_decide; [done|].
  apply fileUpdate_fold_fresh, editsOfFile_active.
Qed.

Lemma ranked_file_entry events r :
  r ∈ getMostEditedFiles events →
  file r ≠ EmptyString ∧ editsOfFile events (file r) ≠ [] ∧
  fileEdits r = Z.of_nat (length (editsOfFile events (file r))) ∧
  fileTime r = (fold_left activeStep (editsOfFile events (file r)) (0, 0)).1.
Proof.
  unfold getMostEditedFiles. intros Hr. apply top_elem in Hr. revert Hr.
  rewrite list_elem_of_In, in_map_iff.
  intros ([f [[n t] last]] & <- & Hin). apply list_elem_of_In in Hin.
  apply kGet_entry in Hin; [|apply tally_keys_NoDup; constructor].
  rewrite fileStats_lookup in Hin. simpl. case_decide; [done|].
  destruct (editsOfFile events f) eqn:Hedits; [done|].
  injection Hin as <- <- _. done.
Qed.

Lemma ranked_file_time events r :
  StronglySorted (keyLe timestamp) events →
  r ∈ getMostEditedFiles events →
  fileTime r = calculateActiveTime (editsOfFile events (file r)).
Proof.
  intros Hsorted Hr. apply ranked_file_entry in Hr as (_ & _ & _ & ->).
  symmetry. by apply calculateActiveTime_sorted, StronglySorted_filter.
Qed.

(** X13.  The file ranking has at most 10 entries, no file twice, in order of
    decreasing number of edits; an entry has a non-empty file name, and its
    number of edits is the number of [FILE_EDIT] events of the slice with
    that file name.  On a slice in time-stamp order, as [generateStats]
    passes it, the time of an entry is the active time of the edits of that
    file.  A file that is left out is left out because the ranking is full,
    and it has no more edits than any file in the ranking. *)
Theorem X13_file_ranking events :
  (length (getMostEditedFiles events) ≤ 10)%nat ∧
  NoDup (map file (getMostEditedFiles events)) ∧
  StronglySorted (rankedBefore fileEdits) (getMostEditedFiles events) ∧
  (∀ r, r ∈ getMostEditedFiles events →
        file r ≠ EmptyString ∧
        fileEdits r = Z.of_nat (length (editsOfFile events (file r))) ∧
        0 < fileEdits r) ∧
  (StronglySorted (keyLe timestamp) events →
   ∀ r, r ∈ getMostEditedFiles events →
        fileTime r = calculateActiveTime (editsOfFile events (file r))) ∧
  (∀ f, f ≠ EmptyString → editsOfFile events f ≠ [] →
        f ∉ map file (getMostEditedFiles events) →
        length (getMostEditedFiles events) = 10%nat ∧
        ∀ r, r ∈ getMostEditedFiles events →
             Z.of_nat (length (editsOfFile events f)) ≤ fileEdits r).
Proof.
  unfold getMostEditedFiles.
  set (stats := fold_left (tallyStep editedFileKey fileUpdate) _ []).
  set (mk := λ kv : string * (Z * Z * Z), mkFileRank kv.1 kv.2.1.1 kv.2.1.2).
  assert (Hkeys : NoDup (map fst stats)) by (apply tally_keys_NoDup; constructor).
  assert (Hentry : ∀ r, r ∈ map mk stats →
            file r ≠ EmptyString ∧ editsOfFile events (file r) ≠ [] ∧
            fileEdits r = Z.of_nat (length (editsOfFile events (file r))) ∧
            fileTime r = (fold_left activeStep (editsOfFile events (file r)) (0, 0)).1).
  { intros r. rewrite list_elem_of_In, in_map_iff.
    intros ([f [[n t] last]] & <- & Hin). apply list_elem_of_In in Hin.
    apply kGet_entry in Hin; [|done]. unfold stats in Hin.
    rewrite fileStats_lookup in Hin. simpl. case_decide; [done|].
    destruct (editsOfFile events f) eqn:Hedits; [done|].
    injection Hin as <- <- _. done. }
  assert (Hpresent : ∀ f, f ≠ EmptyString → editsOfFile events f ≠ [] →
            mkFileRank f (Z.of_nat (length (editsOfFile events f)))
                       (fold_left activeStep (editsOfFile events f) (0, 0)).1 ∈ map mk stats).
  { intros f Hf Hedits. apply list_elem_of_In, in_map_iff.
    exists (f, (Z.of_nat (length (editsOfFile events f)),
                (fold_left activeStep (editsOfFile events f) (0, 0)).1,
                (fold_left activeStep (editsOfFile events f) (0, 0)).2)).
    split; [done|]. apply list_elem_of_In, kGet_entry; [done|]. unfold stats.
    rewrite fileStats_lookup, decide_False by done.
    by destruct (editsOfFile events f). }
  split; [apply top_length|]. split.
  { apply top_names_NoDup. rewrite map_map. done. }
  split; [apply top_sorted|]. split; [|split].
  - intros r Hr. apply top_elem, Hentry in Hr as (Hname & Hedits & Hcount & _).
    split; [done|]. split; [done|]. rewrite Hcount.
    destruct (editsOfFile events (file r)); [done | simpl; lia].
  - intros Hsorted r Hr. apply top_elem, Hentry in Hr as (_ & _ & _ & ->).
    symmetry. by apply calculateActiveTime_sorted, StronglySorted_filter.
  - intros f Hf Hedits Hout.
    pose proof (Hpresent f Hf Hedits) as Hin.
    assert (Hnot : mkFileRank f (Z.of_nat (length (editsOfFile events f)))
                     (fold_left activeStep (editsOfFile events f) (0, 0)).1
                   ∉ take 10 (sortBy (λ r, - fileEdits r) (map mk stats))).
    { intros Hr. apply Hout. apply list_elem_of_In, in_map_iff.
      eexists. split; [|by apply list_elem_of_In]. done. }
    split; [by eapply top_full|].
    intros r Hr. by apply (top_dominates fileEdits _ _ r _ Hr Hin Hnot).
Qed.

Lemma X13_file_ranking_witness :
  ∃ r, r ∈ getMostEditedFiles morningLog ∧ file r = "a.ts"%string ∧
       fileEdits r = 2 ∧
       fileTime r = calculateActiveTime (editsOfFile morningLog "a.ts").
Proof.
  exists (mkFileRank "a.ts" 2 1000).
  assert (Hin : mkFileRank "a.ts" 2 1000 ∈ getMostEditedFiles morningLog)
    by (vm_compute; by left).
  split; [exact Hin|]. split; [done|]. split; [done|].
  apply (proj1 (proj2 (proj2 (proj2 (proj2 (X13_file_ranking morningLog)))))); [|exact Hin].
  repeat constructor; unfold keyLe; simpl; lia.
Defined.

Lemma switchedLanguageKey_spec e lang :
  switchedLanguageKey e = Some lang ↔ language (data e) = Some lang ∧ lang ≠ EmptyString.
Proof.
  unfold switchedLanguageKey, isFileActivityData.
  destruct (language (data e)) as [lang'|]; simpl.
  - rewrite orb_true_r. simpl.
    case_bool_decide as Hl; simpl.
    + split; [done|]. intros [[= ->] ?]. done.
    + split; [by intros [= ->] | by intros [? _]].
  - split; [by destruct (_ && false) | by intros [? _]].
Qed.

Lemma switched_language_events events lang :
  List.filter (λ e, bool_decide (switchedLanguageKey e = Some lang))
    (List.filter (λ e, bool_decide (type e = FILE_SWITCH)
                       && isFileActivityData (data e)
                       && truthyString (language (data e))) events)
  = if decide (lang = EmptyString) then [] else switchesToLanguage events lang.
Proof.
  rewrite filter_twice. case_decide as Hl.
  - apply List_filter_none. intros e. apply andb_false_iff. right.
    apply bool_decide_eq_false. rewrite switchedLanguageKey_spec. by intros [_ ?].
  - apply filter_reflect. intros e.
    rewrite !andb_true_iff, !bool_decide_eq_true, switchedLanguageKey_spec. split.
    + intros [[[? _] _] [? _]]. done.
    + intros [Hty Hlang]. unfold isFileActivityData. rewrite Hlang.
      rewrite (bool_decide_eq_true_2 (is_Some (Some lang))) by eauto.
      rewrite orb_true_r, (proj2 (truthyString_Some lang) Hl). done.
Qed.

Lemma switchesToLanguage_active events lang :
  Forall (λ e, isActiveType e = true) (switchesToLanguage events lang).
Proof.
  apply Forall_forall. intros e [[Hty _] _]%list_elem_of_filter.
  unfold isActiveType. rewrite Hty. apply bool_decide_eq_true. set_solver.
Qed.

Lemma namedFiles_cons e l :
  namedFiles (e :: l)
  = (if truthyString (fileName (data e))
     then match fileName (data e) with Some f => {[f]} | None => ∅ end
     else ∅) ∪ namedFiles l.
Proof.
  unfold namedFiles. simpl.
  destruct (truthyString (fileName (data e))) eqn:Htr.
  - destruct (fileName (data e)); [done | by rewrite union_empty_l_L].
  - by rewrite union_empty_l_L.
Qed.

Lemma languageUpdate_fold l :
  Forall (λ e, isActiveType e = true) l →
  ∀ t (files : gset string) last,
    fold_left (λ o e, Some (languageUpdate o e)) l (Some (t, files, last))
    = Some ((fold_left activeStep l (t, last)).1,
            namedFiles l ∪ files,
            (fold_left activeStep l (t, last)).2).
Proof.
  induction 1 as [|e l He Hl IH]; intros t files last.
  - simpl. unfold namedFiles. simpl. by rewrite union_empty_l_L.
  - rewrite !loop_cons.
    replace (languageUpdate (Some (t, files, last)) e)
      with ((activeStep (t, last) e).1,
            (if truthyString (fileName (data e))
             then match fileName (data e) with Some f => {[f]} | None => ∅ end
             else ∅) ∪ files,
            (activeStep (t, last) e).2).
    + destruct (activeStep (t, last) e) as [t' last'].
      rewrite IH, namedFiles_cons. simpl. do 2 f_equal. f_equal.
      rewrite (comm_L (∪) _ (namedFiles l)). by rewrite (assoc_L (∪)).
    + rewrite <- (ranking_gap_step t last e He). unfold languageUpdate. simpl.
      do 2 f_equal. destruct (truthyString (fileName (data e)));
        [|by rewrite union_empty_l_L].
      destruct (fileName (data e)); [done | by rewrite union_empty_l_L].
Qed.

Lemma languageStats_lookup events lang :
  kGet (fold_left (tallyStep switchedLanguageKey languageUpdate)
          (List.filter (λ e, bool_decide (type e = FILE_SWITCH)
                             && isFileActivityData (data e)
                             && truthyString (language (data e))) events) []) lang
  = if decide (lang = EmptyString) then None
    else match switchesToLanguage events lang with
         | [] => None
         | _ => Some ((fold_left activeStep (switchesToLanguage events lang) (0, 0)).1,
                      namedFiles (switchesToLanguage events lang),
                      (fold_left activeStep (switchesToLanguage events lang) (0, 0)).2)
         end.
Proof.
  rewrite tally_lookup, switched_language_events. case_decide; [done|].
  pose proof (switchesToLanguage_active events lang) as Hact.
  destruct (switchesToLanguage events lang) as [|e l]; [done|].
  change (fold_left (λ o e0, Some (languageUpdate o e0)) (e :: l) (kGet [] lang))
    with (fold_left (λ o e0, Some (languageUpdate o e0)) (e :: l) (Some (0, ∅, 0))).
  rewrite languageUpdate_fold by done. by rewrite union_empty_r_L.
Qed.

(** X14.  The language ranking has at most 5 entries, no language twice, in
    order of decreasing time; an entry has a non-empty language id and counts
    the distinct non-empty file names among the [FILE_SWITCH] events of the
    slice to that language.  On a slice in time-stamp order, as
    [generateStats] passes it, the time of an entry is the active time of the
    switches to that language, and a language that is left out is left out
    because the ranking is full, with no more time than any language in it. *)
Theorem X14_language_ranking events :
  (length (getMostUsedLanguages events) ≤ 5)%nat ∧
  NoDup (map rankLanguage (getMostUsedLanguages events)) ∧
  StronglySorted (rankedBefore languageTime) (getMostUsedLanguages events) ∧
  (∀ r, r ∈ getMostUsedLanguages events →
        rankLanguage r ≠ EmptyString ∧
        switchesToLanguage events (rankLanguage r) ≠ [] ∧
        languageFiles r
          = Z.of_nat (size (namedFiles (switchesToLanguage events (rankLanguage r))))) ∧
  (StronglySorted (keyLe timestamp) events →
   (∀ r, r ∈ getMostUsedLanguages events →
         languageTime r = calculateActiveTime (switchesToLanguage events (rankLanguage r))) ∧
   (∀ lang, lang ≠ EmptyString → switchesToLanguage events lang ≠ [] →
            lang ∉ map rankLanguage (getMostUsedLanguages events) →
            length (getMostUsedLanguages events) = 5%nat ∧
            ∀ r, r ∈ getMostUsedLanguages events →
                 calculateActiveTime (switchesToLanguage events lang) ≤ languageTime r)).
Proof.
  unfold getMostUsedLanguages.
  set (stats := fold_left (tallyStep switchedLanguageKey languageUpdate) _ []).
  set (mk := λ kv : string * (Z * gset string * Z),
               mkLanguageRank kv.1 kv.2.1.1 (Z.of_nat (size kv.2.1.2))).
  assert (Hkeys : NoDup (map fst stats)) by (apply tally_keys_NoDup; constructor).
  assert (Hentry : ∀ r, r ∈ map mk stats →
            rankLanguage r ≠ EmptyString ∧
            switchesToLanguage events (rankLanguage r) ≠ [] ∧
            languageFiles r
              = Z.of_nat (size (namedFiles (switchesToLanguage events (rankLanguage r)))) ∧
            languageTime r
              = (fold_left activeStep (switchesToLanguage events (rankLanguage r)) (0, 0)).1).
  { intros r. rewrite list_elem_of_In, in_map_iff.
    intros ([lang [[t files] last]] & <- & Hin). apply list_elem_of_In in Hin.
    apply kGet_entry in Hin; [|done]. unfold stats in Hin.
    rewrite languageStats_lookup in Hin. simpl. case_decide; [done|].
    destruct (switchesToLanguage events lang) eqn:Hsw; [done|].
    injection Hin as <- <- _. done. }
  assert (Hpresent : ∀ lang, lang ≠ EmptyString → switchesToLanguage events lang ≠ [] →
            mkLanguageRank lang
              (fold_left activeStep (switchesToLanguage events lang) (0, 0)).1
              (Z.of_nat (size (namedFiles (switchesToLanguage events lang)))) ∈ map mk stats).
  { intros lang Hl Hsw. apply list_elem_of_In, in_map_iff.
    exists (lang, ((fold_left activeStep (switchesToLanguage events lang) (0, 0)).1,
                   namedFiles (switchesToLanguage events lang),
                   (fold_left activeStep (switchesToLanguage events lang) (0, 0)).2)).
    split; [done|]. apply list_elem_of_In, kGet_entry; [done|]. unfold stats.
    rewrite languageStats_lookup, decide_False by done.
    by destruct (switchesToLanguage events lang). }
  split; [apply top_length|]. split.
  { apply top_names_NoDup. rewrite map_map. done. }
  split; [apply top_sorted|]. split.
  - intros r Hr. apply top_elem, Hentry in Hr as (Hname & Hsw & Hfiles & _). done.
  - intros Hsorted.
    assert (Htime : ∀ lang, calculateActiveTime (switchesToLanguage events lang)
                            = (fold_left activeStep (switchesToLanguage events lang) (0, 0)).1).
    { intros lang. by apply calculateActiveTime_sorted, StronglySorted_filter. }
    split.
    + intros r Hr. apply top_elem, Hentry in Hr as (_ & _ & _ & ->). by rewrite Htime.
    + intros lang Hl Hsw Hout.
      pose proof (Hpresent lang Hl Hsw) as Hin.
      assert (Hnot : mkLanguageRank lang
                       (fold_left activeStep (switchesToLanguage events lang) (0, 0)).1
                       (Z.of_nat (size (namedFiles (switchesToLanguage events lang))))
                     ∉ take 5 (sortBy (λ r, - languageTime r) (map mk stats))).
      { intros Hr. apply Hout. apply list_elem_of_In, in_map_iff.
        eexists. split; [|by apply list_elem_of_In]. done. }
      split; [by eapply top_full|].
      intros r Hr. rewrite Htime.
      by apply (top_dominates languageTime _ _ r _ Hr Hin Hnot).
Qed.

Lemma X14_language_ranking_witness :
  ∃ r, r ∈ getMostUsedLanguages morningLog ∧ rankLanguage r = "typescript"%string ∧
       languageFiles r = 2 ∧
       languageTime r = calculateActiveTime (switchesToLanguage morningLog "typescript").
Proof.
  exists (mkLanguageRank "typescript" 3000 2).
  assert (Hin : mkLanguageRank "typescript" 3000 2 ∈ getMostUsedLanguages morningLog)
    by (vm_compute; by left).
  split; [exact Hin|]. split; [done|]. split; [done|].
  apply (proj1 (proj2 (proj2 (proj2 (proj2 (X14_language_ranking morningLog))))
                 ltac:(repeat constructor; unfold keyLe; simpl; lia))).
  exact Hin.
Defined.

(** ** Hourly histogram *)

Section AssocMapMore.
Context {K V : Type} `{EqDecision K}.
Implicit Types (m : list (K * V)) (k : K) (v : V).

(** With distinct keys, a map is its keys with their lookups. *)
Lemma entries_by_lookup m (g : K → V) :
  NoDup (map fst m) → (∀ k, k ∈ map fst m → kGet m k = Some (g k)) →
  m = map (λ k, (k, g k)) (map fst m).
Proof.
  induction m as [|[k0 v0] m IH]; simpl; intros Hnd Hg; [done|].
  apply NoDup_cons in Hnd as [Hk0 Hnd].
  pose proof (Hg k0 ltac:(left)) as H0. rewrite decide_True in H0 by done.
  injection H0 as ->. f_equal. apply IH; [done|].
  intros k Hk. specialize (Hg k ltac:(by right)).
  destruct (decide (k0 = k)) as [->|]; [done | exact Hg].
Qed.

Lemma kSet_kSet m k v v' : kSet (kSet m k v) k v' = kSet m k v'.
Proof.
  induction m as [|[k0 v0] m IH]; simpl.
  - by rewrite decide_True.
  - destruct (decide (k0 = k)) as [->|Hne]; simpl.
    + by rewrite decide_True.
    + by rewrite decide_False, IH.
Qed.

Lemma kSet_fresh m k v : k ∉ map fst m → kSet m k v = m ++ [(k, v)].
Proof.
  induction m as [|[k0 v0] m IH]; simpl; [done|].
  rewrite not_elem_of_cons. intros [Hne Hk].
  rewrite decide_False by done. by rewrite IH.
Qed.

Context {E : Type} (key : E → option K) (upd : option V → E → V).

(** Bookkeeping over keys that are all present keeps the keys. *)
Lemma tally_keys_stable l m :
  Forall (λ e, ∀ k, key e = Some k → k ∈ map fst m) l →
  map fst (fold_left (tallyStep key upd) l m) = map fst m.
Proof.
  revert m. induction l as [|e l IH]; intros m Hl; [done|].
  apply Forall_cons in Hl as [He Hl]. rewrite loop_cons.
  assert (Hstep : map fst (tallyStep key upd m e) = map fst m).
  { unfold tallyStep. destruct (key e) as [k|]; [|done].
    rewrite kSet_keys. destruct (kGet m k) eqn:Hk; [done|].
    apply kGet_None_keys in Hk. by specialize (He k eq_refl). }
  rewrite IH, Hstep; [done|]. by rewrite Hstep.
Qed.
End AssocMapMore.

Lemma append_fold {E : Type} (l l0 : list E) :
  fold_left (λ o e, Some (default [] o ++ [e])) l (Some l0) = Some (l0 ++ l).
Proof.
  revert l0. induction l as [|e l IH]; intros l0; simpl.
  - by rewrite app_nil_r.
  - by rewrite IH, <- app_assoc.
Qed.

Lemma getHours_range tz t : 0 ≤ getHours tz t < 24.
Proof. unfold getHours. apply Z.mod_pos_bound. lia. Qed.

Lemma dayHours_elem h : h ∈ dayHours ↔ 0 ≤ h < 24.
Proof.
  unfold dayHours. rewrite list_elem_of_In, in_map_iff. split.
  - intros (i & <- & Hi). apply in_seq in Hi. lia.
  - intros Hh. exists (Z.to_nat h). split; [lia|]. apply in_seq. lia.
Qed.

Lemma map_fst_pairs {K V : Type} (g : K → V) (l : list K) :
  map fst (map (λ k, (k, g k)) l) = l.
Proof. induction l as [|k l IH]; simpl; [done | by rewrite IH]. Qed.

Lemma groupByHour_tally tz events :
  groupByHour tz events
  = fold_left (tallyStep (λ e, Some (getHours tz (timestamp e)))
                         (λ o e, default [] o ++ [e]))
              events (map (λ h, (h, [])) dayHours).
Proof. reflexivity. Qed.

Lemma hour_events_filter tz events h :
  List.filter (λ e, bool_decide (Some (getHours tz (timestamp e)) = Some h)) events
  = eventsAtHour tz events h.
Proof.
  apply filter_reflect. intros e. rewrite bool_decide_eq_true.
  split; [by intros [= ->] | by intros ->].
Qed.

(** The map of [getHourlyActivity]: the 24 hours in order, each with its
    events in the order of the slice. *)
Lemma groupByHour_buckets tz events :
  groupByHour tz events = map (λ h, (h, eventsAtHour tz events h)) dayHours.
Proof.
  rewrite groupByHour_tally.
  set (m := fold_left _ events _).
  assert (Hkeys : map fst m = dayHours).
  { unfold m. rewrite tally_keys_stable.
    - apply map_fst_pairs.
    - apply Forall_forall. intros e _ k [= <-].
      rewrite map_fst_pairs. apply dayHours_elem, getHours_range. }
  rewrite <- Hkeys. apply entries_by_lookup.
  - rewrite Hkeys. unfold dayHours. apply NoDup_fmap_2; [|apply NoDup_seq].
    intros ???; lia.
  - intros h Hh. unfold m. rewrite tally_lookup, hour_events_filter.
    replace (kGet (map (λ h0, (h0, [])) dayHours) h) with (Some (@nil ActivityEvent)).
    + by rewrite append_fold.
    + symmetry. apply kGet_entry.
      * rewrite map_fst_pairs.
        unfold dayHours. apply NoDup_fmap_2; [|apply NoDup_seq]. intros ???; lia.
      * rewrite Hkeys in Hh. apply list_elem_of_In, in_map_iff. exists h.
        split; [done|]. by apply list_elem_of_In.
Qed.

Lemma indicator_sum (x : Z) (hs : list Z) :
  NoDup hs →
  sumZ (map (λ h, if decide (x = h) then 1 else 0) hs) = if decide (x ∈ hs) then 1 else 0.
Proof.
  induction 1 as [|h hs Hh Hnd IH]; [done|].
  rewrite map_cons, sumZ_cons, IH.
  destruct (decide (x = h)) as [->|Hne].
  - rewrite decide_False by done. rewrite decide_True by left. done.
  - destruct (decide (x ∈ hs)).
    + rewrite decide_True by (by right). done.
    + rewrite decide_False; [done|]. by intros [?|?]%elem_of_cons.
Qed.

Lemma bucket_sizes_sum {E : Type} (key : E → Z) (events : list E) (hs : list Z) :
  NoDup hs → Forall (λ e, key e ∈ hs) events →
  sumZ (map (λ h, Z.of_nat (length (filter (λ e, key e = h) events))) hs)
  = Z.of_nat (length events).
Proof.
  intros Hnd. induction 1 as [|e l He Hl IH].
  - induction hs as [|h hs IHh]; [done|].
    apply NoDup_cons in Hnd as [_ Hnd]. rewrite map_cons, sumZ_cons, IHh by done. done.
  - rewrite length_cons, Nat2Z.inj_succ, <- IH.
    pose proof (indicator_sum (key e) hs Hnd) as Hind.
    rewrite decide_True in Hind by done.
    assert (Hsplit : ∀ hs', sumZ (map (λ h, Z.of_nat (length (filter (λ e0, key e0 = h) (e :: l)))) hs')
               = sumZ (map (λ h, Z.of_nat (length (filter (λ e0, key e0 = h) l))) hs')
                 + sumZ (map (λ h, if decide (key e = h) then 1 else 0) hs')).
    { induction hs' as [|h hs' IHh]; [done|].
      rewrite !map_cons, !sumZ_cons, IHh, filter_cons.
      destruct (decide (key e = h)); simpl; lia. }
    rewrite Hsplit, Hind. lia.
Qed.

Lemma hourly_buckets tz events :
  getHourlyActivity tz events
  = map (λ h, mkHourly h (Z.of_nat (length (eventsAtHour tz events h)))
                       (calculateActiveTime (eventsAtHour tz events h))) dayHours.
Proof. unfold getHourlyActivity. by rewrite groupByHour_buckets, map_map. Qed.

Lemma hourly_counts_sum tz events :
  sumZ (map hourEvents (getHourlyActivity tz events)) = Z.of_nat (length events).
Proof.
  rewrite hourly_buckets, map_map. cbn [hourEvents].
  apply (bucket_sizes_sum (λ e, getHours tz (timestamp e))).
  - unfold dayHours. apply NoDup_fmap_2; [|apply NoDup_seq]. intros ???; lia.
  - apply Forall_forall. intros e _. apply dayHours_elem, getHours_range.
Qed.



(** ** Daily histogram *)

Lemma mapGet_kGet {V : Type} (m : list (Z * V)) k : mapGet m k = kGet m k.
Proof.
  induction m as [|[k0 v0] m IH]; simpl; [done|].
  destruct (Z.eqb_spec k0 k); [by rewrite decide_True | by rewrite decide_False].
Qed.

Lemma mapSet_kSet {V : Type} (m : list (Z * V)) k v : mapSet m k v = kSet m k v.
Proof.
  induction m as [|[k0 v0] m IH]; simpl; [done|].
  destruct (Z.eqb_spec k0 k); [by rewrite decide_True | by rewrite decide_False, IH].
Qed.

Lemma mapHas_kGet {V : Type} (m : list (Z * V)) k :
  mapHas m k = match kGet m k with Some _ => true | None => false end.
Proof. unfold mapHas. by rewrite mapGet_kGet. Qed.

Lemma dateKey_daysAgo now i : dateKey (daysAgo now i) = dateKey now - Z.of_nat i.
Proof.
  unfold dateKey, daysAgo.
  replace (now - Z.of_nat i * msPerDay) with (now + (- Z.of_nat i) * msPerDay) by lia.
  rewrite Z.div_add by (unfold msPerDay; lia). lia.
Qed.

(** The seeded map: one zero bucket per day of the window, today first. *)
Lemma seedDays_buckets now days :
  seedDays now days
  = map (λ i, (dateKey now - Z.of_nat i, (0, 0))) (seq 0 (Z.to_nat days)).
Proof.
  unfold seedDays. generalize (Z.to_nat days). intros n.
  induction n as [|n IH]; [done|].
  rewrite seq_S, fold_left_app, map_app, IH. simpl.
  rewrite mapSet_kSet, dateKey_daysAgo. apply kSet_fresh.
  rewrite map_map. simpl. intros Hin.
  apply list_elem_of_In, in_map_iff in Hin as (i & Hi & Hseq). apply in_seq in Hseq. lia.
Qed.

Lemma seedDays_keys now days :
  seedDays now days
  = map (λ d, (d, (0, 0)))
        (map (λ i, dateKey now - Z.of_nat i) (seq 0 (Z.to_nat days))).
Proof. by rewrite seedDays_buckets, map_map. Qed.

Lemma groupByDay_tally events :
  groupByDay events
  = fold_left (tallyStep (λ e, Some (dateKey (timestamp e)))
                         (λ o e, default [] o ++ [e])) events [].
Proof.
  unfold groupByDay. generalize (@nil (Z * list ActivityEvent)).
  induction events as [|e l IH]; intros m; [done|].
  rewrite !loop_cons, IH. f_equal. unfold tallyStep.
  rewrite mapHas_kGet. destruct (kGet m (dateKey (timestamp e))) eqn:Hk.
  - by rewrite mapSet_kSet, mapGet_kGet, Hk.
  - rewrite !mapSet_kSet, mapGet_kGet, kGet_kSet, decide_True by done.
    simpl. apply kSet_kSet.
Qed.

Lemma day_events_filter events d :
  List.filter (λ e, bool_decide (Some (dateKey (timestamp e)) = Some d)) events
  = eventsOnDay events d.
Proof.
  apply filter_reflect. intros e. rewrite bool_decide_eq_true.
  split; [by intros [= ->] | by intros ->].
Qed.

Lemma append_fold_fresh {E : Type} (l : list E) :
  fold_left (λ o e, Some (default [] o ++ [e])) l None
  = match l with [] => None | _ => Some l end.
Proof. destruct l as [|e l]; [done|]. simpl. by rewrite append_fold. Qed.

(** The days of [groupByDay] are distinct, and the group of a day holds the
    events of that day in the order of the slice. *)
Lemma groupByDay_groups events :
  NoDup (map fst (groupByDay events)) ∧
  ∀ d, kGet (groupByDay events) d
       = match eventsOnDay events d with [] => None | _ => Some (eventsOnDay events d) end.
Proof.
  rewrite groupByDay_tally. split; [apply tally_keys_NoDup; constructor|].
  intros d. rewrite tally_lookup, day_events_filter.
  change (kGet [] d) with (@None (list ActivityEvent)). apply append_fold_fresh.
Qed.

(** The loop that copies the groups into the seeded map. *)
Lemma fill_buckets (groups : list (Z * list ActivityEvent)) :
  NoDup (map fst groups) →
  ∀ buckets : list (Z * (Z * Z)),
    map fst (fold_left fillBucket groups buckets) = map fst buckets ∧
    ∀ k, kGet (fold_left fillBucket groups buckets) k
         = match kGet buckets k, kGet groups k with
           | Some _, Some es => Some (Z.of_nat (length es), calculateActiveTime es)
           | old, _ => old
           end.
Proof.
  induction groups as [|[k0 es0] groups IH]; intros Hnd buckets.
  - split; [done|]. intros k. simpl. by destruct (kGet buckets k).
  - change (map fst ((k0, es0) :: groups)) with (k0 :: map fst groups) in Hnd.
    apply NoDup_cons in Hnd as [Hk0 Hnd].
    apply kGet_None_keys in Hk0.
    assert (Hhead : ∀ k, kGet ((k0, es0) :: groups) k
                         = if decide (k0 = k) then Some es0 else kGet groups k) by done.
    rewrite loop_cons. unfold fillBucket at 2 4. rewrite mapHas_kGet.
    destruct (kGet buckets k0) as [old|] eqn:Hb.
    + destruct (IH Hnd (mapSet buckets k0 (Z.of_nat (length es0), calculateActiveTime es0)))
        as [Hkeys Hget].
      split.
      * rewrite Hkeys, mapSet_kSet, kSet_keys. by rewrite Hb.
      * intros k. rewrite Hget, mapSet_kSet, kGet_kSet, Hhead.
        destruct (decide (k0 = k)) as [->|Hne]; [by rewrite Hk0, Hb | done].
    + destruct (IH Hnd buckets) as [Hkeys Hget]. split; [done|].
      intros k. rewrite Hget, Hhead.
      destruct (decide (k0 = k)) as [->|Hne]; [by rewrite Hb | done].
Qed.

Section SortDescending.
Context {A : Type} (key : A → Z).

Lemma insertBy_greatest x l :
  Forall (λ y, key y < key x) l → insertBy key x l = l ++ [x].
Proof.
  induction 1 as [|y l Hy Hl IH]; simpl; [done|].
  destruct (Z.leb_spec (key x) (key y)); [lia|]. by rewrite IH.
Qed.

(** Sorting an array of strictly decreasing keys reverses it. *)
Lemma sortBy_descending l :
  StronglySorted (λ a b, key b < key a) l → sortBy key l = rev l.
Proof.
  induction 1 as [|x l Hs IH Hx]; simpl; [done|].
  rewrite IH. apply insertBy_greatest.
  apply Forall_forall. intros y Hy. apply list_elem_of_In, in_rev, list_elem_of_In in Hy.
  rewrite Forall_forall in Hx. by apply Hx.
Qed.
End SortDescending.

Lemma window_descending now n :
  StronglySorted (λ a b : Z, b < a) (map (λ i, dateKey now - Z.of_nat i) (seq 0 n)).
Proof.
  generalize 0%nat. induction n as [|n IH]; intros start; simpl; constructor; [apply IH|].
  apply Forall_forall. intros d Hd.
  apply list_elem_of_In, in_map_iff in Hd as (i & <- & Hi). apply in_seq in Hi. lia.
Qed.

Lemma StronglySorted_map {A B : Type} (rel : B → B → Prop) (f : A → B) l :
  StronglySorted rel (map f l) → StronglySorted (λ a b, rel (f a) (f b)) l.
Proof.
  induction l as [|x l IH]; simpl; intros H; [constructor|].
  apply StronglySorted_inv in H as [Hs Hx]. constructor; [by apply IH|].
  apply Forall_forall. intros y Hy. rewrite Forall_forall in Hx. apply Hx.
  apply list_elem_of_In, in_map. by apply list_elem_of_In.
Qed.

Lemma eventsOnDay_span events d :
  Forall (λ e, d * msPerDay ≤ timestamp e ≤ d * msPerDay + (msPerDay - 1))
         (eventsOnDay events d).
Proof.
  apply Forall_forall. intros e [Hd _]%list_elem_of_filter.
  unfold dateKey in Hd. subst d.
  pose proof (Z.mul_div_le (timestamp e) msPerDay ltac:(unfold msPerDay; lia)).
  pose proof (Z.mul_succ_div_gt (timestamp e) msPerDay ltac:(unfold msPerDay; lia)). lia.
Qed.

Lemma daily_buckets now events days :
  getDailyActivity now events days
  = map (λ d, mkDaily d (Z.of_nat (length (eventsOnDay events d)))
                      (calculateActiveTime (eventsOnDay events d)))
        (windowDays now days).
Proof.
  unfold getDailyActivity.
  destruct (groupByDay_groups events) as [Hnd Hgroups].
  destruct (fill_buckets (groupByDay events) Hnd (seedDays now days)) as [Hkeys Hget].
  change (fold_left _ (groupByDay events) (seedDays now days))
    with (fold_left fillBucket (groupByDay events) (seedDays now days)).
  set (filled := fold_left fillBucket (groupByDay events) (seedDays now days)) in *.
  rewrite seedDays_keys, map_fst_pairs in Hkeys.
  assert (Hdistinct : NoDup (map (λ i, dateKey now - Z.of_nat i) (seq 0 (Z.to_nat days)))).
  { apply NoDup_fmap_2; [|apply NoDup_seq]. intros ???; lia. }
  assert (Hfilled : filled
    = map (λ d, (d, (Z.of_nat (length (eventsOnDay events d)),
                     calculateActiveTime (eventsOnDay events d))))
          (map (λ i, dateKey now - Z.of_nat i) (seq 0 (Z.to_nat days)))).
  { rewrite <- Hkeys. apply entries_by_lookup; [by rewrite Hkeys|].
    intros d Hd. rewrite Hget, Hgroups.
    replace (kGet (seedDays now days) d) with (Some (0, 0)).
    - by destruct (eventsOnDay events d).
    - symmetry. rewrite seedDays_keys. apply kGet_entry.
      + by rewrite map_fst_pairs.
      + rewrite Hkeys in Hd. apply list_elem_of_In, in_map_iff.
        exists d. split; [done|]. by apply list_elem_of_In. }
  rewrite Hfilled, map_map. cbn [fst snd].
  rewrite sortBy_descending.
  - unfold windowDays. by rewrite map_rev.
  - apply (StronglySorted_map (λ a b : Z, b < a) date). rewrite map_map. cbn [date].
    rewrite map_id. apply (window_descending now).
Qed.

(** The histogram on the calendar of any host. *)
Lemma getDailyActivity_on now events days :
  getDailyActivity now events days = getDailyActivityOn (daysAgo now) events days.
Proof. reflexivity. Qed.

Lemma fixed_offset_steps now days : stepsOneUtcDay now (daysAgo now) days.
Proof. intros i _. apply dateKey_daysAgo. Qed.

Lemma localDaysAgo_fixed change offset now i :
  localDaysAgo change offset offset now i = daysAgo now i.
Proof. unfold localDaysAgo, daysAgo. repeat destruct (_ <=? _); lia. Qed.

Lemma seedDaysOn_ext back back' days :
  (∀ i, (i < Z.to_nat days)%nat → dateKey (back i) = dateKey (back' i)) →
  seedDaysOn back days = seedDaysOn back' days.
Proof.
  unfold seedDaysOn. generalize (Z.to_nat days). intros n.
  induction n as [|n IH]; intros Hsame; [done|].
  rewrite seq_S, !fold_left_app. simpl.
  rewrite IH by (intros i Hi; apply Hsame; lia). by rewrite Hsame by lia.
Qed.

Lemma getDailyActivityOn_regular now back events days :
  stepsOneUtcDay now back days →
  getDailyActivityOn back events days = getDailyActivity now events days.
Proof.
  intros Hsteps. unfold getDailyActivityOn, getDailyActivity.
  rewrite (seedDaysOn_ext back (daysAgo now)); [done|].
  intros i Hi. by rewrite (Hsteps i Hi), dateKey_daysAgo.
Qed.

(** The seeded map has one zero bucket for each UTC day that a step lands
    on; a day reached twice is seeded once. *)
Lemma seedDaysOn_spec back days :
  NoDup (map fst (seedDaysOn back days)) ∧
  (∀ d, kGet (seedDaysOn back days) d
        = if decide (d ∈ map (λ i, dateKey (back i)) (seq 0 (Z.to_nat days)))
          then Some (0, 0) else None) ∧
  (length (seedDaysOn back days) ≤ Z.to_nat days)%nat.
Proof.
  unfold seedDaysOn. generalize (Z.to_nat days). intros n.
  induction n as [|n (Hnd & Hget & Hlen)].
  - split; [constructor|]. split; [|done]. intros d. done.
  - rewrite seq_S, fold_left_app, map_app. simpl. rewrite mapSet_kSet.
    split; [by apply kSet_NoDup|]. split.
    + intros d. rewrite kGet_kSet, Hget.
      destruct (decide (dateKey (back n) = d)) as [<-|Hne].
      * rewrite decide_True; [done|].
        apply list_elem_of_In, in_app_iff. right. by left.
      * destruct (decide (d ∈ map (λ i, dateKey (back i)) (seq 0 n))) as [Hd|Hd].
        -- rewrite decide_True; [done|].
           apply list_elem_of_In, in_app_iff. left. by apply list_elem_of_In.
        -- rewrite decide_False; [done|].
           intros [Hin|[Heq|[]]]%list_elem_of_In%in_app_iff; [|done].
           by apply Hd, list_elem_of_In.
    + rewrite <- (length_map fst), kSet_keys.
      destruct (kGet _ _); rewrite ?length_app, !length_map; simpl; lia.
Qed.

Lemma seedDaysOn_days back days d :
  d ∈ map fst (seedDaysOn back days)
  ↔ ∃ i, (i < Z.to_nat days)%nat ∧ d = dateKey (back i).
Proof.
  destruct (seedDaysOn_spec back days) as (_ & Hget & _).
  pose proof (kGet_None_keys (seedDaysOn back days) d) as Hnone.
  rewrite Hget in Hnone.
  assert (Hreached : d ∈ map (λ i, dateKey (back i)) (seq 0 (Z.to_nat days))
                     ↔ ∃ i, (i < Z.to_nat days)%nat ∧ d = dateKey (back i)).
  { rewrite list_elem_of_In, in_map_iff. split.
    - intros (i & <- & Hi%in_seq). exists i. split; [lia | done].
    - intros (i & Hi & ->). exists i. split; [done|]. apply in_seq. lia. }
  rewrite <- Hreached.
  destruct (decide (d ∈ map (λ i, dateKey (back i)) (seq 0 (Z.to_nat days)))) as [Hd|Hd].
  - split; [done|]. intros _. apply dec_stable. intros Hnot.
    by apply Hnone in Hnot.
  - split; [|done]. intros Hin. by apply (proj1 Hnone) in Hin.
Qed.

Lemma daily_buckets_on back events days :
  getDailyActivityOn back events days
  = sortBy date (map (dayBucket events) (map fst (seedDaysOn back days))).
Proof.
  unfold getDailyActivityOn.
  destruct (groupByDay_groups events) as [Hnd Hgroups].
  destruct (fill_buckets (groupByDay events) Hnd (seedDaysOn back days)) as [Hkeys Hget].
  destruct (seedDaysOn_spec back days) as (Hseed & Hzero & _).
  change (fold_left _ (groupByDay events) (seedDaysOn back days))
    with (fold_left fillBucket (groupByDay events) (seedDaysOn back days)).
  set (filled := fold_left fillBucket (groupByDay events) (seedDaysOn back days)) in *.
  assert (Hfilled : filled
    = map (λ d, (d, (Z.of_nat (length (eventsOnDay events d)),
                     calculateActiveTime (eventsOnDay events d))))
          (map fst (seedDaysOn back days))).
  { rewrite <- Hkeys. apply entries_by_lookup; [by rewrite Hkeys|].
    intros d Hd. rewrite Hget, Hgroups. rewrite Hkeys in Hd.
    destruct (kGet (seedDaysOn back days) d) as [zero|] eqn:Hd'.
    - rewrite Hzero in Hd'. case_decide; [|done]. injection Hd' as <-.
      by destruct (eventsOnDay events d).
    - by apply kGet_None_keys in Hd'. }
  by rewrite Hfilled, map_map.
Qed.

Lemma strictly_sorted {A : Type} (key : A → Z) l :
  StronglySorted (keyLe key) l → NoDup (map key l) →
  StronglySorted (λ a b, key a < key b) l.
Proof.
  induction 1 as [|x l Hs IH Hx]; intros Hnd; [constructor|].
  change (map key (x :: l)) with (key x :: map key l) in Hnd.
  apply NoDup_cons in Hnd as [Hfresh Hnd]. constructor; [by apply IH|].
  apply Forall_forall. intros y Hy. rewrite Forall_forall in Hx.
  specialize (Hx y Hy). unfold keyLe in Hx.
  destruct (decide (key x = key y)) as [Heq|]; [|lia].
  exfalso. apply Hfresh. rewrite Heq.
  apply list_elem_of_In, in_map. by apply list_elem_of_In.
Qed.

Lemma daily_dates_on back events days :
  map date (getDailyActivityOn back events days) ≡ₚ map fst (seedDaysOn back days).
Proof.
  rewrite daily_buckets_on, (sortBy_perm date), map_map. cbn [dayBucket date].
  by rewrite map_id.
Qed.

Lemma daily_entries_on back events days :
  Forall (λ entry, entry = dayBucket events (date entry))
         (getDailyActivityOn back events days).
Proof.
  rewrite daily_buckets_on. apply sortBy_Forall, Forall_forall.
  intros entry Hentry. by apply list_elem_of_In, in_map_iff in Hentry as (d & <- & _).
Qed.

Lemma daily_length_on back events days :
  (length (getDailyActivityOn back events days) ≤ Z.to_nat days)%nat.
Proof.
  rewrite <- (length_map date), (Permutation_length (daily_dates_on back events days)).
  rewrite length_map. apply seedDaysOn_spec.
Qed.

Lemma dayBucket_range events d :
  0 ≤ eventCount (dayBucket events d) ∧ 0 ≤ activeTime (dayBucket events d) < msPerDay.
Proof.
  simpl. split; [lia|].
  pose proof (active_time_span (d * msPerDay) (d * msPerDay + (msPerDay - 1))
                (eventsOnDay events d)) as Hspan.
  destruct Hspan; [unfold msPerDay; lia | | lia].
  eapply Forall_impl; [apply eventsOnDay_span|]. simpl. intros; lia.
Qed.

(** Across the change to daylight saving two steps of a New York host land
    on the same UTC day, and a window of 3 days has 2 buckets. *)
Lemma daily_histogram_across_dst :
  map (λ i, dateKey (newYork i)) [0; 1; 2]%nat = [20521; 20520; 20520] ∧
  map date (getDailyActivityOn newYork [] 3) = [20520; 20521] ∧
  ¬ stepsOneUtcDay dstNow newYork 3.
Proof.
  split; [by vm_compute|]. split; [by vm_compute|].
  intros Hsteps. specialize (Hsteps 2%nat ltac:(simpl; lia)). by vm_compute in Hsteps.
Qed.

(** X16.  On the calendar of any host, the daily histogram has one bucket
    for each UTC day that a step back from now lands on, the oldest day
    first and no day twice, so never more buckets than days asked for; the
    bucket of a day counts the events of the slice on that day, and its
    active time is the active time of those events, never negative and
    always less than 24 hours.  On a host whose every step lands on the UTC
    day before (any host at a fixed offset to UTC, but not one that crosses
    a daylight-saving change near midnight UTC), the buckets are the days of
    the window, one for each day asked for, with today last. *)
Theorem X16_daily_histogram back events days :
  StronglySorted (λ a b, date a < date b) (getDailyActivityOn back events days) ∧
  (∀ d, d ∈ map date (getDailyActivityOn back events days)
        ↔ ∃ i, (i < Z.to_nat days)%nat ∧ d = dateKey (back i)) ∧
  (∀ entry, entry ∈ getDailyActivityOn back events days →
            eventCount entry = Z.of_nat (length (eventsOnDay events (date entry))) ∧
            activeTime entry = calculateActiveTime (eventsOnDay events (date entry)) ∧
            0 ≤ activeTime entry < msPerDay) ∧
  (length (getDailyActivityOn back events days) ≤ Z.to_nat days)%nat ∧
  (∀ now, stepsOneUtcDay now back days →
     getDailyActivityOn back events days
       = map (dayBucket events) (windowDays now days) ∧
     length (getDailyActivityOn back events days) = Z.to_nat days ∧
     (0 < days →
      date <$> last (getDailyActivityOn back events days) = Some (dateKey now))).
Proof.
  split; [|split; [|split; [|split]]].
  - apply strictly_sorted; [apply sortBy_sorted|].
    rewrite daily_dates_on. apply seedDaysOn_spec.
  - intros d. rewrite daily_dates_on. apply seedDaysOn_days.
  - intros entry Hentry.
    pose proof (daily_entries_on back events days) as Hall.
    rewrite Forall_forall in Hall. specialize (Hall entry Hentry).
    destruct (dayBucket_range events (date entry)) as [_ Hrange].
    rewrite <- Hall in Hrange. split; [by rewrite Hall at 1|]. split; [by rewrite Hall at 1|].
    done.
  - apply daily_length_on.
  - intros now Hsteps.
    rewrite (getDailyActivityOn_regular now back events days Hsteps), daily_buckets.
    split; [done|]. split.
    + unfold windowDays. by rewrite length_map, length_rev, length_map, length_seq.
    + intros Hdays. unfold windowDays.
      destruct (Z.to_nat days) as [|n] eqn:Hn; [lia|].
      rewrite <- cons_seq. simpl. rewrite map_app. simpl. rewrite last_snoc. simpl.
      f_equal. lia.
Qed.

Lemma X16_daily_histogram_witness :
  date <$> last (getDailyActivityOn (daysAgo streakNow) threeDayLog 7)
  = Some (dateKey streakNow).
Proof.
  apply (proj2 (proj2 (proj2 (proj2
           (X16_daily_histogram (daysAgo streakNow) threeDayLog 7)))) streakNow).
  - intros i _. unfold dateKey, daysAgo.
    replace (streakNow - Z.of_nat i * msPerDay)
      with (streakNow + (- Z.of_nat i) * msPerDay) by lia.
    rewrite Z.div_add by (unfold msPerDay; lia). lia.
  - lia.
Defined.

(** ** The statistics of a window *)

Lemma sortBy_idem {A : Type} (key : A → Z) l : sortBy key (sortBy key l) = sortBy key l.
Proof. apply sortBy_id, sortBy_sorted. Qed.

Lemma countEventsByType_nonneg events ty : 0 ≤ countEventsByType events ty.
Proof. unfold countEventsByType. lia. Qed.

Lemma four_counts_le_total events :
  countEventsByType events FILE_SWITCH + countEventsByType events FILE_EDIT
  + countEventsByType events FILE_CREATE + countEventsByType events COMMAND_EXECUTE
  ≤ Z.of_nat (length events).
Proof.
  unfold countEventsByType. induction events as [|e l IH]; simpl; [lia|].
  repeat case_bool_decide; simpl; try lia; congruence.
Qed.

Lemma recentEvents_narrower now days days' dm :
  days ≤ days' →
  recentEvents now days dm
  = List.filter (λ e, now - days * 24 * 60 * 60 * 1000 <=? timestamp e)
                (recentEvents now days' dm).
Proof.
  intros Hd. unfold recentEvents. rewrite filter_twice. apply filter_ext. intros e.
  destruct (Z.leb_spec (now - days * 24 * 60 * 60 * 1000) (timestamp e)),
           (Z.leb_spec (now - days' * 24 * 60 * 60 * 1000) (timestamp e)); simpl; lia || done.
Qed.

Lemma editsOfFile_perm events events' f :
  events ≡ₚ events' → editsOfFile events f ≡ₚ editsOfFile events' f.
Proof.
  intros H. unfold editsOfFile.
  rewrite <- !(filter_reflect
    (λ e, bool_decide (type e = FILE_EDIT ∧ fileName (data e) = Some f)))
    by (intros; apply bool_decide_eq_true).
  by apply List_filter_perm.
Qed.

Lemma recentEvents_spec now days dm e :
  e ∈ recentEvents now days dm
  ↔ e ∈ events dm ∧ now - days * 24 * 60 * 60 * 1000 ≤ timestamp e.
Proof.
  unfold recentEvents. rewrite list_elem_of_In, filter_In, <- list_elem_of_In, Z.leb_le. done.
Qed.

Lemma ranked_file_time_window now days dm r :
  r ∈ getMostEditedFiles (sortByTimestamp (recentEvents now days dm)) →
  fileTime r = calculateActiveTime (editsOfFile (recentEvents now days dm) (file r)).
Proof.
  intros Hr. rewrite (ranked_file_time _ r (sortBy_sorted timestamp _) Hr).
  apply calculateActiveTime_perm, editsOfFile_perm, sortBy_perm.
Qed.

(** X17.  In the statistics of a window, the total is the number of events
    of the log that are not older than the window, and an event is counted
    exactly when it is in the log with a time stamp at or after the cutoff.
    The four counters by type are not negative and together at most the
    total, and the 24 hourly buckets add up to the total. *)
Theorem X17_window_counts rnd tz now days dm :
  statsTotalEvents (generateStats rnd tz now days dm)
    = Z.of_nat (length (recentEvents now days dm)) ∧
  (∀ e, e ∈ recentEvents now days dm
        ↔ e ∈ events dm ∧ now - days * 24 * 60 * 60 * 1000 ≤ timestamp e) ∧
  (0 ≤ filesSwitched (generateStats rnd tz now days dm) ∧
   0 ≤ filesEdited (generateStats rnd tz now days dm) ∧
   0 ≤ filesCreated (generateStats rnd tz now days dm) ∧
   0 ≤ commandsExecuted (generateStats rnd tz now days dm) ∧
   filesSwitched (generateStats rnd tz now days dm)
   + filesEdited (generateStats rnd tz now days dm)
   + filesCreated (generateStats rnd tz now days dm)
   + commandsExecuted (generateStats rnd tz now days dm)
   ≤ statsTotalEvents (generateStats rnd tz now days dm)) ∧
  sumZ (map hourEvents (hourlyActivity (generateStats rnd tz now days dm)))
    = statsTotalEvents (generateStats rnd tz now days dm).
Proof.
  unfold generateStats. cbn [statsTotalEvents filesSwitched filesEdited filesCreated
    commandsExecuted hourlyActivity].
  set (recent := recentEvents now days dm).
  split; [done|]. split; [apply recentEvents_spec|]. split.
  - pose proof (four_counts_le_total recent).
    repeat split; try apply countEventsByType_nonneg. done.
  - rewrite hourly_counts_sum. f_equal. apply Permutation_length, sortBy_perm.
Qed.

Lemma X17_window_counts_witness :
  ev 2000 FILE_SAVE ∈ recentEvents 5000 1 workingManager.
Proof.
  apply (proj1 (proj2 (X17_window_counts (λ x, x) 0 5000 1 workingManager))).
  split; [simpl; right; left | simpl; lia].
Defined.

(** X18.  [calculateActiveTime] sorts the slice of [generateStats] in place,
    so every later figure is computed from the sorted slice.  This changes
    none of them: coding time, debug time and productivity score are those of
    the slice in log order, and the time of a ranked file is the active time
    of the edits of that file in the slice. *)
Theorem X18_in_place_sort_is_harmless rnd tz now days dm :
  codingTime (generateStats rnd tz now days dm)
    = calculateCodingTime (recentEvents now days dm) ∧
  debugTime (generateStats rnd tz now days dm)
    = calculateDebugTime (recentEvents now days dm) ∧
  productivityScore (generateStats rnd tz now days dm)
    = calculateProductivityScore rnd (recentEvents now days dm) ∧
  ∀ r, r ∈ mostEditedFiles (generateStats rnd tz now days dm) →
       fileTime r = calculateActiveTime (editsOfFile (recentEvents now days dm) (file r)).
Proof.
  unfold generateStats.
  cbn [codingTime debugTime productivityScore mostEditedFiles].
  set (recent := recentEvents now days dm).
  assert (Hperm : sortByTimestamp recent ≡ₚ recent) by apply sortBy_perm.
  split; [|split; [|split]].
  - unfold calculateCodingTime.
    apply calculateActiveTime_perm, List_filter_perm, Hperm.
  - unfold calculateDebugTime, sortByTimestamp. by rewrite sortBy_idem.
  - by apply calculateProductivityScore_perm.
  - intros r. apply ranked_file_time_window.
Qed.

Lemma X18_in_place_sort_is_harmless_witness :
  fileTime (mkFileRank "a.ts" 2 1000)
  = calculateActiveTime
      (editsOfFile (recentEvents 10000 1 (mkManager morningLog [] None None true None)) "a.ts").
Proof.
  apply (proj2 (proj2 (proj2 (X18_in_place_sort_is_harmless (λ x, x) 0 10000 1
                                (mkManager morningLog [] None None true None))))
           (mkFileRank "a.ts" 2 1000)).
  vm_compute. by left.
Defined.

(** X19.  For a log with positive time stamps, the statistics of a window
    show no more coding time than active time and no ranked file with more
    time than the active time; and a longer window has at least as many
    events and at least as much active time as a shorter one. *)
Theorem X19_window_bounds rnd tz now days dm :
  Forall (λ e, 0 < timestamp e) (events dm) →
  codingTime (generateStats rnd tz now days dm)
    ≤ statsActiveTime (generateStats rnd tz now days dm) ∧
  (∀ r, r ∈ mostEditedFiles (generateStats rnd tz now days dm) →
        fileTime r ≤ statsActiveTime (generateStats rnd tz now days dm)) ∧
  (∀ days', days ≤ days' →
     statsTotalEvents (generateStats rnd tz now days dm)
       ≤ statsTotalEvents (generateStats rnd tz now days' dm) ∧
     statsActiveTime (generateStats rnd tz now days dm)
       ≤ statsActiveTime (generateStats rnd tz now days' dm)).
Proof.
  intros Hpos. unfold generateStats.
  cbn [codingTime mostEditedFiles statsActiveTime statsTotalEvents].
  set (recent := recentEvents now days dm).
  assert (Hrecent : ∀ d, Forall (λ e, 0 < timestamp e) (recentEvents now d dm)).
  { intros d. by apply Forall_List_filter. }
  split; [|split].
  - unfold calculateCodingTime.
    rewrite (calculateActiveTime_perm _ _ (List_filter_perm _ _ _ (sortBy_perm timestamp recent))).
    apply selection_active_le, Hrecent.
  - intros r Hr. rewrite (ranked_file_time_window _ _ _ r Hr).
    apply selection_active_le_prop, Hrecent.
  - intros days' Hdays. unfold recent.
    rewrite (recentEvents_narrower now days days' dm Hdays). split.
    + pose proof (filter_length_le
        (λ e, now - days * 24 * 60 * 60 * 1000 <=? timestamp e) (recentEvents now days' dm)).
      lia.
    + apply selection_active_le, Hrecent.
Qed.

Lemma X19_window_bounds_witness :
  codingTime (generateStats (λ x, x) 0 5000 1 workingManager)
  ≤ statsActiveTime (generateStats (λ x, x) 0 5000 1 workingManager).
Proof.
  refine (proj1 (X19_window_bounds (λ x, x) 0 5000 1 workingManager _)).
  simpl. repeat constructor; lia.
Defined.

(** ** The streak of a window *)

Lemma hasEventsOn_count events d :
  (0 <? Z.of_nat (length (eventsOnDay events d))) = hasEventsOn events d.
Proof.
  unfold hasEventsOn, eventsOnDay.
  induction events as [|e l IH].
  - reflexivity.
  - rewrite filter_cons. destruct (decide (dateKey (timestamp e) = d)) as [He|He].
    + rewrite length_cons, bool_decide_eq_true_2 by (by apply Exists_cons_hd).
      apply Z.ltb_lt. lia.
    + rewrite IH. apply bool_decide_ext. rewrite Exists_cons. tauto.
Qed.

Lemma daily_flags now events days :
  activeDaysBackward (getDailyActivity now events days)
  = map (hasEventsOn events) (daysBackward now days).
Proof.
  rewrite daily_buckets. unfold activeDaysBackward, windowDays.
  rewrite map_map, map_rev, rev_involutive. apply map_ext. intros d.
  unfold dayFlag. cbn [eventCount]. apply hasEventsOn_count.
Qed.

Lemma longestRun_length l : longestRun l ≤ Z.of_nat (length l).
Proof.
  assert (Hlead : ∀ l', leadingRun l' ≤ Z.of_nat (length l')).
  { induction l' as [|[] l' IH]; simpl; lia. }
  induction l as [|b l IH]; [done|].
  change (longestRun (b :: l)) with (Z.max (leadingRun (b :: l)) (longestRun l)).
  specialize (Hlead (b :: l)). rewrite length_cons in *. lia.
Qed.

Lemma calculateStreakData_on now days dm :
  calculateStreakData now days dm = calculateStreakDataOn (daysAgo now) days dm.
Proof. reflexivity. Qed.

(** The flags of the buckets, read off the log. *)
Lemma daily_flags_on back events days :
  activeDaysBackward (getDailyActivityOn back events days)
  = map (hasEventsOn events) (rev (map date (getDailyActivityOn back events days))).
Proof.
  unfold activeDaysBackward. rewrite map_rev, map_map. f_equal.
  pose proof (daily_entries_on back events days) as Hall.
  induction Hall as [|entry l Hentry Hl IH]; [done|].
  cbn [map]. rewrite IH. f_equal.
  rewrite Hentry at 1. unfold dayFlag. cbn [dayBucket eventCount]. apply hasEventsOn_count.
Qed.

Lemma leadingRun_last {A : Type} (f : A → bool) (l : list A) :
  Z.min 1 (leadingRun (map f (rev l)))
  = match last l with Some d => if f d then 1 else 0 | None => 0 end.
Proof.
  destruct l as [|x l] using rev_ind; [done|].
  rewrite rev_app_distr, last_snoc. cbn [rev app map leadingRun].
  destruct (f x); [|done].
  pose proof (leadingRun_nonneg (map f (rev l))). lia.
Qed.

Lemma streak_of_regular_window now days events :
  longest (streakOfDaily (getDailyActivity now events days))
    = longestRun (map (hasEventsOn events) (daysBackward now days)) ∧
  current (streakOfDaily (getDailyActivity now events days))
    = (if bool_decide (0 < days) && hasEventsOn events (dateKey now) then 1 else 0).
Proof.
  rewrite streak_longest_is_longest_run, streak_current_is_flag, daily_flags.
  split; [done|]. unfold daysBackward.
  case_bool_decide as Hdays.
  - destruct (Z.to_nat days) as [|n] eqn:Hn; [lia|].
    rewrite <- cons_seq. cbn [map]. rewrite Z.sub_0_r.
    destruct (hasEventsOn events (dateKey now)); cbn [leadingRun andb]; [|done].
    match goal with |- Z.min 1 (1 + leadingRun ?l) = 1 =>
      pose proof (leadingRun_nonneg l) end. lia.
  - replace (Z.to_nat days) with 0%nat by lia. done.
Qed.

(** On the New York host of [daily_histogram_across_dst] a log with an event
    on each of the last three UTC days has a longest streak of 2, where a
    host at a fixed offset gives 3. *)
Lemma streak_across_dst :
  calculateStreakDataOn newYork 3 dstManager = mkStreak 1 2 ∧
  calculateStreakDataOn (daysAgo dstNow) 3 dstManager = mkStreak 1 3.
Proof. split; by vm_compute. Qed.

(** X20.  On the calendar of any host, the longest streak that
    [calculateStreakData] returns is the length of the longest run of
    consecutive buckets of the daily histogram on whose day the log has an
    event, and at most the number of buckets, which is at most the number of
    days asked for.  The current streak is 1 when the log has an event on
    the day of the last bucket and 0 otherwise, whatever happened on the
    days before; it never exceeds the longest streak.  On a host whose every
    step back lands on the UTC day before (any host at a fixed offset to
    UTC) the buckets are the days of the window: the longest streak is the
    longest run of consecutive days with an event, and the current streak
    tells whether there is an event today. *)
Theorem X20_streak_of_window back days dm :
  longest (calculateStreakDataOn back days dm)
    = longestRun (map (hasEventsOn (events dm))
                      (rev (map date (getDailyActivityOn back (events dm) days)))) ∧
  current (calculateStreakDataOn back days dm)
    = match last (map date (getDailyActivityOn back (events dm) days)) with
      | Some d => if hasEventsOn (events dm) d then 1 else 0
      | None => 0
      end ∧
  0 ≤ current (calculateStreakDataOn back days dm)
    ≤ longest (calculateStreakDataOn back days dm) ∧
  longest (calculateStreakDataOn back days dm)
    ≤ Z.of_nat (length (getDailyActivityOn back (events dm) days)) ∧
  Z.of_nat (length (getDailyActivityOn back (events dm) days)) ≤ Z.max 0 days ∧
  (∀ now, stepsOneUtcDay now back days →
     longest (calculateStreakDataOn back days dm)
       = longestRun (map (hasEventsOn (events dm)) (daysBackward now days)) ∧
     current (calculateStreakDataOn back days dm)
       = (if bool_decide (0 < days) && hasEventsOn (events dm) (dateKey now)
          then 1 else 0)).
Proof.
  unfold calculateStreakDataOn.
  set (hist := getDailyActivityOn back (events dm) days).
  assert (Hlongest := streak_longest_is_longest_run hist).
  assert (Hcurrent := streak_current_is_flag hist).
  unfold hist in Hlongest, Hcurrent. rewrite daily_flags_on in Hlongest, Hcurrent.
  fold hist in Hlongest, Hcurrent.
  set (flags := map (hasEventsOn (events dm)) (rev (map date hist))) in *.
  pose proof (longestRun_bounds flags) as [H0 Hlead].
  pose proof (leadingRun_nonneg flags) as Hnn.
  pose proof (longestRun_length flags) as Hlen.
  assert (Hflags : length flags = length hist)
    by (unfold flags; by rewrite length_map, length_rev, length_map).
  pose proof (daily_length_on back (events dm) days) as Hdays. fold hist in Hdays.
  split; [done|]. split; [|split; [|split; [|split]]].
  - rewrite Hcurrent. apply leadingRun_last.
  - lia.
  - lia.
  - lia.
  - intros now Hsteps. unfold hist.
    rewrite (getDailyActivityOn_regular now back (events dm) days Hsteps).
    apply streak_of_regular_window.
Qed.

Lemma X20_streak_of_window_witness :
  current (calculateStreakDataOn (daysAgo streakNow) 7 threeDayManager)
  = (if bool_decide (0 < 7) && hasEventsOn (events threeDayManager) (dateKey streakNow)
     then 1 else 0).
Proof.
  apply (proj2 (proj2 (proj2 (proj2 (proj2
           (X20_streak_of_window (daysAgo streakNow) 7 threeDayManager))))) streakNow).
  intros i _. unfold dateKey, daysAgo.
  replace (streakNow - Z.of_nat i * msPerDay)
    with (streakNow + (- Z.of_nat i) * msPerDay) by lia.
  rewrite Z.div_add by (unfold msPerDay; lia). lia.
Defined.

(** * Further properties of the event normalizer *)

(** ** Edit coalescing *)

Lemma addedBy_app cs cs' : addedBy (cs ++ cs') = (addedBy cs + addedBy cs')%N.
Proof. unfold addedBy. induction cs as [|c cs IH]; simpl; [done|]. rewrite IH. lia. Qed.

Lemma deletedBy_app cs cs' : deletedBy (cs ++ cs') = (deletedBy cs + deletedBy cs')%N.
Proof. unfold deletedBy. induction cs as [|c cs IH]; simpl; [done|]. rewrite IH. lia. Qed.

Lemma updateEditBuffer_buffer path changes tr :
  editBuffer (updateEditBuffer path changes tr) !! path
  = Some (let old := default (mkBuffer 0 0 0) (editBuffer tr !! path) in
          mkBuffer (added old + addedBy changes) (deleted old + deletedBy changes)
                   (edits old + N.of_nat (length changes))).
Proof.
  destruct (updateEditBuffer_lookup path changes tr) as ([a d n] & -> & Ha & Hd & Hn).
  simpl in *. unfold addedBy, deletedBy. by rewrite Ha, Hd, Hn.
Qed.

Lemma updateEditBuffer_other path path' changes tr :
  path ≠ path' →
  editBuffer (updateEditBuffer path changes tr) !! path' = editBuffer tr !! path'.
Proof. intros. unfold updateEditBuffer. simpl. by apply lookup_insert_ne. Qed.

Lemma editCalls_step path call calls st out :
  fold_left (λ acc c,
               let r := onFileEdit c.1 "file" path c.2 acc.1 in
               (r.1, acc.2 ++ from_option (λ e, [e]) [] r.2))
            (call :: calls) (st, out)
  = fold_left (λ acc c,
               let r := onFileEdit c.1 "file" path c.2 acc.1 in
               (r.1, acc.2 ++ from_option (λ e, [e]) [] r.2))
            calls ((onFileEdit call.1 "file" path call.2 st).1,
                   out ++ from_option (λ e, [e]) [] (onFileEdit call.1 "file" path call.2 st).2).
Proof. reflexivity. Qed.

(** An edit that arrives less than a second after the first edit of the
    pending burst is only added to the buffer. *)
Lemma onFileEdit_buffered now path changes st t0 :
  lastEditTime (tracker st) !! path = Some t0 → now - t0 < 1000 →
  onFileEdit now "file" path changes st
  = (mkEditor (updateEditBuffer path changes (tracker st)) (editTimers st), None).
Proof.
  intros Hlast Hnow. unfold onFileEdit.
  rewrite bool_decide_eq_true_2 by done. cbn [negb]. rewrite Hlast.
  change (default 0 (Some t0)) with t0.
  by rewrite (proj2 (Z.ltb_lt _ _) Hnow).
Qed.

(** An edit that arrives later flushes what is pending and starts a burst
    of its own. *)
Lemma onFileEdit_starts now path changes st :
  1000 ≤ now - default 0 (lastEditTime (tracker st) !! path) →
  onFileEdit now "file" path changes st
  = (mkEditor (updateEditBuffer path changes
                 (setLastEditTime path now (flushEditBuffer now path (tracker st)).1))
              (<[path := now + 1000]> (editTimers st)),
     (flushEditBuffer now path (tracker st)).2).
Proof.
  intros Hnow. unfold onFileEdit.
  rewrite bool_decide_eq_true_2 by done. cbn [negb].
  by rewrite (proj2 (Z.ltb_ge _ _) Hnow).
Qed.

Lemma editCalls_buffered path t0 rest :
  Forall (λ call : Z * list ContentChange, call.1 - t0 < 1000) rest →
  ∀ st out b,
    lastEditTime (tracker st) !! path = Some t0 →
    editBuffer (tracker st) !! path = Some b →
    let after := fold_left (λ acc c,
                   let r := onFileEdit c.1 "file" path c.2 acc.1 in
                   (r.1, acc.2 ++ from_option (λ e, [e]) [] r.2)) rest (st, out) in
    after.2 = out ∧
    editBuffer (tracker after.1) !! path
      = Some (mkBuffer (added b + addedBy (concat (map snd rest)))
                       (deleted b + deletedBy (concat (map snd rest)))
                       (edits b + N.of_nat (length (concat (map snd rest))))) ∧
    lastEditTime (tracker after.1) !! path = Some t0 ∧
    editTimers after.1 = editTimers st ∧
    isActive (tracker after.1) = isActive (tracker st) ∧
    enableTracking (tracker after.1) = enableTracking (tracker st) ∧
    textDocuments (tracker after.1) = textDocuments (tracker st).
Proof.
  induction 1 as [|[t ch] rest Ht Hrest IH]; intros st out b Hlast Hbuf.
  - simpl. rewrite Hbuf. destruct b as [a d n]. simpl.
    rewrite !N.add_0_r. done.
  - cbv zeta. rewrite editCalls_step. cbn [fst snd] in *.
    rewrite (onFileEdit_buffered t path ch st t0 Hlast Ht). cbn [fst snd from_option].
    rewrite app_nil_r.
    specialize (IH (mkEditor (updateEditBuffer path ch (tracker st)) (editTimers st)) out
                   (mkBuffer (added b + addedBy ch) (deleted b + deletedBy ch)
                             (edits b + N.of_nat (length ch)))).
    cbv zeta in IH. cbn [tracker editTimers] in IH.
    destruct IH as (Hout & Hb & Hl & Htim & Hact & Hen & Hdocs).
    + done.
    + rewrite updateEditBuffer_buffer, Hbuf. done.
    + split; [done|]. split.
      { rewrite Hb. cbn [added deleted edits map concat].
        rewrite addedBy_app, deletedBy_app, length_app. cbn [snd].
        f_equal. f_equal; lia. }
      done.
Qed.

(** X21.  A burst of edits to one file is recorded as one event.  When
    nothing is pending for the file, a first edit and any number of further
    edits that each arrive less than a second after the first emit no event;
    they leave one buffer that holds the summed character counts of all their
    changes, and one timer due a second after the first edit.  When the timer
    fires, the buffer, the time of the first edit and the timer are gone; with
    tracking enabled and active, the document open and a sum that is not zero,
    exactly one [FILE_EDIT] event with the summed counts is emitted, and with
    both sums zero none is. *)
Theorem X21_edit_burst_is_one_event path t0 ch0 rest st tfire :
  1000 ≤ t0 - default 0 (lastEditTime (tracker st) !! path) →
  editBuffer (tracker st) !! path = None →
  Forall (λ call : Z * list ContentChange, call.1 - t0 < 1000) rest →
  let changes := ch0 ++ concat (map snd rest) in
  let after := editCalls path ((t0, ch0) :: rest) st in
  let fired := editTimerFired tfire path after.1 in
  after.2 = [] ∧
  editBuffer (tracker after.1) !! path
    = Some (mkBuffer (addedBy changes) (deletedBy changes) (N.of_nat (length changes))) ∧
  editTimers after.1 !! path = Some (t0 + 1000) ∧
  (editBuffer (tracker fired.1) !! path = None ∧
   lastEditTime (tracker fired.1) !! path = None ∧
   editTimers fired.1 !! path = None) ∧
  (enableTracking (tracker st) = true → isActive (tracker st) = true →
   (∃ doc, doc ∈ textDocuments (tracker st) ∧ fsPath doc = path) →
   (addedBy changes ≠ 0 ∨ deletedBy changes ≠ 0)%N →
   ∃ event, fired.2 = Some event ∧ type event = FILE_EDIT ∧ timestamp event = tfire ∧
            filePath (data event) = Some path ∧
            charactersAdded (data event) = Some (addedBy changes) ∧
            charactersDeleted (data event) = Some (deletedBy changes)) ∧
  ((addedBy changes = 0 ∧ deletedBy changes = 0)%N → fired.2 = None).
Proof.
  intros Hstale Hnone Hrest. cbv zeta.
  set (changes := ch0 ++ concat (map snd rest)).
  assert (Hflush : flushEditBuffer t0 path (tracker st) = (forget path (tracker st), None)).
  { unfold flushEditBuffer. by rewrite Hnone. }
  set (st1 := mkEditor (updateEditBuffer path ch0
                          (setLastEditTime path t0 (forget path (tracker st))))
                       (<[path := t0 + 1000]> (editTimers st))).
  assert (Hafter : editCalls path ((t0, ch0) :: rest) st
                   = fold_left (λ acc c,
                       let r := onFileEdit c.1 "file" path c.2 acc.1 in
                       (r.1, acc.2 ++ from_option (λ e, [e]) [] r.2)) rest (st1, [])).
  { unfold editCalls. rewrite editCalls_step. cbn [fst snd].
    rewrite (onFileEdit_starts t0 path ch0 st Hstale), Hflush. done. }
  rewrite Hafter. clear Hafter.
  destruct (editCalls_buffered path t0 rest Hrest st1 []
              (mkBuffer (addedBy ch0) (deletedBy ch0) (N.of_nat (length ch0))))
    as (Hout & Hbuf & Hlast & Htim & Hact & Hen & Hdocs).
  { unfold st1. cbn. apply lookup_insert_eq. }
  { unfold st1. cbn [tracker]. rewrite updateEditBuffer_buffer.
    cbn [setLastEditTime editBuffer]. rewrite forget_lookup. cbn. by rewrite !N.add_0_l. }
  set (after := fold_left _ rest (st1, [])) in *.
  cbn [added deleted edits] in Hbuf.
  rewrite <- addedBy_app, <- deletedBy_app, <- Nat2N.inj_add, <- length_app in Hbuf.
  fold changes in Hbuf.
  split; [done|]. split; [done|]. split.
  { rewrite Htim. unfold st1. cbn. apply lookup_insert_eq. }
  assert (Hfired : (flushEditBuffer tfire path (tracker after.1)).1
                   = forget path (tracker after.1)) by apply flushEditBuffer_forgets.
  split.
  { unfold editTimerFired. cbn [fst tracker editTimers]. rewrite Hfired.
    split; [apply forget_lookup|]. split; [cbn; apply lookup_delete_eq|].
    apply lookup_delete_eq. }
  split.
  - intros Henabled Hactive Hdoc Hsum.
    unfold st1 in Hact, Hen, Hdocs. cbn in Hact, Hen, Hdocs.
    destruct (find_document _ _ Hdoc) as (doc & Hfind & Hpath).
    unfold editTimerFired. cbn [snd]. unfold flushEditBuffer.
    rewrite Hbuf. cbn [added deleted].
    replace ((addedBy changes =? 0)%N && (deletedBy changes =? 0)%N) with false.
    2:{ symmetry. apply andb_false_iff.
        destruct Hsum as [H|H]; [left|right]; by apply N.eqb_neq. }
    rewrite Hdocs, Hfind. unfold trackEvent. rewrite Hen, Hact, Henabled, Hactive.
    cbn [negb orb]. eexists. split; [done|]. cbn. by rewrite Hpath.
  - intros [Ha Hd]. unfold editTimerFired. cbn [snd]. unfold flushEditBuffer.
    rewrite Hbuf. cbn [added deleted]. by rewrite Ha, Hd.
Qed.

Lemma X21_edit_burst_is_one_event_witness :
  ∃ event,
    (editTimerFired 6000 "/w/main.ts"
       (editCalls "/w/main.ts"
          [(5000, [mkChange 3 "hello"]); (5400, [mkChange 0 "!"]); (5900, [mkChange 2 EmptyString])]
          idleEditor).1).2 = Some event ∧
    type event = FILE_EDIT ∧ timestamp event = 6000 ∧
    filePath (data event) = Some "/w/main.ts"%string ∧
    charactersAdded (data event) = Some 6%N ∧
    charactersDeleted (data event) = Some 5%N.
Proof.
  destruct (X21_edit_burst_is_one_event "/w/main.ts" 5000 [mkChange 3 "hello"]
              [(5400, [mkChange 0 "!"]); (5900, [mkChange 2 EmptyString])] idleEditor 6000)
    as (_ & _ & _ & _ & Hevent & _).
  - unfold idleEditor, idleTracker. cbn [tracker lastEditTime].
    rewrite lookup_empty. simpl. lia.
  - reflexivity.
  - repeat constructor; simpl; lia.
  - apply Hevent.
    + reflexivity.
    + reflexivity.
    + exists mainDocument. split; [by left | reflexivity].
    + left. vm_compute. discriminate.
Defined.

Lemma flushEditBuffer_event now path tr event :
  (flushEditBuffer now path tr).2 = Some event →
  type event = FILE_EDIT ∧ timestamp event = now ∧ filePath (data event) = Some path.
Proof.
  unfold flushEditBuffer.
  destruct (editBuffer tr !! path) as [buffer|]; [|done].
  destruct ((added buffer =? 0)%N && (deleted buffer =? 0)%N); [done|].
  destruct (List.find _ _) as [doc|] eqn:Hfind; [|done].
  apply find_some in Hfind as [_ Hpath]. apply bool_decide_eq_true in Hpath.
  unfold trackEvent. destruct (negb _ || negb _); [done|].
  intros [= <-]. cbn. by rewrite Hpath.
Qed.

(** X22.  A notification or a timer for one file touches nothing that is
    pending for another file: the buffer, the time of the first edit and the
    timer of every other file stay as they were.  An event that a
    notification emits is a [FILE_EDIT] of the notified file, stamped with the
    instant of the notification, and was pending in the buffer of that file
    before; a notification for a document whose scheme is not [file] changes
    nothing and emits nothing. *)
Theorem X22_edit_touches_one_file now scheme path changes st :
  (∀ other, other ≠ path →
     editBuffer (tracker (onFileEdit now scheme path changes st).1) !! other
       = editBuffer (tracker st) !! other ∧
     lastEditTime (tracker (onFileEdit now scheme path changes st).1) !! other
       = lastEditTime (tracker st) !! other ∧
     editTimers (onFileEdit now scheme path changes st).1 !! other
       = editTimers st !! other ∧
     editBuffer (tracker (editTimerFired now path st).1) !! other
       = editBuffer (tracker st) !! other ∧
     lastEditTime (tracker (editTimerFired now path st).1) !! other
       = lastEditTime (tracker st) !! other ∧
     editTimers (editTimerFired now path st).1 !! other = editTimers st !! other) ∧
  (∀ event, (onFileEdit now scheme path changes st).2 = Some event →
     type event = FILE_EDIT ∧ timestamp event = now ∧
     filePath (data event) = Some path ∧
     is_Some (editBuffer (tracker st) !! path) ∧
     1000 ≤ now - default 0 (lastEditTime (tracker st) !! path)) ∧
  (scheme ≠ "file"%string → onFileEdit now scheme path changes st = (st, None)).
Proof.
  split; [|split].
  - intros other Hother.
    assert (Hfired : (flushEditBuffer now path (tracker st)).1 = forget path (tracker st))
      by apply flushEditBuffer_forgets.
    split; [|split; [|split; [|split; [|split]]]].
    + unfold onFileEdit. destruct (negb _); [done|].
      destruct (_ <? 1000); cbn [fst tracker].
      * by apply updateEditBuffer_other.
      * rewrite updateEditBuffer_other, Hfired by done. cbn.
        by apply lookup_delete_ne.
    + unfold onFileEdit. destruct (negb _); [done|].
      destruct (_ <? 1000); cbn [fst tracker]; [done|].
      rewrite Hfired. cbn. rewrite lookup_insert_ne by done. by apply lookup_delete_ne.
    + unfold onFileEdit. destruct (negb _); [done|].
      destruct (_ <? 1000); cbn [fst editTimers]; [done|].
      by apply lookup_insert_ne.
    + unfold editTimerFired. cbn [fst tracker]. rewrite Hfired. cbn.
      by apply lookup_delete_ne.
    + unfold editTimerFired. cbn [fst tracker]. rewrite Hfired. cbn.
      by apply lookup_delete_ne.
    + unfold editTimerFired. cbn [fst editTimers]. by apply lookup_delete_ne.
  - intros event. unfold onFileEdit. destruct (negb _); [done|].
    destruct (Z.ltb_spec (now - default 0 (lastEditTime (tracker st) !! path)) 1000);
      cbn [snd]; [done|].
    intros Hevent. destruct (flushEditBuffer_event _ _ _ _ Hevent) as (? & ? & ?).
    repeat (split; [done|]). split; [|done].
    unfold flushEditBuffer in Hevent.
    destruct (editBuffer (tracker st) !! path); [by eexists | done].
  - intros Hscheme. unfold onFileEdit. by rewrite bool_decide_eq_false_2.
Qed.

Lemma X22_edit_touches_one_file_witness :
  onFileEdit 5000 "git" "/w/main.ts" [mkChange 3 "hello"] idleEditor = (idleEditor, None).
Proof.
  apply (proj2 (proj2 (X22_edit_touches_one_file 5000 "git" "/w/main.ts"
                         [mkChange 3 "hello"] idleEditor))).
  discriminate.
Defined.

(** * Further properties of the productivity score *)

Lemma weightedSum_cons e l : weightedSum (e :: l) = weights (type e) + weightedSum l.
Proof. reflexivity. Qed.

Lemma weightedSum_commits events :
  Forall (λ e, type e = GIT_COMMIT) events →
  weightedSum events = Z.of_nat (length events) * 5.
Proof.
  induction 1 as [|e l He Hl IH]; [done|].
  rewrite weightedSum_cons, IH, He, length_cons. simpl weights. lia.
Qed.

Lemma weightedSum_idle events :
  Forall (λ e, weights (type e) = 0) events → weightedSum events = 0.
Proof.
  induction 1 as [|e l He Hl IH]; [done|]. rewrite weightedSum_cons, IH, He. done.
Qed.

Lemma mathRound_le (x y : Q) : (x <= y)%Q → mathRound x ≤ mathRound y.
Proof. intros H. unfold mathRound. apply Qfloor_resp_le. lra. Qed.

Lemma ratio_le (a b c : Z) : 0 < c → a ≤ b →
  (inject_Z a / inject_Z c <= inject_Z b / inject_Z c)%Q.
Proof.
  intros Hc Hab.
  assert (Hc' : (0 < inject_Z c)%Q) by (change 0%Q with (inject_Z 0); by rewrite <- Zlt_Qlt).
  apply Qle_shift_div_l; [done|].
  unfold Qdiv. rewrite <- Qmult_assoc, (Qmult_comm (/ _)), Qmult_inv_r, Qmult_1_r
    by (intros H; rewrite H in Hc'; by apply Qlt_irrefl in Hc').
  by rewrite <- Zle_Qle.
Qed.

Section ProductivityOrder.
Variable rnd : Q → Q.
Hypothesis rnd_monotone : ∀ x y : Q, (x <= y)%Q → (rnd x <= rnd y)%Q.
Hypothesis rnd_0 : (rnd 0 == 0)%Q.
Hypothesis rnd_1 : (rnd 1 == 1)%Q.
Hypothesis rnd_100 : (rnd 100 == 100)%Q.

Lemma score_of_sum events :
  events ≠ [] →
  calculateProductivityScore rnd events
  = Z.min 100 (mathRound (rnd (rnd (inject_Z (weightedSum events)
                                    / inject_Z (Z.of_nat (length events) * 5))
                               * inject_Z 100)%Q)).
Proof.
  intros Hne. unfold calculateProductivityScore.
  destruct events as [|e l]; [done|].
  simpl Nat.eqb. cbv iota. by rewrite score_loop, Z.add_0_l.
Qed.

Lemma score_monotone events events' :
  length events = length events' →
  weightedSum events ≤ weightedSum events' →
  calculateProductivityScore rnd events ≤ calculateProductivityScore rnd events'.
Proof.
  intros Hlen Hsum.
  destruct events as [|e l].
  { destruct events'; [done | discriminate]. }
  destruct events' as [|e' l']; [discriminate|].
  rewrite !score_of_sum by done. rewrite <- Hlen.
  apply Z.min_le_compat_l, mathRound_le, rnd_monotone.
  apply Qmult_le_compat_r; [|done].
  apply rnd_monotone, ratio_le; [rewrite length_cons; lia | done].
Qed.

Lemma score_at_ratio events (r : Z) :
  events ≠ [] → 0 ≤ r ≤ 1 → (rnd (inject_Z r) == inject_Z r)%Q →
  (rnd (inject_Z (r * 100)) == inject_Z (r * 100))%Q →
  weightedSum events = r * (Z.of_nat (length events) * 5) →
  calculateProductivityScore rnd events = r * 100.
Proof.
  intros Hne Hr Hrnd Hrnd' Hsum. rewrite score_of_sum by done.
  assert (Hlen : 0 < Z.of_nat (length events) * 5) by (destruct events; [done | simpl; lia]).
  assert (Hratio : (inject_Z (weightedSum events)
                    / inject_Z (Z.of_nat (length events) * 5) == inject_Z r)%Q).
  { rewrite Hsum, inject_Z_mult. apply Qdiv_mult_l.
    intros H. change 0%Q with (inject_Z 0) in H. apply (proj1 (inject_Z_injective _ _)) in H. lia. }
  assert (Hq : (rnd (inject_Z (weightedSum events)
                     / inject_Z (Z.of_nat (length events) * 5)) == inject_Z r)%Q).
  { rewrite <- Hrnd. apply Qle_antisym; apply rnd_monotone; rewrite Hratio; apply Qle_refl. }
  assert (Hp : (rnd (rnd (inject_Z (weightedSum events)
                          / inject_Z (Z.of_nat (length events) * 5)) * inject_Z 100)
                == inject_Z (r * 100))%Q).
  { rewrite <- Hrnd'.
    apply Qle_antisym; apply rnd_monotone; rewrite Hq, inject_Z_mult; apply Qle_refl. }
  unfold mathRound. rewrite Hp.
  replace (Qfloor (inject_Z (r * 100) + (1 # 2))) with (r * 100); [lia|].
  assert (r = 0 ∨ r = 1) as [-> | ->] by lia; reflexivity.
Qed.
End ProductivityOrder.

(** X23.  For a rounding to doubles that is monotone and leaves 0, 1 and 100
    as they are: a slice of commits only scores 100 and a slice of events of
    weight 0 only scores 0, so both ends of the range are reached; and of two
    slices of the same size the one with the larger sum of weights never
    scores less. *)
Theorem X23_productivity_extremes_and_order (rnd : Q → Q) :
  (∀ x y : Q, (x <= y)%Q → (rnd x <= rnd y)%Q) →
  (rnd 0 == 0)%Q → (rnd 1 == 1)%Q → (rnd 100 == 100)%Q →
  (∀ events, events ≠ [] → Forall (λ e, type e = GIT_COMMIT) events →
     calculateProductivityScore rnd events = 100) ∧
  (∀ events, Forall (λ e, weights (type e) = 0) events →
     calculateProductivityScore rnd events = 0) ∧
  (∀ events events', length events = length events' →
     weightedSum events ≤ weightedSum events' →
     calculateProductivityScore rnd events ≤ calculateProductivityScore rnd events').
Proof.
  intros Hmono H0 H1 H100. split; [|split].
  - intros events Hne Hall.
    apply (score_at_ratio rnd Hmono events 1);
      [done | lia | exact H1 | exact H100 | rewrite (weightedSum_commits _ Hall); lia].
  - intros events Hall. destruct events as [|e l]; [done|].
    apply (score_at_ratio rnd Hmono (e :: l) 0);
      [done | lia | exact H0 | exact H0 | rewrite (weightedSum_idle _ Hall); lia].
  - intros events events'. by apply score_monotone.
Qed.

Lemma X23_productivity_extremes_and_order_witness :
  calculateProductivityScore (λ x, x) [ev 1000 GIT_COMMIT; ev 2000 GIT_COMMIT] = 100.
Proof.
  apply (X23_productivity_extremes_and_order (λ x, x)).
  - intros x y H. exact H.
  - reflexivity.
  - reflexivity.
  - reflexivity.
  - discriminate.
  - repeat constructor.
Defined.
